(** * Silence trimmer and transcript de-duplication

    A shallow embedding of [src/utils/audioSilenceTrimmer.ts] and of the
    speech recognition hook (its text similarity helpers, its segment buffer
    and its restart, failure and flush logic), with the properties the
    specification states about them and further properties of the code.

    Conventions of the embedding.
    - Sample indices, lengths and counts are [Z] (or [nat] where they index a
      list); a JavaScript number that need not be integral is an exact
      rational [Q].  Rounding of IEEE doubles, [NaN] and the infinities are
      not represented.
    - [Math.sqrt] is kept symbolic: the result of [computeRMS] is a value of
      type [root], the non-negative real square root of a rational, and the
      comparisons the code performs on it are decided exactly on squares
      (they are shown to be the comparisons of real numbers).
    - A loop whose trip count is not bounded by its text runs on fuel;
      [Diverge] stands for a run that never returns, and the fuel given is
      shown to lose no result.
    - A JavaScript exception is the outcome [Throw].
    - Logging and [audioContext.close()] have no part in the results and
      are left out. *)

From Stdlib Require Import Reals Qreals Lra.
From Stdlib Require Import ZArith QArith Qround Bool List Lia Lqa Ascii String.
From stdpp Require Import base list.

Import ListNotations.
Local Open Scope Z_scope.

(** ** Outcomes of a call *)

Inductive outcome (A : Type) : Type :=
| Diverge : outcome A
| Throw : outcome A
| Return (a : A) : outcome A.

Arguments Diverge {A}.
Arguments Throw {A}.
Arguments Return {A} a.

Definition obind {A B : Type} (c : outcome A) (k : A -> outcome B) : outcome B :=
  match c with
  | Diverge => Diverge
  | Throw => Throw
  | Return a => k a
  end.

Notation "'let*' x ':=' c 'in' k" := (obind c (fun x => k))
  (at level 10, x name, c at level 100, k at level 200).
Notation "'let*' ' p ':=' c 'in' k" := (obind c (fun x => match x with p => k end))
  (at level 10, p pattern, c at level 100, k at level 200).

(** [try { body } catch { handler }]: only an exception reaches the handler. *)
Definition try_catch {A : Type} (body : outcome A) (handler : outcome A) : outcome A :=
  match body with
  | Throw => handler
  | other => other
  end.

(** A fuel-indexed loop that ran dry has not returned yet. *)
Definition of_fuel {A : Type} (r : option A) : outcome A :=
  match r with
  | Some a => Return a
  | None => Diverge
  end.

(** ** Numbers *)

Module Num.

(** [a > b] and [a < b] on rationals; [a >= b] is [Qle_bool b a]. *)
Definition gtb (a b : Q) : bool := negb (Qle_bool a b).
Definition ltb (a b : Q) : bool := negb (Qle_bool b a).

(** [Math.floor] and [Math.round] (half up). *)
Definition floor (x : Q) : Z := Qfloor x.
Definition round (x : Q) : Z := Qfloor (x + (1 # 2)).

(** Conversion of a number to an integer: truncation toward zero. *)
Definition trunc (x : Q) : Z := Z.quot (Qnum x) (Z.pos (Qden x)).

(** The real number [√radicand]; every value built here has
    [0 <= radicand]. *)
Record root : Type := Sqrt { radicand : Q }.

Definition root_zero : root := Sqrt 0.

(** [r * c] for a factor [0 <= c]. *)
Definition root_scale (r : root) (c : Q) : root := Sqrt (radicand r * (c * c)).

(** [√q >= t]: true when [t <= 0], else [q >= t²]. *)
Definition root_geb (r : root) (t : Q) : bool :=
  Qle_bool t 0 || Qle_bool (t * t) (radicand r).

(** [√q > t]: true when [t < 0], else [q > t²]. *)
Definition root_gtb (r : root) (t : Q) : bool :=
  ltb t 0 || gtb (radicand r) (t * t).

(** [√p < √q]. *)
Definition root_ltb (r s : root) : bool := ltb (radicand r) (radicand s).

End Num.

(** The real number a [root] stands for. *)
Definition root_value (r : Num.root) : R := sqrt (Q2R (Num.radicand r)).

(** ** Configuration *)

(** [TrimConfig]: every option may be left out. *)
Record TrimConfig : Type := {
  silenceThreshold : option Q;
  endThresholdMultiplier : option Q;
  windowSize : option Q;
  minSilenceDuration : option Q;
  trimTrailing : option bool;
  maxLeadingTrim : option Q;
  maxTrailingTrim : option Q;
  trailingPadding : option Q;
  minAudioDuration : option Q
}.

(** [Required<TrimConfig>]. *)
Record Config : Type := {
  cfg_silenceThreshold : Q;
  cfg_endThresholdMultiplier : Q;
  cfg_windowSize : Q;
  cfg_minSilenceDuration : Q;
  cfg_trimTrailing : bool;
  cfg_maxLeadingTrim : Q;
  cfg_maxTrailingTrim : Q;
  cfg_trailingPadding : Q;
  cfg_minAudioDuration : Q
}.

Definition DEFAULT_CONFIG : Config := {|
  cfg_silenceThreshold := 1 # 100;
  cfg_endThresholdMultiplier := 6 # 10;
  cfg_windowSize := 5 # 100;
  cfg_minSilenceDuration := 2 # 10;
  cfg_trimTrailing := false;
  cfg_maxLeadingTrim := 3;
  cfg_maxTrailingTrim := 8;
  cfg_trailingPadding := 35 # 100;
  cfg_minAudioDuration := 1
|}.

(** The empty object [{}]. *)
Definition empty_config : TrimConfig := {|
  silenceThreshold := None;
  endThresholdMultiplier := None;
  windowSize := None;
  minSilenceDuration := None;
  trimTrailing := None;
  maxLeadingTrim := None;
  maxTrailingTrim := None;
  trailingPadding := None;
  minAudioDuration := None
|}.

(** One property of an object spread [{ ...base, ...over }]. *)
Definition spread_field {A : Type} (base : A) (over : option A) : A :=
  match over with
  | Some v => v
  | None => base
  end.

(** [{ ...DEFAULT_CONFIG, ...config }] *)
Definition merge_config (base : Config) (config : TrimConfig) : Config := {|
  cfg_silenceThreshold := spread_field (cfg_silenceThreshold base) (silenceThreshold config);
  cfg_endThresholdMultiplier :=
    spread_field (cfg_endThresholdMultiplier base) (endThresholdMultiplier config);
  cfg_windowSize := spread_field (cfg_windowSize base) (windowSize config);
  cfg_minSilenceDuration := spread_field (cfg_minSilenceDuration base) (minSilenceDuration config);
  cfg_trimTrailing := spread_field (cfg_trimTrailing base) (trimTrailing config);
  cfg_maxLeadingTrim := spread_field (cfg_maxLeadingTrim base) (maxLeadingTrim config);
  cfg_maxTrailingTrim := spread_field (cfg_maxTrailingTrim base) (maxTrailingTrim config);
  cfg_trailingPadding := spread_field (cfg_trailingPadding base) (trailingPadding config);
  cfg_minAudioDuration := spread_field (cfg_minAudioDuration base) (minAudioDuration config)
|}.

(** [{ ...config, trimTrailing: false }] *)
Definition with_trimTrailing (config : TrimConfig) (b : bool) : TrimConfig := {|
  silenceThreshold := silenceThreshold config;
  endThresholdMultiplier := endThresholdMultiplier config;
  windowSize := windowSize config;
  minSilenceDuration := minSilenceDuration config;
  trimTrailing := Some b;
  maxLeadingTrim := maxLeadingTrim config;
  maxTrailingTrim := maxTrailingTrim config;
  trailingPadding := trailingPadding config;
  minAudioDuration := minAudioDuration config
|}.

(** ** Window energy *)

(** [samples[i]].  An index outside the array reads [undefined], which is
    [NaN] in arithmetic and is written as the 16-bit sample 0 by the WAV
    encoder; 0 stands for it here.  The scans call [computeRMS] only on
    windows that lie inside the array or are empty. *)
Definition sample_at (samples : list Q) (i : Z) : Q :=
  if i <? 0 then 0%Q else nth (Z.to_nat i) samples 0%Q.

(** [for (let i = start; i < end; i++) sumSquares += samples[i] * samples[i]],
    with [count] iterations left. *)
Fixpoint sum_squares (samples : list Q) (i : Z) (count : nat) (sumSquares : Q) : Q :=
  match count with
  | O => sumSquares
  | S count' =>
      sum_squares samples (i + 1) count'
        (sumSquares + sample_at samples i * sample_at samples i)%Q
  end.

Definition computeRMS (samples : list Q) (start length : Z) : Num.root :=
  let end_ := Z.min (start + length) (Z.of_nat (List.length samples)) in
  let actualLength := end_ - start in
  if actualLength <=? 0 then Num.root_zero
  else
    let sumSquares := sum_squares samples start (Z.to_nat actualLength) 0%Q in
    Num.Sqrt (sumSquares / inject_Z actualLength).

(** ** Leading silence *)

(** The [for] loop of [findSpeechStart]; [None] when the fuel is used up. *)
Fixpoint findSpeechStart_loop (fuel : nat) (samples : list Q)
    (windowSamples maxTrimSamples minSilenceSamples : Z) (threshold : Q)
    (i silentSamples : Z) : option Z :=
  match fuel with
  | O => None
  | S fuel' =>
      if (i <? Z.of_nat (List.length samples)) && (i <? maxTrimSamples) then
        let rms := computeRMS samples i windowSamples in
        if Num.root_geb rms threshold then
          if silentSamples >=? minSilenceSamples
          then Some (Z.max 0 (i - windowSamples / 2))
          else Some 0
        else
          findSpeechStart_loop fuel' samples windowSamples maxTrimSamples
            minSilenceSamples threshold (i + windowSamples) (silentSamples + windowSamples)
      else if silentSamples >=? minSilenceSamples
      then Some (Z.min silentSamples maxTrimSamples)
      else Some 0
  end.

(** Fuel that covers every run that ends: one pass per sample and one for the
    final test. *)
Definition scan_fuel (samples : list Q) : nat := S (List.length samples).

Definition findSpeechStart (samples : list Q) (sampleRate : Q) (config : Config)
    : option Z :=
  let windowSamples := Num.floor (sampleRate * cfg_windowSize config) in
  let maxTrimSamples := Num.floor (sampleRate * cfg_maxLeadingTrim config) in
  let minSilenceSamples := Num.floor (sampleRate * cfg_minSilenceDuration config) in
  findSpeechStart_loop (scan_fuel samples) samples windowSamples maxTrimSamples
    minSilenceSamples (cfg_silenceThreshold config) 0 0.

(** ** Trailing silence *)

(** [previousRMS > 0 && rms > 0 && rms < previousRMS * 0.8 && rms > endThreshold * 0.3] *)
Definition isDecrescendo (previousRMS rms : Num.root) (endThreshold : Q) : bool :=
  Num.root_gtb previousRMS 0 && Num.root_gtb rms 0 &&
  Num.root_ltb rms (Num.root_scale previousRMS (8 # 10)) &&
  Num.root_gtb rms (endThreshold * (3 # 10)).

(** The [for] loop of [findSpeechEnd]. *)
Fixpoint findSpeechEnd_loop (fuel : nat) (samples : list Q)
    (windowSamples minSilenceSamples maxTrailingTrimSamples trailingPaddingSamples : Z)
    (endThreshold : Q) (i silentSamples : Z) (previousRMS : Num.root) : option Z :=
  let len := Z.of_nat (List.length samples) in
  match fuel with
  | O => None
  | S fuel' =>
      if i >=? 0 then
        if silentSamples >? maxTrailingTrimSamples then Some len
        else
          let rms := computeRMS samples i windowSamples in
          if Num.root_geb rms endThreshold || isDecrescendo previousRMS rms endThreshold then
            if silentSamples >=? minSilenceSamples then
              let endWithPadding := i + windowSamples + trailingPaddingSamples in
              Some (Z.min len endWithPadding)
            else Some len
          else
            findSpeechEnd_loop fuel' samples windowSamples minSilenceSamples
              maxTrailingTrimSamples trailingPaddingSamples endThreshold
              (i - windowSamples) (silentSamples + windowSamples) rms
      else Some len
  end.

Definition findSpeechEnd (samples : list Q) (sampleRate : Q) (config : Config)
    : option Z :=
  let windowSamples := Num.floor (sampleRate * cfg_windowSize config) in
  let minSilenceSamples := Num.floor (sampleRate * cfg_minSilenceDuration config) in
  let maxTrailingTrimSamples := Num.floor (sampleRate * cfg_maxTrailingTrim config) in
  let trailingPaddingSamples := Num.floor (sampleRate * cfg_trailingPadding config) in
  let endThreshold := (cfg_silenceThreshold config * cfg_endThresholdMultiplier config)%Q in
  findSpeechEnd_loop (scan_fuel samples) samples windowSamples minSilenceSamples
    maxTrailingTrimSamples trailingPaddingSamples endThreshold
    (Z.of_nat (List.length samples) - windowSamples) 0 Num.root_zero.

(** ** Bounded loops *)

(** [for (const i of indices) s = body(i, s)], stopping at an exception. *)
Fixpoint foldM {S : Type} (body : nat -> S -> outcome S) (indices : list nat) (s : S)
    : outcome S :=
  match indices with
  | [] => Return s
  | i :: rest => let* s' := body i s in foldM body rest s'
  end.

(** [for (let i = 0; i < n; i++) s = body(i, s)] *)
Definition forM {S : Type} (n : nat) (body : nat -> S -> outcome S) (s : S) : outcome S :=
  foldM body (seq 0 n) s.

(** ** Audio buffers and blobs *)

Record AudioBuffer : Type := {
  buf_sampleRate : Q;
  buf_length : nat;
  buf_channels : list (list Q)
}.

Definition numberOfChannels (b : AudioBuffer) : nat := List.length (buf_channels b).

(** [buffer.getChannelData(ch)] raises for a channel that does not exist. *)
Definition getChannelData (b : AudioBuffer) (ch : nat) : outcome (list Q) :=
  match buf_channels b !! ch with
  | Some data => Return data
  | None => Throw
  end.

Record Blob : Type := {
  blob_bytes : list Z;
  blob_type : string
}.

(** ** DataView over a byte array *)

Module DataView.

(** Byte [k] of the two's complement representation of [v]. *)
Definition byte_of (v : Z) (k : Z) : Z := Z.land (Z.shiftr v (8 * k)) 255.

(** A write outside the buffer raises a [RangeError]. *)
Definition setUint8 (offset : nat) (value : Z) (view : list Z) : outcome (list Z) :=
  if (offset + 1 <=? List.length view)%nat
  then Return (<[offset := byte_of value 0]> view)
  else Throw.

(** Little-endian 16-bit write; [setInt16] and [setUint16] store the same
    low 16 bits. *)
Definition setUint16 (offset : nat) (value : Z) (view : list Z) : outcome (list Z) :=
  if (offset + 2 <=? List.length view)%nat
  then Return (<[S offset := byte_of value 1]> (<[offset := byte_of value 0]> view))
  else Throw.

Definition setInt16 (offset : nat) (value : Z) (view : list Z) : outcome (list Z) :=
  setUint16 offset value view.

Definition setUint32 (offset : nat) (value : Z) (view : list Z) : outcome (list Z) :=
  if (offset + 4 <=? List.length view)%nat
  then Return (<[S (S (S offset)) := byte_of value 3]>
               (<[S (S offset) := byte_of value 2]>
                (<[S offset := byte_of value 1]>
                 (<[offset := byte_of value 0]> view))))
  else Throw.

(** Reading back. *)
Definition getUint8 (offset : nat) (view : list Z) : Z := nth offset view 0.

Definition getUint16 (offset : nat) (view : list Z) : Z :=
  getUint8 offset view + 256 * getUint8 (S offset) view.

Definition getInt16 (offset : nat) (view : list Z) : Z :=
  let u := getUint16 offset view in
  if u <? 32768 then u else u - 65536.

Definition getUint32 (offset : nat) (view : list Z) : Z :=
  getUint8 offset view + 256 * getUint8 (S offset) view
  + 65536 * getUint8 (S (S offset)) view
  + 16777216 * getUint8 (S (S (S offset))) view.

End DataView.

(** ** WAV encoding *)

(** [str.charCodeAt(i)] for each [i]. *)
Definition char_codes (str : string) : list Z :=
  map (fun c => Z.of_nat (nat_of_ascii c)) (list_ascii_of_string str).

(** [writeString(offset, str)] *)
Definition writeString (offset : nat) (str : string) (view : list Z) : outcome (list Z) :=
  forM (String.length str)
    (fun i view => DataView.setUint8 (offset + i) (nth i (char_codes str) 0) view)
    view.

(** [Math.max(-1, Math.min(1, x))] *)
Definition clamp_sample (x : Q) : Q :=
  let m := if Qle_bool 1 x then 1%Q else x in
  if Qle_bool m (-1) then (-1)%Q else m.

(** [sample < 0 ? sample * 0x8000 : sample * 0x7fff] *)
Definition scale_sample (sample : Q) : Q :=
  if Num.ltb sample 0 then (sample * 32768)%Q else (sample * 32767)%Q.

(** The integer [setInt16] receives for one sample. *)
Definition encode_sample (x : Q) : Z := Num.trunc (scale_sample (clamp_sample x)).

(** The sample loops of [audioBufferToWav]; the state is the view and the
    running [offset]. *)
Definition write_frame (channels : list (list Q)) (numChannels : nat) (i : nat)
    (st : list Z * nat) : outcome (list Z * nat) :=
  forM numChannels
    (fun ch '(view, offset) =>
       let intSample := encode_sample (sample_at (nth ch channels []) (Z.of_nat i)) in
       let* view' := DataView.setInt16 offset intSample view in
       Return (view', (offset + 2)%nat))
    st.

Definition audioBufferToWav (buffer : AudioBuffer) : outcome Blob :=
  let numChannels := numberOfChannels buffer in
  let sampleRate := buf_sampleRate buffer in
  let bitsPerSample := 16 in
  let bytesPerSample := bitsPerSample / 8 in
  let blockAlign := Z.of_nat numChannels * bytesPerSample in
  let byteRate := (sampleRate * inject_Z blockAlign)%Q in
  let dataLength := Z.of_nat (buf_length buffer) * blockAlign in
  let headerLength := 44 in
  let totalLength := headerLength + dataLength in
  let view := repeat 0 (Z.to_nat totalLength) in
  let* view := writeString 0 "RIFF" view in
  let* view := DataView.setUint32 4 (totalLength - 8) view in
  let* view := writeString 8 "WAVE" view in
  let* view := writeString 12 "fmt " view in
  let* view := DataView.setUint32 16 16 view in
  let* view := DataView.setUint16 20 1 view in
  let* view := DataView.setUint16 22 (Z.of_nat numChannels) view in
  let* view := DataView.setUint32 24 (Num.trunc sampleRate) view in
  let* view := DataView.setUint32 28 (Num.trunc byteRate) view in
  let* view := DataView.setUint16 32 blockAlign view in
  let* view := DataView.setUint16 34 bitsPerSample view in
  let* view := writeString 36 "data" view in
  let* view := DataView.setUint32 40 dataLength view in
  let* channels := foldM (fun ch acc =>
                            let* data := getChannelData buffer ch in
                            Return (acc ++ [data]))
                         (seq 0 numChannels) [] in
  let* '(view, _) := forM (buf_length buffer) (write_frame channels numChannels)
                       (view, 44%nat) in
  Return {| blob_bytes := view; blob_type := "audio/wav" |}.

(** ** Trimming a recording *)

Record TrimResult : Type := {
  blob : Blob;
  trimmedLeadingMs : Z;
  trimmedTrailingMs : Z
}.

Record LeadingResult : Type := {
  leading_blob : Blob;
  trimmedMs : Z
}.

(** [target[i] = original[speechStart + i]] for [i < trimmedSamples]. *)
Definition copy_channel (original target : list Q) (speechStart : Z) (trimmedSamples : nat)
    : list Q :=
  fold_left
    (fun target i => <[i := sample_at original (speechStart + Z.of_nat i)]> target)
    (seq 0 trimmedSamples) target.

(** [samples[i] = (left[i] + right[i]) / 2] for [i < left.length]. *)
Definition downmix (left right : list Q) : list Q :=
  map (fun i => ((sample_at left (Z.of_nat i) + sample_at right (Z.of_nat i)) / 2)%Q)
      (seq 0 (List.length left)).

Section Trimmer.

(** The browser: [audioBlob.arrayBuffer()], [new AudioContext()] and
    [decodeAudioData] together either deliver a decoded buffer or raise;
    [createBuffer] raises outside what the implementation supports. *)
Variable decodeAudioData : Blob -> option AudioBuffer.
Variable createBuffer_supported : nat -> Z -> Q -> bool.

Definition decode (audioBlob : Blob) : outcome AudioBuffer :=
  match decodeAudioData audioBlob with
  | Some b => Return b
  | None => Throw
  end.

(** [audioContext.createBuffer(numberOfChannels, length, sampleRate)]: a
    zero-filled buffer; no channel or no frame is not supported. *)
Definition createBuffer (channels : nat) (length : Z) (sampleRate : Q)
    : outcome AudioBuffer :=
  if (0 <? channels)%nat && (0 <? length) && createBuffer_supported channels length sampleRate
  then Return {| buf_sampleRate := sampleRate;
                 buf_length := Z.to_nat length;
                 buf_channels := repeat (repeat 0%Q (Z.to_nat length)) channels |}
  else Throw.

(** Mono samples: the only channel, or the mean of the first two. *)
Definition mono_samples (audioBuffer : AudioBuffer) : outcome (list Q) :=
  if (numberOfChannels audioBuffer =? 1)%nat then getChannelData audioBuffer 0
  else
    let* left := getChannelData audioBuffer 0 in
    let* right := getChannelData audioBuffer 1 in
    Return (downmix left right).

Definition passthrough (audioBlob : Blob) : TrimResult :=
  {| blob := audioBlob; trimmedLeadingMs := 0; trimmedTrailingMs := 0 |}.

(** The channel loop that fills [trimmedBuffer]. *)
Definition copy_trimmed (audioBuffer trimmedBuffer : AudioBuffer) (speechStart : Z)
    (trimmedSamples : Z) : outcome AudioBuffer :=
  forM (numberOfChannels audioBuffer)
    (fun ch trimmedBuffer =>
       let* original := getChannelData audioBuffer ch in
       let* target := getChannelData trimmedBuffer ch in
       Return {| buf_sampleRate := buf_sampleRate trimmedBuffer;
                 buf_length := buf_length trimmedBuffer;
                 buf_channels :=
                   <[ch := copy_channel original target speechStart (Z.to_nat trimmedSamples)]>
                     (buf_channels trimmedBuffer) |})
    trimmedBuffer.

(** The body of the [try] block of [trimSilence]. *)
Definition trimSilence_try (audioBlob : Blob) (cfg : Config) : outcome TrimResult :=
  let* audioBuffer := decode audioBlob in
  let* samples := mono_samples audioBuffer in
  let sampleRate := buf_sampleRate audioBuffer in
  let len := Z.of_nat (List.length samples) in
  let* speechStart := of_fuel (findSpeechStart samples sampleRate cfg) in
  let* speechEnd :=
    if cfg_trimTrailing cfg then of_fuel (findSpeechEnd samples sampleRate cfg)
    else Return len in
  let minSamples := Num.floor (sampleRate * cfg_minAudioDuration cfg) in
  let trimmedSamples := speechEnd - speechStart in
  if trimmedSamples <? minSamples then Return (passthrough audioBlob)
  else if (speechStart =? 0) && (speechEnd =? len) then Return (passthrough audioBlob)
  else
    let trimmedLeadingMs := Num.round (inject_Z speechStart / sampleRate * 1000) in
    let trimmedTrailingMs :=
      Z.max 0 (Num.round (inject_Z (len - speechEnd) / sampleRate * 1000)) in
    let* trimmedBuffer :=
      createBuffer (numberOfChannels audioBuffer) trimmedSamples sampleRate in
    let* trimmedBuffer := copy_trimmed audioBuffer trimmedBuffer speechStart trimmedSamples in
    let* wavBlob := audioBufferToWav trimmedBuffer in
    Return {| blob := wavBlob;
              trimmedLeadingMs := trimmedLeadingMs;
              trimmedTrailingMs := trimmedTrailingMs |}.

Definition trimSilence (audioBlob : Blob) (config : TrimConfig) : outcome TrimResult :=
  let cfg := merge_config DEFAULT_CONFIG config in
  try_catch (trimSilence_try audioBlob cfg) (Return (passthrough audioBlob)).

Definition trimLeadingSilence (audioBlob : Blob) (config : TrimConfig)
    : outcome LeadingResult :=
  let* r := trimSilence audioBlob (with_trimTrailing config false) in
  Return {| leading_blob := blob r; trimmedMs := trimmedLeadingMs r |}.

End Trimmer.

(** ** A test bench *)

(** One centred byte per sample. *)
Definition pcm8_samples (bytes : list Z) : list Q :=
  map (fun x => (inject_Z (x - 128) / 128)%Q) bytes.

(** A decoder for examples: a blob whose bytes are 8-bit unsigned mono PCM
    at 100 Hz, one centred byte per sample; an empty blob does not decode. *)
Definition pcm8_decoder (b : Blob) : option AudioBuffer :=
  match blob_bytes b with
  | [] => None
  | bytes =>
      Some {| buf_sampleRate := 100;
              buf_length := List.length bytes;
              buf_channels := [pcm8_samples bytes] |}
  end.

Definition any_buffer (channels : nat) (length : Z) (sampleRate : Q) : bool := true.

Definition silence (n : nat) : list Z := repeat 128 n.
Definition tone (n : nat) : list Z := repeat 255 n.
Definition raw (bytes : list Z) : Blob := {| blob_bytes := bytes; blob_type := "audio/raw" |}.

(** Trailing trim on, capped at one second. *)
Definition capped_config : TrimConfig :=
  {| silenceThreshold := None; endThresholdMultiplier := None; windowSize := None;
     minSilenceDuration := None; trimTrailing := Some true; maxLeadingTrim := None;
     maxTrailingTrim := Some 1%Q; trailingPadding := None; minAudioDuration := None |}.

(** ** Text similarity

    A string is its list of code units; the helpers are modelled on code
    units below 256 (Latin-1), where [toLowerCase] maps one unit to one
    unit. *)

Definition jsstring : Type := list ascii.

(** A string literal. *)
Definition str (s : string) : jsstring := list_ascii_of_string s.

Module Text.

Definition code (c : ascii) : nat := nat_of_ascii c.

(** White space of [trim] and of the class [\s]: TAB, LF, VT, FF, CR,
    space and the no-break space. *)
Definition is_space (c : ascii) : bool :=
  let n := code c in
  ((9 <=? n) && (n <=? 13) || (n =? 32) || (n =? 160))%nat.

(** One unit of [toLowerCase]: A-Z and the accented capitals except the
    multiplication sign. *)
Definition lower_char (c : ascii) : ascii :=
  let n := code c in
  if ((65 <=? n) && (n <=? 90)
      || (192 <=? n) && (n <=? 222) && negb (n =? 215))%nat
  then ascii_of_nat (n + 32) else c.

Definition toLowerCase (s : jsstring) : jsstring := map lower_char s.

Fixpoint trimStart (s : jsstring) : jsstring :=
  match s with
  | [] => []
  | c :: rest => if is_space c then trimStart rest else s
  end.

Definition trimEnd (s : jsstring) : jsstring := rev (trimStart (rev s)).

Definition trim (s : jsstring) : jsstring := trimEnd (trimStart s).

(** The punctuation class of [normalizeForComparison]: full stop, comma,
    exclamation mark, question mark, semicolon, colon, apostrophe and
    double quote. *)
Definition is_punctuation (c : ascii) : bool :=
  let n := code c in
  ((n =? 46) || (n =? 44) || (n =? 33) || (n =? 63) || (n =? 59) || (n =? 58)
   || (n =? 39) || (n =? 34))%nat.

(** Deleting every unit of the punctuation class. *)
Definition strip_punctuation (s : jsstring) : jsstring :=
  List.filter (fun c => negb (is_punctuation c)) s.

(** [s.replace(/\s+/g, ' ')]: every maximal run of white space becomes one
    space; [in_run] tells that the run the scan is in was already
    replaced. *)
Fixpoint collapse_from (in_run : bool) (s : jsstring) : jsstring :=
  match s with
  | [] => []
  | c :: rest =>
      if is_space c then
        if in_run then collapse_from true rest
        else " "%char :: collapse_from true rest
      else c :: collapse_from false rest
  end.

Definition collapse_spaces (s : jsstring) : jsstring := collapse_from false s.

(** [s.startsWith(t)] and [s.includes(t)]. *)
Fixpoint startsWith (s t : jsstring) {struct t} : bool :=
  match t, s with
  | [], _ => true
  | _ :: _, [] => false
  | b :: t', a :: s' => Ascii.eqb a b && startsWith s' t'
  end.

Fixpoint includes (s t : jsstring) : bool :=
  startsWith s t ||
  match s with
  | [] => false
  | _ :: s' => includes s' t
  end.

Definition string_eqb (s t : jsstring) : bool :=
  (List.length s =? List.length t)%nat && startsWith s t.

(** [s.split(' ')] *)
Fixpoint split_spaces (s : jsstring) (word : jsstring) : list jsstring :=
  match s with
  | [] => [rev word]
  | c :: rest =>
      if Ascii.eqb c " "%char then rev word :: split_spaces rest []
      else split_spaces rest (c :: word)
  end.

Definition split (s : jsstring) : list jsstring := split_spaces s [].

(** [words.join(' ')] *)
Fixpoint join (words : list jsstring) : jsstring :=
  match words with
  | [] => []
  | [w] => w
  | w :: rest => w ++ " "%char :: join rest
  end.

(** [xs.slice(-n)] for [0 < n], on arrays and on strings: the last [n]
    elements, all of them when there are fewer. *)
Definition last_n {A : Type} (n : nat) (xs : list A) : list A :=
  skipn (List.length xs - n) xs.

(** [s.slice(-n)]; [s.slice(-0)] is [s.slice(0)], the whole string. *)
Definition slice_neg (n : nat) (s : jsstring) : jsstring :=
  match n with
  | O => s
  | _ => last_n n s
  end.

End Text.

Definition normalizeForComparison (text : jsstring) : jsstring :=
  Text.collapse_spaces (Text.strip_punctuation (Text.trim (Text.toLowerCase text))).

Definition areSimilarTexts (text1 text2 : jsstring) : bool :=
  let norm1 := normalizeForComparison text1 in
  let norm2 := normalizeForComparison text2 in
  if Text.string_eqb norm1 norm2 then true
  else if Text.includes norm1 norm2 || Text.includes norm2 norm1 then
    let shorter := if (List.length norm1 <? List.length norm2)%nat then norm1 else norm2 in
    let longer := if (List.length norm2 <=? List.length norm1)%nat then norm1 else norm2 in
    Num.gtb (inject_Z (Z.of_nat (List.length shorter)) / inject_Z (Z.of_nat (List.length longer)))
            (8 # 10)
  else false.

(** The [for] loop of [getOverlapWithLastSegment], for the candidate prefix
    lengths in [candidates]; [None] when no candidate leaves a remainder. *)
Fixpoint overlap_loop (lastWords : jsstring) (newWords : list jsstring)
    (candidates : list nat) : option jsstring :=
  match candidates with
  | [] => None
  | i :: rest =>
      let prefix := Text.join (firstn i newWords) in
      if Text.includes lastWords prefix
         || Text.includes prefix (Text.slice_neg (List.length prefix) lastWords)
      then
        let trimmed := Text.trim (Text.join (skipn i newWords)) in
        if (0 <? List.length trimmed)%nat then Some trimmed
        else overlap_loop lastWords newWords rest
      else overlap_loop lastWords newWords rest
  end.

(** Returns [(hasOverlap, trimmedText)]. *)
Definition getOverlapWithLastSegment (newText lastSegment : jsstring) : bool * jsstring :=
  match lastSegment, newText with
  | [], _ | _, [] => (false, newText)
  | _, _ =>
      let normNew := normalizeForComparison newText in
      let normLast := normalizeForComparison lastSegment in
      let lastWords := Text.join (Text.last_n 5 (Text.split normLast)) in
      let newWords := Text.split normNew in
      match overlap_loop lastWords newWords
              (seq 1 (Nat.min 5 (List.length newWords - 1))) with
      | Some trimmed => (true, trimmed)
      | None => (false, newText)
      end
  end.

(** A string that does not begin with white space. *)
Definition starts_clean (s : jsstring) : Prop :=
  match s with
  | [] => True
  | c :: _ => Text.is_space c = false
  end.

(** [t] occurs in [s] as a substring. *)
Definition is_substring (t s : jsstring) : Prop :=
  exists before after, s = before ++ t ++ after.

(** ** The segment buffer *)

(** The refs of the recognition hook that finalized results read and write. *)
Record Session : Type := {
  isRecording : bool;
  finalSegments : list jsstring;
  lastFinalText : jsstring;
  latestInterim : jsstring
}.

(** One entry of [event.results]. *)
Record SpeechResult : Type := {
  isFinal : bool;
  transcript : jsstring
}.

(** The state at [startListening], and after a restart cleared the memo. *)
Definition fresh_session : Session :=
  {| isRecording := true; finalSegments := []; lastFinalText := [];
     latestInterim := [] |}.

(** [finalSegmentsRef.current[finalSegmentsRef.current.length - 1] || ''] *)
Definition last_segment (segments : list jsstring) : jsstring := List.last segments [].

(** The branch of [handleResult] for a result with [isFinal]. *)
Definition handleFinal (transcript : jsstring) (s : Session) : Session :=
  let trimmed := Text.trim transcript in
  let s := {| isRecording := isRecording s; finalSegments := finalSegments s;
              lastFinalText := lastFinalText s; latestInterim := [] |} in
  if areSimilarTexts trimmed (lastFinalText s) then s
  else if (0 <? List.length trimmed)%nat then
    let lastSegment := last_segment (finalSegments s) in
    let '(hasOverlap, trimmedText) := getOverlapWithLastSegment trimmed lastSegment in
    let textToAdd := if hasOverlap then trimmedText else trimmed in
    if (0 <? List.length textToAdd)%nat then
      {| isRecording := isRecording s;
         finalSegments := finalSegments s ++ [textToAdd];
         lastFinalText := trimmed;
         latestInterim := latestInterim s |}
    else s
  else s.

(** The branch for an interim result. *)
Definition handleInterim (transcript : jsstring) (s : Session) : Session :=
  {| isRecording := isRecording s; finalSegments := finalSegments s;
     lastFinalText := lastFinalText s; latestInterim := transcript |}.

(** [handleResult]: the results from [resultIndex] on, in order. *)
Definition handleResult (resultIndex : nat) (results : list SpeechResult) (s : Session)
    : Session :=
  if negb (isRecording s) then s
  else
    fold_left
      (fun s r => if isFinal r then handleFinal (transcript r) s
                  else handleInterim (transcript r) s)
      (skipn resultIndex results) s.

(** The assembled transcript, [finalSegmentsRef.current.join(' ')]. *)
Definition fullTranscript (s : Session) : jsstring := Text.join (finalSegments s).

(** ** The WAV header

    The 44 bytes the header writes of [audioBufferToWav] leave at the front
    of the view. *)
Definition wav_header (numChannels : Z) (sampleRate byteRate : Q) (blockAlign dataLength : Z)
    : list Z :=
  let b := DataView.byte_of in
  let riff := 36 + dataLength in
  [82; 73; 70; 70; b riff 0; b riff 1; b riff 2; b riff 3;
   87; 65; 86; 69; 102; 109; 116; 32;
   b 16 0; b 16 1; b 16 2; b 16 3;
   b 1 0; b 1 1;
   b numChannels 0; b numChannels 1;
   b (Num.trunc sampleRate) 0; b (Num.trunc sampleRate) 1;
   b (Num.trunc sampleRate) 2; b (Num.trunc sampleRate) 3;
   b (Num.trunc byteRate) 0; b (Num.trunc byteRate) 1;
   b (Num.trunc byteRate) 2; b (Num.trunc byteRate) 3;
   b blockAlign 0; b blockAlign 1;
   b 16 0; b 16 1;
   100; 97; 116; 97;
   b dataLength 0; b dataLength 1; b dataLength 2; b dataLength 3].

(** ** The WAV data

    The bytes the sample loops of [audioBufferToWav] write: for every
    frame, for every channel, the two bytes of the encoded sample. *)
Definition sample_bytes (value : Z) : list Z :=
  [DataView.byte_of value 0; DataView.byte_of value 1].

Definition frame_bytes (channels : list (list Q)) (numChannels : nat) (i : nat) : list Z :=
  flat_map (fun ch => sample_bytes (encode_sample (sample_at (nth ch channels []) (Z.of_nat i))))
           (seq 0 numChannels).

Definition wav_data (buffer : AudioBuffer) : list Z :=
  flat_map (frame_bytes (buf_channels buffer) (numberOfChannels buffer))
           (seq 0 (buf_length buffer)).

(** ** The trimmed range

    What the copy loops of [trimSilence] leave in [trimmedBuffer]: frame [i]
    of every channel is frame [speechStart + i] of the decoded buffer. *)
Definition trimmed_range (audioBuffer : AudioBuffer) (speechStart : Z) (trimmedSamples : nat)
    : AudioBuffer :=
  {| buf_sampleRate := buf_sampleRate audioBuffer;
     buf_length := trimmedSamples;
     buf_channels :=
       map (fun original =>
              map (fun i => sample_at original (speechStart + Z.of_nat i))
                  (seq 0 trimmedSamples))
           (buf_channels audioBuffer) |}.

(** ** Durations in samples

    The sample counts the scans derive from the configuration. *)

Definition window_samples (sampleRate : Q) (config : Config) : Z :=
  Num.floor (sampleRate * cfg_windowSize config).

Definition max_leading_samples (sampleRate : Q) (config : Config) : Z :=
  Num.floor (sampleRate * cfg_maxLeadingTrim config).

Definition min_silence_samples (sampleRate : Q) (config : Config) : Z :=
  Num.floor (sampleRate * cfg_minSilenceDuration config).

Definition max_trailing_samples (sampleRate : Q) (config : Config) : Z :=
  Num.floor (sampleRate * cfg_maxTrailingTrim config).

Definition trailing_padding_samples (sampleRate : Q) (config : Config) : Z :=
  Num.floor (sampleRate * cfg_trailingPadding config).

Definition min_audio_samples (sampleRate : Q) (config : Config) : Z :=
  Num.floor (sampleRate * cfg_minAudioDuration config).

(** [endThreshold] of [findSpeechEnd]. *)
Definition end_threshold (config : Config) : Q :=
  (cfg_silenceThreshold config * cfg_endThresholdMultiplier config)%Q.

(** ** Results of a trim *)

(** [speechEnd] of [trimSilence]: the scan when trailing trim is on, the
    full length otherwise. *)
Definition speech_end_of (samples : list Q) (sampleRate : Q) (cfg : Config) : option Z :=
  if cfg_trimTrailing cfg then findSpeechEnd samples sampleRate cfg
  else Some (Z.of_nat (List.length samples)).

(** [r] is the re-encoded range [speechStart, speechEnd) of [audioBuffer],
    whose mono samples are [samples]. *)
Record reencoded (audioBuffer : AudioBuffer) (samples : list Q) (cfg : Config)
    (speechStart speechEnd : Z) (r : TrimResult) : Prop := {
  re_start : findSpeechStart samples (buf_sampleRate audioBuffer) cfg = Some speechStart;
  re_end : speech_end_of samples (buf_sampleRate audioBuffer) cfg = Some speechEnd;
  re_minimum : min_audio_samples (buf_sampleRate audioBuffer) cfg <= speechEnd - speechStart;
  re_frames : 0 < speechEnd - speechStart;
  re_trimmed : speechStart <> 0 \/ speechEnd <> Z.of_nat (List.length samples);
  re_wav :
    audioBufferToWav (trimmed_range audioBuffer speechStart (Z.to_nat (speechEnd - speechStart)))
    = Return (blob r);
  re_leading :
    trimmedLeadingMs r =
    Num.round (inject_Z speechStart / buf_sampleRate audioBuffer * 1000);
  re_trailing :
    trimmedTrailingMs r =
    Z.max 0 (Num.round (inject_Z (Z.of_nat (List.length samples) - speechEnd)
                        / buf_sampleRate audioBuffer * 1000))
}.

(** ** Windows of the two scans *)

(** Window [k] of the forward scan starts at sample [k * windowSamples]; it
    meets the threshold when its RMS is at least [threshold]. *)
Definition start_window_meets (samples : list Q) (windowSamples : Z) (threshold : Q)
    (k : nat) : bool :=
  Num.root_geb (computeRMS samples (Z.of_nat k * windowSamples) windowSamples) threshold.

(** Window [j] of the backward scan, counted from the end of the buffer. *)
Definition end_window_start (samples : list Q) (windowSamples : Z) (j : nat) : Z :=
  Z.of_nat (List.length samples) - (Z.of_nat j + 1) * windowSamples.

Definition end_window_rms (samples : list Q) (windowSamples : Z) (j : nat) : Num.root :=
  computeRMS samples (end_window_start samples windowSamples j) windowSamples.

(** [previousRMS] when the backward scan reaches window [j]: the RMS of the
    window scanned just before, 0 at the first one. *)
Definition end_window_previous (samples : list Q) (windowSamples : Z) (j : nat) : Num.root :=
  match j with
  | O => Num.root_zero
  | S j' => end_window_rms samples windowSamples j'
  end.

(** The test of the backward scan that ends the silence run at window [j]. *)
Definition end_window_speech (samples : list Q) (windowSamples : Z) (endThreshold : Q)
    (j : nat) : bool :=
  Num.root_geb (end_window_rms samples windowSamples j) endThreshold
  || isDecrescendo (end_window_previous samples windowSamples j)
       (end_window_rms samples windowSamples j) endThreshold.

(** ** Further test inputs *)

(** A window of 5 ms at 100 Hz is no sample. *)
Definition tiny_window_config : TrimConfig :=
  {| silenceThreshold := None; endThresholdMultiplier := None; windowSize := Some (5 # 1000)%Q;
     minSilenceDuration := None; trimTrailing := None; maxLeadingTrim := None;
     maxTrailingTrim := None; trailingPadding := None; minAudioDuration := None |}.

(** ** Normalized text *)

(** A unit of a normalized text: no punctuation, no capital, and no white
    space other than the space. *)
Definition normal_char (c : ascii) : Prop :=
  Text.is_punctuation c = false /\ Text.lower_char c = c /\
  (Text.is_space c = true -> c = " "%char).

(** ** The recognition hook

    The refs of [useBrowserAdaptiveSpeechRecognition] that decide restarts,
    failures and flushes, with the [error] state.  The recognition object is
    the environment: what the hook asks of it ([stop], [start], [abort]) and
    the timers it sets are logged in [calls]; whether a call raises, and the
    reading of [Date.now()], come with each event.  The word entries and the
    transcript state that [handleResult] updates are modelled apart, below;
    the duration state, the pause tracker, the silence timeout (which only
    logs) and the pending-flush timer (which is only ever cleared) are left
    out. *)

Definition CHROME_MAX_SESSION_MS : Z := 35000.
Definition EDGE_MAX_SESSION_MS : Z := 45000.
Definition RESTART_DELAY_MS : Z := 200.
Definition MAX_SILENCE_BEFORE_RESTART_MS : Z := 12000.
Definition MAX_CONSECUTIVE_FAILURES : Z := 10.
Definition MAX_TRANSIENT_RETRIES : Z := 3.

(** [browser], [isSupported], and whether the page has a [SpeechRecognition]
    constructor. *)
Record Env : Type := {
  isEdge : bool;
  isChrome : bool;
  isSupported : bool;
  hasRecognitionAPI : bool
}.

(** A call on the recognition object that returned, or a timer set. *)
Inductive Call : Type :=
| CallStop
| CallStart
| CallAbort
| TimerRestart (delay : Z)
| TimerGrace (delay : Z).

Record Hook : Type := {
  session : Session;
  isManualStop : bool;
  isRestarting : bool;
  recognition : bool;
  sessionStart : Z;
  lastResultAt : Z;
  consecutiveFailures : Z;
  transientRetryCount : Z;
  error : option jsstring;
  calls : list Call
}.

(** The hook as [useRef] and [useState] create it. *)
Definition initial_hook : Hook :=
  {| session := {| isRecording := false; finalSegments := []; lastFinalText := [];
                   latestInterim := [] |};
     isManualStop := false; isRestarting := false; recognition := false;
     sessionStart := 0; lastResultAt := 0; consecutiveFailures := 0;
     transientRetryCount := 0; error := None; calls := [] |}.

(** Assignments to one ref. *)
Definition set_isRecording (b : bool) (s : Session) : Session :=
  {| isRecording := b; finalSegments := finalSegments s;
     lastFinalText := lastFinalText s; latestInterim := latestInterim s |}.

Definition set_finalSegments (segments : list jsstring) (s : Session) : Session :=
  {| isRecording := isRecording s; finalSegments := segments;
     lastFinalText := lastFinalText s; latestInterim := latestInterim s |}.

Definition set_lastFinalText (text : jsstring) (s : Session) : Session :=
  {| isRecording := isRecording s; finalSegments := finalSegments s;
     lastFinalText := text; latestInterim := latestInterim s |}.

Definition set_latestInterim (text : jsstring) (s : Session) : Session :=
  {| isRecording := isRecording s; finalSegments := finalSegments s;
     lastFinalText := lastFinalText s; latestInterim := text |}.

Definition set_session (s : Session) (h : Hook) : Hook :=
  {| session := s; isManualStop := isManualStop h; isRestarting := isRestarting h;
     recognition := recognition h; sessionStart := sessionStart h;
     lastResultAt := lastResultAt h; consecutiveFailures := consecutiveFailures h;
     transientRetryCount := transientRetryCount h; error := error h; calls := calls h |}.

Definition set_isManualStop (b : bool) (h : Hook) : Hook :=
  {| session := session h; isManualStop := b; isRestarting := isRestarting h;
     recognition := recognition h; sessionStart := sessionStart h;
     lastResultAt := lastResultAt h; consecutiveFailures := consecutiveFailures h;
     transientRetryCount := transientRetryCount h; error := error h; calls := calls h |}.

Definition set_isRestarting (b : bool) (h : Hook) : Hook :=
  {| session := session h; isManualStop := isManualStop h; isRestarting := b;
     recognition := recognition h; sessionStart := sessionStart h;
     lastResultAt := lastResultAt h; consecutiveFailures := consecutiveFailures h;
     transientRetryCount := transientRetryCount h; error := error h; calls := calls h |}.

Definition set_recognition (b : bool) (h : Hook) : Hook :=
  {| session := session h; isManualStop := isManualStop h; isRestarting := isRestarting h;
     recognition := b; sessionStart := sessionStart h;
     lastResultAt := lastResultAt h; consecutiveFailures := consecutiveFailures h;
     transientRetryCount := transientRetryCount h; error := error h; calls := calls h |}.

Definition set_sessionStart (now : Z) (h : Hook) : Hook :=
  {| session := session h; isManualStop := isManualStop h; isRestarting := isRestarting h;
     recognition := recognition h; sessionStart := now;
     lastResultAt := lastResultAt h; consecutiveFailures := consecutiveFailures h;
     transientRetryCount := transientRetryCount h; error := error h; calls := calls h |}.

Definition set_lastResultAt (now : Z) (h : Hook) : Hook :=
  {| session := session h; isManualStop := isManualStop h; isRestarting := isRestarting h;
     recognition := recognition h; sessionStart := sessionStart h;
     lastResultAt := now; consecutiveFailures := consecutiveFailures h;
     transientRetryCount := transientRetryCount h; error := error h; calls := calls h |}.

Definition set_consecutiveFailures (n : Z) (h : Hook) : Hook :=
  {| session := session h; isManualStop := isManualStop h; isRestarting := isRestarting h;
     recognition := recognition h; sessionStart := sessionStart h;
     lastResultAt := lastResultAt h; consecutiveFailures := n;
     transientRetryCount := transientRetryCount h; error := error h; calls := calls h |}.

Definition set_transientRetryCount (n : Z) (h : Hook) : Hook :=
  {| session := session h; isManualStop := isManualStop h; isRestarting := isRestarting h;
     recognition := recognition h; sessionStart := sessionStart h;
     lastResultAt := lastResultAt h; consecutiveFailures := consecutiveFailures h;
     transientRetryCount := n; error := error h; calls := calls h |}.

(** [setError(new Error(message))] *)
Definition setError (message : jsstring) (h : Hook) : Hook :=
  {| session := session h; isManualStop := isManualStop h; isRestarting := isRestarting h;
     recognition := recognition h; sessionStart := sessionStart h;
     lastResultAt := lastResultAt h; consecutiveFailures := consecutiveFailures h;
     transientRetryCount := transientRetryCount h; error := Some message; calls := calls h |}.

Definition emit (c : Call) (h : Hook) : Hook :=
  {| session := session h; isManualStop := isManualStop h; isRestarting := isRestarting h;
     recognition := recognition h; sessionStart := sessionStart h;
     lastResultAt := lastResultAt h; consecutiveFailures := consecutiveFailures h;
     transientRetryCount := transientRetryCount h; error := error h;
     calls := calls h ++ [c] |}.

(** [array.includes(x)] on an array of strings. *)
Definition array_includes (array : list jsstring) (x : jsstring) : bool :=
  existsb (fun y => Text.string_eqb y x) array.

Definition shouldRestartOnError (env : Env) (errorType : jsstring) : bool :=
  let restartableErrors := [str "network"; str "audio-capture"; str "service-not-allowed"] in
  let ignoredErrors := [str "no-speech"; str "aborted"] in
  if array_includes ignoredErrors errorType then false
  else if array_includes restartableErrors errorType then true
  else if isEdge env && Text.string_eqb errorType (str "network") then true
  else false.

(** [browser.isEdge ? 300 : RESTART_DELAY_MS] *)
Definition restart_delay (env : Env) : Z := if isEdge env then 300 else RESTART_DELAY_MS.

(** The callback of the restart timer, which [safeRestart] and both
    branches of [handleEnd] set with the same body. *)
Definition restart_callback (now : Z) (start_throws : bool) (h : Hook) : Hook :=
  if negb (isRecording (session h)) || isManualStop h then set_isRestarting false h
  else
    let h := set_isRestarting false h in
    let h := set_sessionStart now h in
    let h := set_session (set_lastFinalText [] (session h)) h in
    if recognition h then
      if start_throws then set_consecutiveFailures (consecutiveFailures h + 1) h
      else set_transientRetryCount 0 (emit CallStart h)
    else h.

Definition safeRestart (env : Env) (stop_throws : bool) (h : Hook) : Hook :=
  if negb (isRecording (session h)) || isManualStop h then h
  else if isRestarting h then h
  else
    let h := set_isRestarting true h in
    if recognition h then
      if stop_throws then emit (TimerRestart (restart_delay env)) h
      else emit CallStop h
    else h.

(** [recognition.onresult], that is [handleResult] with the refs around
    the segment buffer. *)
Definition onresult (now : Z) (resultIndex : nat) (results : list SpeechResult) (h : Hook)
    : Hook :=
  if negb (isRecording (session h)) then h
  else
    let h := set_lastResultAt now h in
    let h := set_consecutiveFailures 0 h in
    let h := set_transientRetryCount 0 h in
    set_session (handleResult resultIndex results (session h)) h.

Definition handleError (env : Env) (errorType : jsstring) (stop_throws : bool) (h : Hook)
    : Hook :=
  if Text.string_eqb errorType (str "no-speech") || Text.string_eqb errorType (str "aborted")
  then h
  else
    let retry :=
      isRecording (session h) && negb (isManualStop h) && shouldRestartOnError env errorType in
    let h := if retry then set_transientRetryCount (transientRetryCount h + 1) h else h in
    if retry && (transientRetryCount h <=? MAX_TRANSIENT_RETRIES)
    then safeRestart env stop_throws h
    else
      let h := set_consecutiveFailures (consecutiveFailures h + 1) h in
      if consecutiveFailures h >=? MAX_CONSECUTIVE_FAILURES
      then setError (str "Speech recognition error: " ++ errorType) h
      else h.

(** The text a pending interim is flushed as. *)
Definition text_to_flush (interim : jsstring) (s : Session) : jsstring :=
  let lastSegment := last_segment (finalSegments s) in
  let '(hasOverlap, trimmedText) := getOverlapWithLastSegment interim lastSegment in
  if hasOverlap then trimmedText else interim.

(** [flushInterimIfAny] of [handleEnd]. *)
Definition flushInterimIfAny (s : Session) : Session :=
  let interim := Text.trim (latestInterim s) in
  if (List.length interim =? 0)%nat then s
  else if areSimilarTexts interim (lastFinalText s) then set_latestInterim [] s
  else
    let textToFlush := text_to_flush interim s in
    let s :=
      if (0 <? List.length textToFlush)%nat
      then set_finalSegments (finalSegments s ++ [textToFlush]) s
      else s in
    set_latestInterim [] s.

Definition handleEnd (env : Env) (h : Hook) : Hook :=
  let h := set_session (flushInterimIfAny (session h)) h in
  if negb (isRecording (session h)) || isManualStop h then h
  else if isRestarting h then emit (TimerRestart (restart_delay env)) h
  else emit (TimerRestart (restart_delay env)) (set_isRestarting true h).

(** One tick of the watchdog interval, which runs while [isListening]. *)
Definition watchdog (env : Env) (now : Z) (stop_throws : bool) (h : Hook) : Hook :=
  let maxSessionMs := if isChrome env then CHROME_MAX_SESSION_MS else EDGE_MAX_SESSION_MS in
  if negb (isRecording (session h)) || isManualStop h then h
  else
    let elapsed := now - sessionStart h in
    let sinceLastResult :=
      now - (if lastResultAt h =? 0 then sessionStart h else lastResultAt h) in
    if elapsed >? maxSessionMs then safeRestart env stop_throws h
    else if (sinceLastResult >? MAX_SILENCE_BEFORE_RESTART_MS) && (elapsed >? 5000)
    then safeRestart env stop_throws h
    else h.

(** [startListening]; [start_error] is the message of what
    [recognition.start()] raised, if it did. *)
Definition startListening (env : Env) (now : Z) (start_error : option jsstring) (h : Hook)
    : Hook :=
  if negb (isSupported env) then setError (str "Speech recognition not supported") h
  else if negb (hasRecognitionAPI env)
  then setError (str "Failed to create speech recognition") h
  else
    let h := set_recognition true h in
    let h := set_isManualStop false h in
    let h := set_session (set_isRecording true (session h)) h in
    let h := set_isRestarting false h in
    let h := set_consecutiveFailures 0 h in
    let h := set_transientRetryCount 0 h in
    let h := set_session (set_finalSegments [] (session h)) h in
    let h := set_session (set_lastFinalText [] (session h)) h in
    let h := set_sessionStart now h in
    let h := set_lastResultAt now h in
    match start_error with
    | None => emit CallStart h
    | Some message => setError message h
    end.

Definition stopListening (stop_throws : bool) (h : Hook) : Hook :=
  let h := set_isManualStop true h in
  let h := if recognition h && negb stop_throws then emit CallStop h else h in
  emit (TimerGrace 150) h.

(** The callback of the grace timer of [stopListening]. *)
Definition stop_callback (h : Hook) : Hook :=
  let s := set_isRecording false (session h) in
  let interim := Text.trim (latestInterim s) in
  let s :=
    if negb (List.length interim =? 0)%nat && negb (areSimilarTexts interim (lastFinalText s))
    then
      let textToFlush := text_to_flush interim s in
      if (0 <? List.length textToFlush)%nat
      then set_finalSegments (finalSegments s ++ [textToFlush]) s
      else s
    else s in
  set_session (set_latestInterim [] s) h.

Definition abort (abort_throws : bool) (h : Hook) : Hook :=
  let h := set_isManualStop true h in
  let h := set_session (set_isRecording false (session h)) h in
  if recognition h then
    let h := if abort_throws then h else emit CallAbort h in
    set_recognition false h
  else h.

Definition clearTranscript (h : Hook) : Hook :=
  let h := set_session (set_finalSegments [] (session h)) h in
  set_session (set_lastFinalText [] (session h)) h.

(** What reaches the hook: the events of the recognition object, the
    timers, and the calls of the component that uses the hook. *)
Inductive Event : Type :=
| EvResult (now : Z) (resultIndex : nat) (results : list SpeechResult)
| EvError (errorType : jsstring) (stop_throws : bool)
| EvEnd
| EvRestartTimer (now : Z) (start_throws : bool)
| EvWatchdog (now : Z) (stop_throws : bool)
| EvStartListening (now : Z) (start_error : option jsstring)
| EvStopListening (stop_throws : bool)
| EvGraceTimer
| EvAbort (abort_throws : bool)
| EvClearTranscript.

Definition step (env : Env) (h : Hook) (e : Event) : Hook :=
  match e with
  | EvResult now resultIndex results => onresult now resultIndex results h
  | EvError errorType stop_throws => handleError env errorType stop_throws h
  | EvEnd => handleEnd env h
  | EvRestartTimer now start_throws => restart_callback now start_throws h
  | EvWatchdog now stop_throws => watchdog env now stop_throws h
  | EvStartListening now start_error => startListening env now start_error h
  | EvStopListening stop_throws => stopListening stop_throws h
  | EvGraceTimer => stop_callback h
  | EvAbort abort_throws => abort abort_throws h
  | EvClearTranscript => clearTranscript h
  end.

(** The hook after a sequence of events, in any order the environment may
    deliver them. *)
Definition run (env : Env) (events : list Event) (h : Hook) : Hook :=
  fold_left (step env) events h.

(** Events that empty the segment buffer. *)
Definition resets_transcript (e : Event) : bool :=
  match e with
  | EvStartListening _ _ | EvClearTranscript => true
  | _ => false
  end.

Definition is_start (e : Event) : bool :=
  match e with
  | EvStartListening _ _ => true
  | _ => false
  end.

(** A stored segment: not empty, and without white space at either end. *)
Definition clean_segment (text : jsstring) : Prop :=
  text <> [] /\ Text.trim text = text.

(** The error kinds [handleError] drops at once. *)
Definition ignored_error (errorType : jsstring) : bool :=
  Text.string_eqb errorType (str "no-speech") || Text.string_eqb errorType (str "aborted").

(** An error event for each pair of an error kind and of whether [stop()]
    raises. *)
Definition error_events (errors : list (jsstring * bool)) : list Event :=
  map (fun error => EvError (fst error) (snd error)) errors.

(** How many of [errors] are retried kinds, and how many are neither
    retried nor ignored. *)
Definition count_restartable (env : Env) (errors : list (jsstring * bool)) : Z :=
  Z.of_nat (List.length (List.filter (fun error => shouldRestartOnError env (fst error)) errors)).

Definition count_other (env : Env) (errors : list (jsstring * bool)) : Z :=
  Z.of_nat (List.length
    (List.filter (fun error => negb (ignored_error (fst error))
                               && negb (shouldRestartOnError env (fst error))) errors)).

(** The calls that start recognition again, now or after a delay. *)
Definition restarts (c : Call) : bool :=
  match c with
  | CallStart | TimerRestart _ => true
  | _ => false
  end.

(** Nothing is pending: no interim text that a flush would look at. *)
Definition nothing_pending (s : Session) : Prop := Text.trim (latestInterim s) = [].

(** [maxSessionMs] of the watchdog. *)
Definition max_session_ms (env : Env) : Z :=
  if isChrome env then CHROME_MAX_SESSION_MS else EDGE_MAX_SESSION_MS.

(** What holds of every state the hook can reach. *)
Definition reachable_inv (h : Hook) : Prop :=
  (isRecording (session h) = true -> recognition h = true) /\
  0 <= consecutiveFailures h /\ 0 <= transientRetryCount h.

(** ** Word entries

    What [handleResult] hands to the transcript state besides the segment
    buffer: a word entry for every word of a stored segment, and the interim
    text to show.  [clock k] is the reading of [Date.now()] when word [k] of
    the event is created. *)

Record Word : Type := {
  word_text : jsstring;
  word_timestamp : Z;
  wordId : Z;
  isGhost : bool;
  isFiller : bool
}.

(** [s.split(/\s+/)]: the pieces between the maximal runs of white space;
    [in_run] tells that the scan is inside such a run. *)
Fixpoint split_white (in_run : bool) (s word : jsstring) : list jsstring :=
  match s with
  | [] => [rev word]
  | c :: rest =>
      if Text.is_space c then
        if in_run then split_white true rest word
        else rev word :: split_white true rest []
      else split_white false rest (c :: word)
  end.

(** [textToAdd.split(/\s+/).filter((w) => w.length > 0)] *)
Definition finalWords (textToAdd : jsstring) : list jsstring :=
  List.filter (fun w => (0 <? List.length w)%nat) (split_white false textToAdd []).

(** The locals and refs of one call of [handleResult]. *)
Record ResultRun : Type := {
  run_session : Session;
  run_wordIdCounter : Z;
  run_newWords : list Word;
  run_newInterimText : jsstring
}.

(** [finalWords.forEach((text) => newWords.push({ ... }))] *)
Definition push_words (clock : nat -> Z) (texts : list jsstring) (r : ResultRun) : ResultRun :=
  fold_left
    (fun r text =>
       {| run_session := run_session r;
          run_wordIdCounter := run_wordIdCounter r + 1;
          run_newWords :=
            run_newWords r ++
            [{| word_text := text;
                word_timestamp := clock (List.length (run_newWords r));
                wordId := run_wordIdCounter r;
                isGhost := false;
                isFiller := false |}];
          run_newInterimText := run_newInterimText r |})
    texts r.

(** One pass of the loop of [handleResult]. *)
Definition result_pass (clock : nat -> Z) (r : ResultRun) (result : SpeechResult) : ResultRun :=
  let s := run_session r in
  if isFinal result then
    let trimmed := Text.trim (transcript result) in
    let s := set_latestInterim [] s in
    let r := {| run_session := s; run_wordIdCounter := run_wordIdCounter r;
                run_newWords := run_newWords r;
                run_newInterimText := run_newInterimText r |} in
    if areSimilarTexts trimmed (lastFinalText s) then r
    else if (0 <? List.length trimmed)%nat then
      let lastSegment := last_segment (finalSegments s) in
      let '(hasOverlap, trimmedText) := getOverlapWithLastSegment trimmed lastSegment in
      let textToAdd := if hasOverlap then trimmedText else trimmed in
      if (0 <? List.length textToAdd)%nat then
        let s := set_lastFinalText trimmed s in
        let s := set_finalSegments (finalSegments s ++ [textToAdd]) s in
        push_words clock (finalWords textToAdd)
          {| run_session := s; run_wordIdCounter := run_wordIdCounter r;
             run_newWords := run_newWords r;
             run_newInterimText := run_newInterimText r |}
      else r
    else r
  else
    {| run_session := set_latestInterim (transcript result) s;
       run_wordIdCounter := run_wordIdCounter r;
       run_newWords := run_newWords r;
       run_newInterimText := transcript result |}.

(** [handleResult] with its word entries; [None] when it returns at once
    because the hook is not recording. *)
Definition handleResult_words (clock : nat -> Z) (resultIndex : nat)
    (results : list SpeechResult) (s : Session) (wordIdCounter : Z) : option ResultRun :=
  if negb (isRecording s) then None
  else
    Some (fold_left (result_pass clock) (skipn resultIndex results)
            {| run_session := s; run_wordIdCounter := wordIdCounter;
               run_newWords := []; run_newInterimText := [] |}).

(** The transcript state of the hook. *)
Record Transcripts : Type := {
  finalTranscript : jsstring;
  rawTranscript : jsstring;
  interimTranscript : jsstring;
  words : list Word
}.

(** The state updates at the end of [handleResult]. *)
Definition show_result (r : ResultRun) (t : Transcripts) : Transcripts :=
  let t :=
    if (0 <? List.length (run_newWords r))%nat then
      let fullTranscript := Text.join (finalSegments (run_session r)) in
      {| finalTranscript := fullTranscript; rawTranscript := fullTranscript;
         interimTranscript := interimTranscript t;
         words := words t ++ run_newWords r |}
    else t in
  {| finalTranscript := finalTranscript t; rawTranscript := rawTranscript t;
     interimTranscript := run_newInterimText r; words := words t |}.

(** A word entry as [handleResult] makes it. *)
Definition plain_word (w : Word) : Prop :=
  word_text w <> [] /\ Forall (fun c => Text.is_space c = false) (word_text w) /\
  isGhost w = false /\ isFiller w = false.

(** The counter and the ids of the words of one event, from the counter
    [c] at its start. *)
Definition numbered (c : Z) (r : ResultRun) : Prop :=
  map wordId (run_newWords r)
    = map (fun k => c + Z.of_nat k) (seq 0 (List.length (run_newWords r))) /\
  run_wordIdCounter r = c + Z.of_nat (List.length (run_newWords r)) /\
  Forall plain_word (run_newWords r).

(** * Properties *)

(** ** Rational helpers *)

Lemma floor_le (x : Q) : (inject_Z (Num.floor x) <= x)%Q.
Proof. apply Qfloor_le. Qed.

Lemma floor_ge_int (x : Q) (n : Z) : (inject_Z n <= x)%Q -> n <= Num.floor x.
Proof.
  intros H. unfold Num.floor.
  rewrite <- (Qfloor_Z n). now apply Qfloor_resp_le.
Qed.

Lemma gtb_true (a b : Q) : Num.gtb a b = true <-> (b < a)%Q.
Proof.
  unfold Num.gtb. rewrite negb_true_iff.
  split.
  - intros H. apply Qnot_le_lt. intros Hle. apply Qle_bool_iff in Hle. congruence.
  - intros H. destruct (Qle_bool a b) eqn:E; [|reflexivity].
    apply Qle_bool_iff in E. exfalso. exact (Qlt_not_le _ _ H E).
Qed.

Lemma ltb_true (a b : Q) : Num.ltb a b = true <-> (a < b)%Q.
Proof. apply (gtb_true b a). Qed.

Lemma Qsquare_nonneg (x : Q) : (0 <= x * x)%Q.
Proof.
  destruct x as [n d]. unfold Qle, Qmult. simpl. nia.
Qed.

(** ** Square roots

    The comparisons on [root] are the comparisons of real numbers. *)

Lemma Qle_bool_Rle (a b : Q) : Qle_bool a b = true <-> (Q2R a <= Q2R b)%R.
Proof.
  rewrite Qle_bool_iff. split; [apply Qle_Rle|apply Rle_Qle].
Qed.

Lemma Q2R_zero : Q2R 0 = 0%R.
Proof. unfold Q2R. simpl. Lra.lra. Qed.

Lemma root_geb_sound (r : Num.root) (t : Q) :
  (0 <= Num.radicand r)%Q ->
  Num.root_geb r t = true <-> (Q2R t <= root_value r)%R.
Proof.
  intros Hr. apply Qle_Rle in Hr. rewrite Q2R_zero in Hr.
  unfold Num.root_geb, root_value.
  rewrite orb_true_iff, !Qle_bool_Rle, Q2R_mult, Q2R_zero.
  pose proof (sqrt_pos (Q2R (Num.radicand r))) as Hpos.
  pose proof (sqrt_sqrt _ Hr) as Hsq.
  split.
  - intros [H|H]; [Lra.lra|].
    destruct (Rle_dec (Q2R t) 0); [Lra.lra|].
    apply Rsqr_incr_0_var; [|exact Hpos]. unfold Rsqr. Lra.lra.
  - intros H. destruct (Rle_dec (Q2R t) 0); [left; Lra.lra|right].
    rewrite <- Hsq. apply Rmult_le_compat; Lra.lra.
Qed.

Lemma root_gtb_sound (r : Num.root) (t : Q) :
  (0 <= Num.radicand r)%Q ->
  Num.root_gtb r t = true <-> (Q2R t < root_value r)%R.
Proof.
  intros Hr. apply Qle_Rle in Hr. rewrite Q2R_zero in Hr.
  unfold Num.root_gtb, Num.ltb, Num.gtb, root_value.
  rewrite orb_true_iff, !negb_true_iff.
  rewrite <- !not_true_iff_false, !Qle_bool_Rle, Q2R_mult, Q2R_zero.
  pose proof (sqrt_pos (Q2R (Num.radicand r))) as Hpos.
  pose proof (sqrt_sqrt _ Hr) as Hsq.
  split.
  - intros [H|H]; [Lra.lra|].
    destruct (Rlt_dec (Q2R t) 0); [Lra.lra|].
    apply Rsqr_incrst_0; [unfold Rsqr; Lra.lra|Lra.lra|exact Hpos].
  - intros H. destruct (Rlt_dec (Q2R t) 0); [left; Lra.lra|right].
    rewrite <- Hsq. intros Hle.
    assert (Q2R t * Q2R t < sqrt (Q2R (Num.radicand r)) * sqrt (Q2R (Num.radicand r)))%R
      by (apply Rmult_le_0_lt_compat; Lra.lra).
    Lra.lra.
Qed.

Lemma root_ltb_sound (r s : Num.root) :
  (0 <= Num.radicand r)%Q -> (0 <= Num.radicand s)%Q ->
  Num.root_ltb r s = true <-> (root_value r < root_value s)%R.
Proof.
  intros Hr Hs. apply Qle_Rle in Hr, Hs. rewrite Q2R_zero in Hr, Hs.
  unfold Num.root_ltb, Num.ltb, root_value.
  rewrite negb_true_iff, <- not_true_iff_false, Qle_bool_Rle.
  split.
  - intros H. apply sqrt_lt_1; Lra.lra.
  - intros H Hle. apply sqrt_le_1 in Hle; Lra.lra.
Qed.

Lemma root_scale_sound (r : Num.root) (c : Q) :
  (0 <= Num.radicand r)%Q -> (0 <= c)%Q ->
  root_value (Num.root_scale r c) = (root_value r * Q2R c)%R.
Proof.
  intros Hr Hc. apply Qle_Rle in Hr, Hc. rewrite Q2R_zero in Hr, Hc.
  unfold root_value, Num.root_scale. simpl.
  rewrite !Q2R_mult, sqrt_mult by Lra.nra.
  rewrite sqrt_square by Lra.lra. reflexivity.
Qed.

(** ** Window energy is a square root of a non-negative number *)

Lemma sum_squares_nonneg samples count : forall i acc,
  (0 <= acc)%Q -> (0 <= sum_squares samples i count acc)%Q.
Proof.
  induction count as [|count IH]; intros i acc Hacc; simpl; [exact Hacc|].
  apply IH.
  rewrite <- (Qplus_0_r 0). apply Qplus_le_compat; [exact Hacc|].
  apply Qsquare_nonneg.
Qed.

Lemma computeRMS_nonneg samples start length :
  (0 <= Num.radicand (computeRMS samples start length))%Q.
Proof.
  unfold computeRMS.
  destruct (Z.leb_spec (Z.min (start + length) (Z.of_nat (List.length samples)) - start) 0)
    as [Hle|Hgt]; simpl.
  - apply Qle_refl.
  - apply Qle_shift_div_l.
    + change 0%Q with (inject_Z 0). rewrite <- Zlt_Qlt. exact Hgt.
    + rewrite Qmult_0_l. apply sum_squares_nonneg. apply Qle_refl.
Qed.

(** A window that starts at or past the end, or has no positive length, has
    energy zero. *)
Lemma computeRMS_empty samples start length :
  length <= 0 \/ Z.of_nat (List.length samples) <= start ->
  computeRMS samples start length = Num.root_zero.
Proof.
  intros H. unfold computeRMS.
  destruct (Z.leb_spec (Z.min (start + length) (Z.of_nat (List.length samples)) - start) 0)
    as [Hle|Hgt]; [reflexivity|lia].
Qed.

(** ** The leading scan *)

Section LeadingScan.

Variable samples : list Q.
Variables windowSamples maxTrimSamples minSilenceSamples : Z.
Variable threshold : Q.

Local Abbreviation len := (Z.of_nat (List.length samples)).
Local Abbreviation loop fuel :=
  (findSpeechStart_loop fuel samples windowSamples maxTrimSamples minSilenceSamples threshold).
Local Abbreviation start_window_meets := (start_window_meets samples windowSamples threshold).

(** More fuel does not change a result. *)
Lemma start_loop_fuel_mono fuel : forall fuel' i s r,
  (fuel <= fuel')%nat -> loop fuel i s = Some r -> loop fuel' i s = Some r.
Proof.
  induction fuel as [|fuel IH]; intros fuel' i s r Hle Hrun; [discriminate|].
  destruct fuel' as [|fuel']; [lia|].
  simpl in *.
  destruct ((i <? Z.of_nat (List.length samples)) && (i <? maxTrimSamples)); [|exact Hrun].
  destruct (Num.root_geb _ _); [exact Hrun|].
  apply IH; [lia|exact Hrun].
Qed.

(** With a positive window the scan ends within one pass per sample. *)
Lemma start_loop_terminates : 0 < windowSamples ->
  forall fuel i s, len - i <= Z.of_nat fuel * windowSamples ->
  exists r, loop (S fuel) i s = Some r.
Proof.
  intros Hw.
  induction fuel as [|fuel IH]; intros i s Hfuel; simpl.
  - destruct (Z.ltb_spec i (Z.of_nat (List.length samples))) as [Hlt|Hge]; [lia|].
    simpl. destruct (s >=? minSilenceSamples); eauto.
  - destruct ((i <? Z.of_nat (List.length samples)) && (i <? maxTrimSamples)).
    + destruct (Num.root_geb _ _).
      * destruct (s >=? minSilenceSamples); eauto.
      * apply IH. lia.
    + destruct (s >=? minSilenceSamples); eauto.
Qed.

(** The scan started at window [j] stops at the first window [k >= j] that
    meets the threshold. *)
Lemma start_loop_first_window : 0 < windowSamples ->
  forall n j k fuel,
  (j + n = k)%nat -> (n < fuel)%nat ->
  (forall j', (j <= j' < k)%nat -> start_window_meets j' = false) ->
  start_window_meets k = true ->
  Z.of_nat k * windowSamples < len ->
  Z.of_nat k * windowSamples < maxTrimSamples ->
  loop fuel (Z.of_nat j * windowSamples) (Z.of_nat j * windowSamples) =
    Some (if Z.of_nat k * windowSamples >=? minSilenceSamples
          then Z.max 0 (Z.of_nat k * windowSamples - windowSamples / 2)
          else 0).
Proof.
  intros Hw.
  induction n as [|n IH]; intros j k fuel Hjk Hfuel Hsilent Hmeets Hlen Hmax;
    (destruct fuel as [|fuel]; [lia|]); simpl.
  - assert (j = k) by lia. subst j.
    destruct (Z.ltb_spec (Z.of_nat k * windowSamples) (Z.of_nat (List.length samples)));
      [|lia].
    destruct (Z.ltb_spec (Z.of_nat k * windowSamples) maxTrimSamples); [|lia].
    simpl. unfold start_window_meets in Hmeets. rewrite Hmeets.
    destruct (_ >=? _); reflexivity.
  - assert (Hj : Z.of_nat j * windowSamples < Z.of_nat k * windowSamples) by nia.
    destruct (Z.ltb_spec (Z.of_nat j * windowSamples) (Z.of_nat (List.length samples)));
      [|lia].
    destruct (Z.ltb_spec (Z.of_nat j * windowSamples) maxTrimSamples); [|lia].
    simpl.
    pose proof (Hsilent j ltac:(lia)) as Hq. unfold start_window_meets in Hq. rewrite Hq.
    replace (Z.of_nat j * windowSamples + windowSamples)
      with (Z.of_nat (S j) * windowSamples) by lia.
    apply IH; try assumption; try lia.
    intros j' Hj'. apply Hsilent. lia.
Qed.

(** Whatever the scan returns lies between 0 and the cap. *)
Lemma start_loop_bounds : 0 <= windowSamples -> 0 <= maxTrimSamples ->
  forall fuel i s r, 0 <= s -> loop fuel i s = Some r -> 0 <= r <= maxTrimSamples.
Proof.
  intros Hw Hmax.
  induction fuel as [|fuel IH]; intros i s r Hs Hrun; [discriminate|].
  simpl in Hrun.
  destruct (Z.ltb_spec i (Z.of_nat (List.length samples))) as [Hi|Hi];
    destruct (Z.ltb_spec i maxTrimSamples) as [Him|Him]; simpl in Hrun.
  1: { destruct (Num.root_geb _ _).
       - destruct (s >=? minSilenceSamples); injection Hrun as <-; [|lia].
         assert (0 <= windowSamples / 2) by (apply Z.div_pos; lia). lia.
       - apply (IH (i + windowSamples) (s + windowSamples) r); [lia|exact Hrun]. }
  all: destruct (s >=? minSilenceSamples); injection Hrun as <-; lia.
Qed.

(** A window of no or negative length never advances the scan: a run that
    is not over after one pass is never over. *)
Lemma start_loop_stuck : windowSamples <= 0 ->
  forall i s, loop 1%nat i s = None ->
  forall fuel i' s', i' <= i -> loop fuel i' s' = None.
Proof.
  intros Hw i s Hone. simpl in Hone.
  rewrite (computeRMS_empty samples i windowSamples) in Hone by (left; exact Hw).
  destruct (Z.ltb_spec i len) as [Hlen|Hlen];
    destruct (Z.ltb_spec i maxTrimSamples) as [Hcap|Hcap]; simpl in Hone;
    try (destruct (s >=? minSilenceSamples); discriminate).
  destruct (Num.root_geb Num.root_zero threshold) eqn:Hmeets;
    [destruct (s >=? minSilenceSamples); discriminate|].
  induction fuel as [|fuel IH]; intros i' s' Hi'; [reflexivity|].
  simpl.
  rewrite (computeRMS_empty samples i' windowSamples) by (left; exact Hw).
  destruct (Z.ltb_spec i' len); [|lia].
  destruct (Z.ltb_spec i' maxTrimSamples); [|lia].
  simpl. rewrite Hmeets. apply IH. lia.
Qed.

(** The fuel of [findSpeechStart] loses no result. *)
Lemma start_loop_adequate fuel r :
  loop fuel 0 0 = Some r -> loop (scan_fuel samples) 0 0 = Some r.
Proof.
  intros Hrun.
  destruct (Z.lt_ge_cases 0 windowSamples) as [Hw|Hw].
  - assert (Hfuel : len - 0 <= Z.of_nat (List.length samples) * windowSamples) by nia.
    destruct (start_loop_terminates Hw (List.length samples) 0 0 Hfuel) as [r' Hr'].
    change (S (List.length samples)) with (scan_fuel samples) in Hr'.
    pose proof (start_loop_fuel_mono fuel (Nat.max fuel (scan_fuel samples)) _ _ _
                  ltac:(lia) Hrun) as H1.
    pose proof (start_loop_fuel_mono (scan_fuel samples) (Nat.max fuel (scan_fuel samples))
                  _ _ _ ltac:(lia) Hr') as H2.
    congruence.
  - destruct (loop 1%nat 0 0) as [r1|] eqn:Hone.
    + destruct fuel as [|fuel]; [discriminate|].
      pose proof (start_loop_fuel_mono 1 (S fuel) _ _ _ ltac:(lia) Hone) as H1.
      rewrite (start_loop_fuel_mono 1 (scan_fuel samples) _ _ _ ltac:(unfold scan_fuel; lia)
                 Hone).
      congruence.
    + rewrite (start_loop_stuck Hw 0 0 Hone fuel 0 0 (Z.le_refl _)) in Hrun.
      discriminate.
Qed.

End LeadingScan.

(** ** The trailing scan *)

Section TrailingScan.

Variable samples : list Q.
Variables windowSamples minSilenceSamples maxTrailingTrimSamples trailingPaddingSamples : Z.
Variable endThreshold : Q.

Local Abbreviation len := (Z.of_nat (List.length samples)).
Local Abbreviation loop fuel :=
  (findSpeechEnd_loop fuel samples windowSamples minSilenceSamples maxTrailingTrimSamples
     trailingPaddingSamples endThreshold).
Local Abbreviation end_window_start := (end_window_start samples windowSamples).
Local Abbreviation end_window_rms := (end_window_rms samples windowSamples).
Local Abbreviation end_window_previous := (end_window_previous samples windowSamples).
Local Abbreviation end_window_speech := (end_window_speech samples windowSamples endThreshold).

Lemma end_window_start_S j : end_window_start (S j) = end_window_start j - windowSamples.
Proof. unfold end_window_start. lia. Qed.

Lemma end_loop_fuel_mono fuel : forall fuel' i s p r,
  (fuel <= fuel')%nat -> loop fuel i s p = Some r -> loop fuel' i s p = Some r.
Proof.
  induction fuel as [|fuel IH]; intros fuel' i s p r Hle Hrun; [discriminate|].
  destruct fuel' as [|fuel']; [lia|].
  simpl in *.
  destruct (i >=? 0); [|exact Hrun].
  destruct (s >? maxTrailingTrimSamples); [exact Hrun|].
  destruct (_ || _); [exact Hrun|].
  apply IH; [lia|exact Hrun].
Qed.

Lemma end_loop_terminates : 0 < windowSamples ->
  forall fuel i s p, i + windowSamples <= Z.of_nat fuel * windowSamples ->
  exists r, loop (S fuel) i s p = Some r.
Proof.
  intros Hw.
  induction fuel as [|fuel IH]; intros i s p Hfuel; simpl.
  - destruct (Z.geb_spec i 0) as [Hi|Hi]; [lia|]. eauto.
  - destruct (i >=? 0); [|eauto].
    destruct (s >? maxTrailingTrimSamples); [eauto|].
    destruct (_ || _).
    + destruct (s >=? minSilenceSamples); eauto.
    + apply IH. lia.
Qed.

(** The scan started at window [j] and stopped by window [k]: the first
    window from [j] on that passes the speech test. *)
Lemma end_loop_first_window : 0 < windowSamples ->
  forall n j k fuel,
  (j + n = k)%nat -> (n < fuel)%nat ->
  (forall j', (j <= j' < k)%nat -> end_window_speech j' = false) ->
  end_window_speech k = true ->
  0 <= end_window_start k ->
  loop fuel (end_window_start j) (Z.of_nat j * windowSamples) (end_window_previous j) =
    Some (if Z.of_nat k * windowSamples >? maxTrailingTrimSamples then len
          else if Z.of_nat k * windowSamples >=? minSilenceSamples
               then Z.min len (end_window_start k + windowSamples + trailingPaddingSamples)
               else len).
Proof.
  intros Hw.
  induction n as [|n IH]; intros j k fuel Hjk Hfuel Hsilent Hspeech Hk;
    (destruct fuel as [|fuel]; [lia|]); simpl.
  - assert (j = k) by lia. subst j.
    destruct (Z.geb_spec (end_window_start k) 0); [|lia].
    destruct (Z.of_nat k * windowSamples >? maxTrailingTrimSamples); [reflexivity|].
    unfold end_window_speech, end_window_rms in Hspeech. rewrite Hspeech.
    destruct (_ >=? _); reflexivity.
  - assert (Hstart : end_window_start k < end_window_start j)
      by (unfold end_window_start; nia).
    destruct (Z.geb_spec (end_window_start j) 0); [|lia].
    destruct (Z.gtb_spec (Z.of_nat j * windowSamples) maxTrailingTrimSamples) as [Hcap|Hcap].
    + destruct (Z.gtb_spec (Z.of_nat k * windowSamples) maxTrailingTrimSamples);
        [reflexivity|nia].
    + pose proof (Hsilent j ltac:(lia)) as Hq.
      unfold end_window_speech, end_window_rms in Hq. rewrite Hq.
      rewrite <- end_window_start_S.
      replace (Z.of_nat j * windowSamples + windowSamples)
        with (Z.of_nat (S j) * windowSamples) by lia.
      apply (IH (S j) k fuel); try assumption; try lia.
      intros j' Hj'. apply Hsilent. lia.
Qed.

(** A silence run longer than the cap makes the scan give up: the whole
    buffer is kept. *)
Lemma end_loop_over_cap : 0 < windowSamples ->
  forall n j k,
  (j + n = k)%nat ->
  (forall j', (j <= j' < k)%nat -> end_window_speech j' = false) ->
  maxTrailingTrimSamples < Z.of_nat k * windowSamples ->
  forall fuel r,
  loop fuel (end_window_start j) (Z.of_nat j * windowSamples) (end_window_previous j) = Some r ->
  r = len.
Proof.
  intros Hw.
  induction n as [|n IH]; intros j k Hjk Hsilent Hcap fuel r Hrun;
    (destruct fuel as [|fuel]; [discriminate|]); simpl in Hrun.
  - assert (j = k) by lia. subst j.
    destruct (end_window_start k >=? 0); [|injection Hrun as <-; reflexivity].
    destruct (Z.gtb_spec (Z.of_nat k * windowSamples) maxTrailingTrimSamples); [injection Hrun as <-; reflexivity|lia].
  - destruct (end_window_start j >=? 0); [|injection Hrun as <-; reflexivity].
    destruct (Z.of_nat j * windowSamples >? maxTrailingTrimSamples); [injection Hrun as <-; reflexivity|].
    pose proof (Hsilent j ltac:(lia)) as Hq.
    unfold end_window_speech, end_window_rms in Hq. rewrite Hq in Hrun.
    rewrite <- end_window_start_S in Hrun.
    replace (Z.of_nat j * windowSamples + windowSamples)
      with (Z.of_nat (S j) * windowSamples) in Hrun by lia.
    apply (IH (S j) k ltac:(lia)) in Hrun; [exact Hrun| |exact Hcap].
    intros j' Hj'. apply Hsilent. lia.
Qed.

(** Whatever the scan returns, it cuts no more than the cap and nothing
    beyond the end. *)
Lemma end_loop_bounds : 0 <= trailingPaddingSamples ->
  forall fuel i s p r,
  i + windowSamples + s = len ->
  loop fuel i s p = Some r ->
  0 <= len - r <= Z.max 0 maxTrailingTrimSamples.
Proof.
  intros Hpad.
  induction fuel as [|fuel IH]; intros i s p r Hinv Hrun; [discriminate|].
  simpl in Hrun.
  destruct (i >=? 0); [|injection Hrun as <-; lia].
  destruct (Z.gtb_spec s maxTrailingTrimSamples); [injection Hrun as <-; lia|].
  destruct (_ || _).
  - destruct (s >=? minSilenceSamples); injection Hrun as <-; lia.
  - apply IH in Hrun; [exact Hrun|lia].
Qed.

Lemma isDecrescendo_zero (previousRMS : Num.root) :
  isDecrescendo previousRMS Num.root_zero endThreshold = false.
Proof.
  unfold isDecrescendo.
  replace (Num.root_gtb Num.root_zero 0) with false by reflexivity.
  rewrite andb_false_r. reflexivity.
Qed.

(** With a window of no or negative length, a backward run that is not over
    after one pass is never over. *)
Lemma end_loop_stuck : windowSamples <= 0 ->
  forall i s, loop 1%nat i s Num.root_zero = None ->
  forall fuel i' s', i <= i' -> s' <= s -> loop fuel i' s' Num.root_zero = None.
Proof.
  intros Hw i s Hone. simpl in Hone.
  rewrite (computeRMS_empty samples i windowSamples) in Hone by (left; exact Hw).
  rewrite isDecrescendo_zero, orb_false_r in Hone.
  destruct (Z.geb_spec i 0) as [Hi|Hi]; [|discriminate].
  destruct (Z.gtb_spec s maxTrailingTrimSamples) as [Hcap|Hcap]; [discriminate|].
  destruct (Num.root_geb Num.root_zero endThreshold) eqn:Hmeets;
    [destruct (s >=? minSilenceSamples); discriminate|].
  induction fuel as [|fuel IH]; intros i' s' Hi' Hs'; [reflexivity|].
  simpl.
  rewrite (computeRMS_empty samples i' windowSamples) by (left; exact Hw).
  rewrite isDecrescendo_zero, orb_false_r.
  destruct (Z.geb_spec i' 0); [|lia].
  destruct (Z.gtb_spec s' maxTrailingTrimSamples); [lia|].
  rewrite Hmeets. apply IH; lia.
Qed.

(** The fuel of [findSpeechEnd] loses no result. *)
Lemma end_loop_adequate fuel r :
  loop fuel (len - windowSamples) 0 Num.root_zero = Some r ->
  loop (scan_fuel samples) (len - windowSamples) 0 Num.root_zero = Some r.
Proof.
  intros Hrun.
  destruct (Z.lt_ge_cases 0 windowSamples) as [Hw|Hw].
  - assert (Hfuel : len - windowSamples + windowSamples
                    <= Z.of_nat (List.length samples) * windowSamples) by nia.
    destruct (end_loop_terminates Hw (List.length samples) (len - windowSamples) 0
                Num.root_zero Hfuel) as [r' Hr'].
    change (S (List.length samples)) with (scan_fuel samples) in Hr'.
    pose proof (end_loop_fuel_mono fuel (Nat.max fuel (scan_fuel samples)) _ _ _ _
                  ltac:(lia) Hrun) as H1.
    pose proof (end_loop_fuel_mono (scan_fuel samples) (Nat.max fuel (scan_fuel samples))
                  _ _ _ _ ltac:(lia) Hr') as H2.
    congruence.
  - destruct (loop 1%nat (len - windowSamples) 0 Num.root_zero) as [r1|] eqn:Hone.
    + destruct fuel as [|fuel]; [discriminate|].
      pose proof (end_loop_fuel_mono 1 (S fuel) _ _ _ _ ltac:(lia) Hone) as H1.
      rewrite (end_loop_fuel_mono 1 (scan_fuel samples) _ _ _ _
                 ltac:(unfold scan_fuel; lia) Hone).
      congruence.
    + rewrite (end_loop_stuck Hw (len - windowSamples) 0 Hone fuel (len - windowSamples) 0
                 (Z.le_refl _) (Z.le_refl _)) in Hrun.
      discriminate.
Qed.

End TrailingScan.

(** ** Durations in samples and in seconds *)

Lemma floor_nonneg (sampleRate seconds : Q) :
  (0 < sampleRate)%Q -> (0 <= seconds)%Q -> 0 <= Num.floor (sampleRate * seconds).
Proof.
  intros Hsr Hs. apply floor_ge_int.
  apply Qmult_le_0_compat; [apply Qlt_le_weak; exact Hsr|exact Hs].
Qed.

(** A count of samples within [floor (sampleRate * seconds)] lasts at most
    [seconds]. *)
Lemma samples_within_seconds (sampleRate seconds : Q) (n : Z) :
  (0 < sampleRate)%Q -> n <= Num.floor (sampleRate * seconds) ->
  (inject_Z n / sampleRate <= seconds)%Q.
Proof.
  intros Hsr Hn. apply Qle_shift_div_r; [exact Hsr|].
  rewrite Qmult_comm.
  eapply Qle_trans; [|apply floor_le].
  rewrite <- Zle_Qle. exact Hn.
Qed.

(** ** findSpeechStart *)

Lemma findSpeechStart_unfold samples sampleRate config :
  findSpeechStart samples sampleRate config =
  findSpeechStart_loop (scan_fuel samples) samples (window_samples sampleRate config)
    (max_leading_samples sampleRate config) (min_silence_samples sampleRate config)
    (cfg_silenceThreshold config) 0 0.
Proof. reflexivity. Qed.

Lemma findSpeechStart_returns samples sampleRate config :
  0 < window_samples sampleRate config ->
  exists r, findSpeechStart samples sampleRate config = Some r.
Proof.
  intros Hw. rewrite findSpeechStart_unfold. unfold scan_fuel.
  apply start_loop_terminates; [exact Hw|]. nia.
Qed.

(** [None] from [findSpeechStart] is a run that no amount of fuel ends. *)
Lemma findSpeechStart_adequate samples sampleRate config fuel r :
  findSpeechStart_loop fuel samples (window_samples sampleRate config)
    (max_leading_samples sampleRate config) (min_silence_samples sampleRate config)
    (cfg_silenceThreshold config) 0 0 = Some r ->
  findSpeechStart samples sampleRate config = Some r.
Proof. rewrite findSpeechStart_unfold. apply start_loop_adequate. Qed.

(** C4 (as amended).  With a positive window and a non-negative
    [maxLeadingTrim], [findSpeechStart] returns an onset between 0 and
    [maxLeadingTrim] seconds' worth of samples; and when window [k] is the
    first window whose RMS meets [silenceThreshold], and it starts before the
    end of the buffer and before the cap, the onset is that window's position
    backed off by half a window (not below 0) if the silence scanned before it
    is at least [minSilenceDuration], and 0 if it is shorter. *)
Theorem findSpeechStart_onset (samples : list Q) (sampleRate : Q) (config : Config) :
  let w := window_samples sampleRate config in
  let cap := max_leading_samples sampleRate config in
  (0 < sampleRate)%Q ->
  0 < w ->
  (0 <= cfg_maxLeadingTrim config)%Q ->
  exists onset,
    findSpeechStart samples sampleRate config = Some onset /\
    0 <= onset <= cap /\
    (inject_Z onset / sampleRate <= cfg_maxLeadingTrim config)%Q /\
    forall k : nat,
      (forall j, (j < k)%nat ->
         start_window_meets samples w (cfg_silenceThreshold config) j = false) ->
      start_window_meets samples w (cfg_silenceThreshold config) k = true ->
      Z.of_nat k * w < Z.of_nat (List.length samples) ->
      Z.of_nat k * w < cap ->
      onset = if Z.of_nat k * w >=? min_silence_samples sampleRate config
              then Z.max 0 (Z.of_nat k * w - w / 2)
              else 0.
Proof.
  intros w cap Hsr Hw Hmax.
  assert (Hcap : 0 <= cap) by (apply floor_nonneg; assumption).
  destruct (findSpeechStart_returns samples sampleRate config Hw) as [onset Hrun].
  exists onset. split; [exact Hrun|].
  rewrite findSpeechStart_unfold in Hrun. fold w cap in Hrun.
  assert (Hw0 : 0 <= w) by lia.
  assert (Hb : 0 <= onset <= cap)
    by (eapply (start_loop_bounds samples w cap); [exact Hw0|exact Hcap| |exact Hrun]; lia).
  split; [exact Hb|]. split.
  - apply samples_within_seconds; [exact Hsr|apply Hb].
  - intros k Hsilent Hmeets Hlen Hk.
    pose proof (start_loop_first_window samples w cap
                  (min_silence_samples sampleRate config) (cfg_silenceThreshold config)
                  Hw k 0%nat k (scan_fuel samples) ltac:(lia)) as Hfirst.
    change (Z.of_nat 0 * w) with 0 in Hfirst. rewrite Hfirst in Hrun.
    + now injection Hrun as <-.
    + unfold scan_fuel. nia.
    + intros j' Hj'. apply Hsilent. lia.
    + exact Hmeets.
    + exact Hlen.
    + exact Hk.
Qed.

(** Half a second of tone after a tenth of a second of silence, at 100 Hz
    and with the default configuration: window 2 is the first one that meets
    the threshold, yet the onset is 0 and not the backed-off position 8,
    because the silence is shorter than [minSilenceDuration]. *)
Lemma findSpeechStart_short_silence_counterexample :
  let samples := pcm8_samples (silence 10 ++ tone 50) in
  let w := window_samples 100 DEFAULT_CONFIG in
  w = 5 /\
  start_window_meets samples w (cfg_silenceThreshold DEFAULT_CONFIG) 0 = false /\
  start_window_meets samples w (cfg_silenceThreshold DEFAULT_CONFIG) 1 = false /\
  start_window_meets samples w (cfg_silenceThreshold DEFAULT_CONFIG) 2 = true /\
  Z.max 0 (2 * w - w / 2) = 8 /\
  findSpeechStart samples 100 DEFAULT_CONFIG = Some 0 /\
  findSpeechStart samples 100 DEFAULT_CONFIG <> Some (Z.max 0 (2 * w - w / 2)).
Proof.
  vm_compute. repeat split; try reflexivity. discriminate.
Qed.

Lemma findSpeechStart_onset_witness :
  exists onset,
    findSpeechStart (pcm8_samples (silence 50 ++ tone 150)) 100 DEFAULT_CONFIG = Some onset /\
    onset = 48.
Proof.
  destruct (findSpeechStart_onset (pcm8_samples (silence 50 ++ tone 150)) 100 DEFAULT_CONFIG)
    as [onset [Hrun [_ [_ Hfirst]]]].
  - reflexivity.
  - reflexivity.
  - discriminate.
  - exists onset. split; [exact Hrun|].
    apply (Hfirst 10%nat).
    + intros j Hj. do 10 (destruct j as [|j]; [reflexivity|]). lia.
    + reflexivity.
    + reflexivity.
    + reflexivity.
Defined.

(** ** findSpeechEnd *)

Lemma findSpeechEnd_unfold samples sampleRate config :
  findSpeechEnd samples sampleRate config =
  findSpeechEnd_loop (scan_fuel samples) samples (window_samples sampleRate config)
    (min_silence_samples sampleRate config) (max_trailing_samples sampleRate config)
    (trailing_padding_samples sampleRate config) (end_threshold config)
    (end_window_start samples (window_samples sampleRate config) 0) 0
    (end_window_previous samples (window_samples sampleRate config) 0).
Proof.
  unfold findSpeechEnd, end_window_start, end_window_previous. simpl.
  rewrite Z.mul_1_l. reflexivity.
Qed.

Lemma findSpeechEnd_returns samples sampleRate config :
  0 < window_samples sampleRate config ->
  exists r, findSpeechEnd samples sampleRate config = Some r.
Proof.
  intros Hw. rewrite findSpeechEnd_unfold. unfold scan_fuel, end_window_start.
  apply end_loop_terminates; [exact Hw|]. nia.
Qed.

(** [None] from [findSpeechEnd] is a run that no amount of fuel ends. *)
Lemma findSpeechEnd_adequate samples sampleRate config fuel r :
  findSpeechEnd_loop fuel samples (window_samples sampleRate config)
    (min_silence_samples sampleRate config) (max_trailing_samples sampleRate config)
    (trailing_padding_samples sampleRate config) (end_threshold config)
    (Z.of_nat (List.length samples) - window_samples sampleRate config) 0 Num.root_zero
    = Some r ->
  findSpeechEnd samples sampleRate config = Some r.
Proof. apply end_loop_adequate. Qed.

(** In every case the end boundary lies inside the buffer and cuts at most
    the cap. *)
Lemma findSpeechEnd_bounds samples sampleRate config e :
  0 <= trailing_padding_samples sampleRate config ->
  findSpeechEnd samples sampleRate config = Some e ->
  0 <= Z.of_nat (List.length samples) - e <= Z.max 0 (max_trailing_samples sampleRate config).
Proof.
  intros Hpad Hrun. rewrite findSpeechEnd_unfold in Hrun.
  eapply end_loop_bounds; [exact Hpad| |exact Hrun].
  unfold end_window_start. lia.
Qed.

(** C2 (as amended).  Trailing trim with a genuine speech end: window [k]
    from the end is the first that passes the speech test, and it follows a
    silence run of [k] windows that lasts at least [minSilenceDuration].
    Then the end boundary is the end of that window plus the padding in
    whole samples, [floor (sampleRate * trailingPadding)], or the end of the
    buffer when that comes first or when the silence run is longer than
    [maxTrailingTrim]: it never lies before the end of the speech window,
    and what it keeps after that window is exactly the padding in samples
    unless it is the end of the buffer.  The audio cut after it never
    exceeds [maxTrailingTrim] seconds.  The padding is counted in whole
    samples, so it can last less than [trailingPadding] seconds. *)
Theorem findSpeechEnd_keeps_padding (samples : list Q) (sampleRate : Q) (config : Config)
    (k : nat) :
  let w := window_samples sampleRate config in
  let len := Z.of_nat (List.length samples) in
  let speech_end := end_window_start samples w k + w in
  let padding := trailing_padding_samples sampleRate config in
  let cap := max_trailing_samples sampleRate config in
  (0 < sampleRate)%Q ->
  0 < w ->
  (0 <= cfg_trailingPadding config)%Q ->
  (0 <= cfg_maxTrailingTrim config)%Q ->
  (forall j, (j < k)%nat -> end_window_speech samples w (end_threshold config) j = false) ->
  end_window_speech samples w (end_threshold config) k = true ->
  0 <= end_window_start samples w k ->
  min_silence_samples sampleRate config <= Z.of_nat k * w ->
  exists e,
    findSpeechEnd samples sampleRate config = Some e /\
    e = (if Z.of_nat k * w >? cap then len else Z.min len (speech_end + padding)) /\
    Z.min len (speech_end + padding) <= e <= len /\
    speech_end <= e /\
    (e = len \/ e - speech_end = padding) /\
    len - e <= cap /\
    (inject_Z (len - e) / sampleRate <= cfg_maxTrailingTrim config)%Q.
Proof.
  intros w len speech_end padding cap Hsr Hw Hpad Hmax Hsilent Hspeech Hstart Hrun.
  assert (Hpadding : 0 <= padding) by (apply floor_nonneg; assumption).
  assert (Hcap : 0 <= cap) by (apply floor_nonneg; assumption).
  pose proof (end_loop_first_window samples w (min_silence_samples sampleRate config)
                cap padding (end_threshold config) Hw k 0%nat k (scan_fuel samples)
                ltac:(lia)) as Hfirst.
  change (Z.of_nat 0 * w) with 0 in Hfirst.
  assert (He : findSpeechEnd samples sampleRate config =
               Some (if Z.of_nat k * w >? cap then len
                     else Z.min len (speech_end + padding))).
  { rewrite findSpeechEnd_unfold. fold w cap padding. rewrite Hfirst.
    - destruct (Z.geb_spec (Z.of_nat k * w) (min_silence_samples sampleRate config));
        [reflexivity|lia].
    - unfold scan_fuel. unfold end_window_start in Hstart. fold len in Hstart.
      subst len. nia.
    - intros j' Hj'. apply Hsilent. lia.
    - exact Hspeech.
    - exact Hstart. }
  eexists. split; [exact He|]. split; [reflexivity|].
  pose proof (findSpeechEnd_bounds samples sampleRate config _ Hpadding He) as Hb.
  fold len cap in Hb.
  assert (Hcut : len - (if Z.of_nat k * w >? cap then len
                        else Z.min len (speech_end + padding)) <= cap) by lia.
  assert (Hend : speech_end <= len)
    by (subst speech_end; unfold end_window_start; fold len; lia).
  split; [|split; [|split; [|split; [exact Hcut|]]]].
  - destruct (Z.of_nat k * w >? cap); lia.
  - destruct (Z.of_nat k * w >? cap); lia.
  - destruct (Z.of_nat k * w >? cap); [left; reflexivity|].
    destruct (Z.le_gt_cases len (speech_end + padding)) as [Hshort|Hlong].
    + left. lia.
    + right. lia.
  - apply samples_within_seconds; [exact Hsr|exact Hcut].
Qed.

(** C2 as the specification words it fails at 110 Hz with the default
    configuration: a tone of 150 samples followed by 100 samples of
    silence.  The silence run of 20 windows (100 samples) is longer than
    [minSilenceDuration] (22 samples) and shorter than [maxTrailingTrim];
    the speech window ends at sample 150 and the boundary is 188, inside the
    buffer: 38 samples are kept after the speech, which is 38/110 of a
    second, less than [trailingPadding] = 0.35 s. *)
Lemma findSpeechEnd_padding_short_counterexample :
  let samples := pcm8_samples (tone 150 ++ silence 100) in
  let w := window_samples 110 DEFAULT_CONFIG in
  let speech_end := end_window_start samples w 20 + w in
  w = 5 /\
  min_silence_samples 110 DEFAULT_CONFIG = 22 /\
  trailing_padding_samples 110 DEFAULT_CONFIG = 38 /\
  forallb (fun j => negb (end_window_speech samples w (end_threshold DEFAULT_CONFIG) j))
    (seq 0 20) = true /\
  end_window_speech samples w (end_threshold DEFAULT_CONFIG) 20 = true /\
  speech_end = 150 /\
  findSpeechEnd samples 110 DEFAULT_CONFIG = Some 188 /\
  188 < Z.of_nat (List.length samples) /\
  (inject_Z (188 - speech_end) / 110 < cfg_trailingPadding DEFAULT_CONFIG)%Q.
Proof.
  vm_compute. repeat split; reflexivity.
Qed.

(** Three seconds at 100 Hz: half a second of silence, a second and a half
    of tone, one second of silence.  The scan stops at window 20 from the
    end, whose end is sample 200; 35 samples of padding are kept. *)
Lemma findSpeechEnd_keeps_padding_witness :
  exists e,
    findSpeechEnd (pcm8_samples (silence 50 ++ tone 150 ++ silence 100)) 100 DEFAULT_CONFIG
      = Some e /\ e = 235.
Proof.
  destruct (findSpeechEnd_keeps_padding
              (pcm8_samples (silence 50 ++ tone 150 ++ silence 100)) 100 DEFAULT_CONFIG 20)
    as [e [Hrun [He _]]].
  - reflexivity.
  - reflexivity.
  - discriminate.
  - discriminate.
  - intros j Hj. do 20 (destruct j as [|j]; [reflexivity|]). lia.
  - reflexivity.
  - discriminate.
  - discriminate.
  - exists e. split; [exact Hrun|exact He].
Defined.

(** C8 for the scan itself: a silence run of [k] windows that is longer
    than [maxTrailingTrim] makes [findSpeechEnd] return the full length. *)
Lemma findSpeechEnd_over_cap (samples : list Q) (sampleRate : Q) (config : Config) (k : nat) :
  let w := window_samples sampleRate config in
  0 < w ->
  (forall j, (j < k)%nat -> end_window_speech samples w (end_threshold config) j = false) ->
  max_trailing_samples sampleRate config < Z.of_nat k * w ->
  findSpeechEnd samples sampleRate config = Some (Z.of_nat (List.length samples)).
Proof.
  intros w Hw Hsilent Hcap.
  destruct (findSpeechEnd_returns samples sampleRate config Hw) as [r Hrun].
  rewrite Hrun. f_equal.
  rewrite findSpeechEnd_unfold in Hrun. fold w in Hrun.
  eapply (end_loop_over_cap samples w _ _ _ _ Hw k 0%nat k); [lia| |exact Hcap|exact Hrun].
  intros j' Hj'. apply Hsilent. lia.
Qed.

(** A run measured in seconds: more than [maxTrailingTrim] seconds of
    silence is more than the cap in samples. *)
Lemma over_cap_seconds (sampleRate : Q) (config : Config) (n : Z) :
  (0 < sampleRate)%Q ->
  (cfg_maxTrailingTrim config < inject_Z n / sampleRate)%Q ->
  max_trailing_samples sampleRate config < n.
Proof.
  intros Hsr Hlong.
  apply Z.lt_nge. intros Hle.
  apply (samples_within_seconds sampleRate (cfg_maxTrailingTrim config) n Hsr) in Hle.
  exact (Qlt_not_le _ _ Hlong Hle).
Qed.

(** ** The decrescendo exception *)

Lemma root_gtb_zero (r : Num.root) : Num.root_gtb r 0 = true <-> (0 < Num.radicand r)%Q.
Proof.
  unfold Num.root_gtb. rewrite orb_true_iff, ltb_true, gtb_true.
  split.
  - intros [H|H]; [exfalso; revert H; apply Qlt_irrefl|lra].
  - intros H. right. lra.
Qed.

(** A window that is more than 20% below [previousRMS] and above 30% of the
    end threshold passes the speech test of the backward scan. *)
Lemma fading_window_is_speech (previousRMS rms : Num.root) (endThreshold : Q) :
  (0 <= Num.radicand rms)%Q ->
  Num.root_ltb rms (Num.root_scale previousRMS (8 # 10)) = true ->
  Num.root_gtb rms (endThreshold * (3 # 10)) = true ->
  Num.root_geb rms endThreshold || isDecrescendo previousRMS rms endThreshold = true.
Proof.
  intros Hrms Hdrop Hloud.
  unfold Num.root_geb.
  destruct (Qle_bool endThreshold 0) eqn:Hthr; [reflexivity|].
  assert (Hpos : (0 < endThreshold)%Q).
  { apply Qnot_le_lt. intros Hle. apply Qle_bool_iff in Hle. congruence. }
  simpl. apply orb_true_iff. right.
  unfold isDecrescendo. rewrite Hdrop, Hloud, !andb_true_r.
  unfold Num.root_ltb, Num.root_scale in Hdrop. simpl in Hdrop. apply ltb_true in Hdrop.
  unfold Num.root_gtb in Hloud. apply orb_true_iff in Hloud.
  assert (Hsq : (0 < Num.radicand rms)%Q).
  { destruct Hloud as [Hneg|Hgt].
    - apply ltb_true in Hneg. lra.
    - apply gtb_true in Hgt.
      eapply Qle_lt_trans; [|exact Hgt]. apply Qsquare_nonneg. }
  apply andb_true_iff. split; apply root_gtb_zero; [|exact Hsq].
  lra.
Qed.

(** C5.  The backward scan tests against
    [silenceThreshold * endThresholdMultiplier], which is lower than
    [silenceThreshold] for a multiplier below 1.  At a window of the scan
    (state [i], [silentSamples], [previousRMS], cap not exceeded), a window
    whose RMS is below [previousRMS * 0.8] and above 30% of the end threshold
    stops the scan exactly as a window that meets the end threshold does, and
    adds nothing to the silence run; a window that passes neither test is
    counted as silence and becomes the next [previousRMS]. *)
Theorem findSpeechEnd_fading_window (samples : list Q) (sampleRate : Q) (config : Config)
    (fuel : nat) (i silentSamples : Z) (previousRMS : Num.root) :
  let w := window_samples sampleRate config in
  let len := Z.of_nat (List.length samples) in
  let threshold := (cfg_silenceThreshold config * cfg_endThresholdMultiplier config)%Q in
  let scan fuel i silentSamples previousRMS :=
    findSpeechEnd_loop fuel samples w (min_silence_samples sampleRate config)
      (max_trailing_samples sampleRate config) (trailing_padding_samples sampleRate config)
      threshold i silentSamples previousRMS in
  let rms := computeRMS samples i w in
  let stop :=
    if silentSamples >=? min_silence_samples sampleRate config
    then Some (Z.min len (i + w + trailing_padding_samples sampleRate config))
    else Some len in
  0 <= i ->
  silentSamples <= max_trailing_samples sampleRate config ->
  findSpeechEnd samples sampleRate config = scan (scan_fuel samples) (len - w) 0 Num.root_zero /\
  ((0 < cfg_silenceThreshold config)%Q -> (cfg_endThresholdMultiplier config < 1)%Q ->
   (threshold < cfg_silenceThreshold config)%Q) /\
  (Num.root_ltb rms (Num.root_scale previousRMS (8 # 10)) = true ->
   Num.root_gtb rms (threshold * (3 # 10)) = true ->
   scan (S fuel) i silentSamples previousRMS = stop) /\
  (Num.root_geb rms threshold = true ->
   scan (S fuel) i silentSamples previousRMS = stop) /\
  (Num.root_geb rms threshold = false ->
   isDecrescendo previousRMS rms threshold = false ->
   scan (S fuel) i silentSamples previousRMS =
   scan fuel (i - w) (silentSamples + w) rms).
Proof.
  intros w len threshold scan rms stop Hi Hcap.
  split; [reflexivity|]. split.
  { intros Hthr Hmult. unfold threshold.
    rewrite <- (Qmult_1_r (cfg_silenceThreshold config)) at 2.
    apply Qmult_lt_l; assumption. }
  assert (Hstep : forall b,
             Num.root_geb rms threshold || isDecrescendo previousRMS rms threshold = b ->
             scan (S fuel) i silentSamples previousRMS =
             if b then stop else scan fuel (i - w) (silentSamples + w) rms).
  { intros b Hb. unfold scan at 1. simpl.
    destruct (Z.geb_spec i 0); [|lia].
    destruct (Z.gtb_spec silentSamples (max_trailing_samples sampleRate config)); [lia|].
    fold w rms. rewrite Hb. destruct b; reflexivity. }
  repeat split.
  - intros Hdrop Hloud. apply (Hstep true).
    apply fading_window_is_speech; [apply computeRMS_nonneg|exact Hdrop|exact Hloud].
  - intros Hmeets. apply (Hstep true). rewrite Hmeets. reflexivity.
  - intros Hquiet Hflat. apply (Hstep false). rewrite Hquiet, Hflat. reflexivity.
Qed.

(** Two windows at 100 Hz: amplitude 0.003, then amplitude 0.005.  Scanned
    backward, the second window (0.005) is below the end threshold 0.006 and
    counts as silence; the first (0.003) is more than 20% below it and above
    0.0018, so it stops the scan. *)
Lemma findSpeechEnd_fading_window_witness :
  let samples := repeat (3 # 1000)%Q 5 ++ repeat (5 # 1000)%Q 5 in
  findSpeechEnd_loop 1 samples 5 20 800 35 ((1 # 100) * (6 # 10))%Q 0 5
    (computeRMS samples 5 5) = Some 10.
Proof.
  intros samples.
  destruct (findSpeechEnd_fading_window samples 100 DEFAULT_CONFIG 0 0 5
              (computeRMS samples 5 5)) as [_ [_ [Hfading _]]].
  - discriminate.
  - discriminate.
  - apply Hfading; reflexivity.
Defined.

Lemma getChannelData_nth b ch data :
  buf_channels b !! ch = Some data -> getChannelData b ch = Return data.
Proof.
  intros H. unfold getChannelData. rewrite H. reflexivity.
Qed.

(** ** The WAV encoder *)

Lemma byte_of_spec (v k : Z) : 0 <= k -> DataView.byte_of v k = (v / 2 ^ (8 * k)) mod 256.
Proof.
  intros Hk. unfold DataView.byte_of.
  rewrite Z.shiftr_div_pow2 by lia.
  change 255 with (Z.ones 8). rewrite Z.land_ones by lia. reflexivity.
Qed.

(** Two bytes, low first, hold [v] modulo 2^16. *)
Lemma bytes_uint16 (v : Z) :
  DataView.byte_of v 0 + 256 * DataView.byte_of v 1 = v mod 65536.
Proof.
  rewrite !byte_of_spec by lia.
  change (2 ^ (8 * 0)) with 1. change (2 ^ (8 * 1)) with 256.
  rewrite Z.div_1_r.
  change 65536 with (256 * 256). rewrite Z.rem_mul_r by lia. reflexivity.
Qed.

(** Four bytes, low first, hold [v] modulo 2^32. *)
Lemma bytes_uint32 (v : Z) :
  DataView.byte_of v 0 + 256 * DataView.byte_of v 1
  + 65536 * DataView.byte_of v 2 + 16777216 * DataView.byte_of v 3 = v mod 4294967296.
Proof.
  rewrite !byte_of_spec by lia.
  change (2 ^ (8 * 0)) with 1. change (2 ^ (8 * 1)) with 256.
  change (2 ^ (8 * 2)) with (256 * 256). change (2 ^ (8 * 3)) with (256 * 256 * 256).
  rewrite Z.div_1_r.
  change 4294967296 with (256 * (256 * (256 * 256))).
  rewrite !Z.rem_mul_r by lia.
  rewrite <- !Z.div_div by lia. lia.
Qed.

Lemma setInt16_in_range offset value view :
  (offset + 2 <= List.length view)%nat ->
  DataView.setInt16 offset value view =
  Return (<[S offset := DataView.byte_of value 1]>
          (<[offset := DataView.byte_of value 0]> view)).
Proof.
  intros H. unfold DataView.setInt16, DataView.setUint16.
  destruct (Nat.leb_spec (offset + 2) (List.length view)); [reflexivity|lia].
Qed.

(** Two bytes read as a signed word give back a value of the signed 16-bit
    range. *)
Lemma int16_of_bytes (value : Z) :
  -32768 <= value <= 32767 ->
  (let u := DataView.byte_of value 0 + 256 * DataView.byte_of value 1 in
   if u <? 32768 then u else u - 65536) = value.
Proof.
  intros Hrange. cbv zeta. rewrite bytes_uint16.
  destruct (Z.ltb_spec (value mod 65536) 32768) as [Hlow|Hhigh].
  - destruct (Z.lt_ge_cases value 0) as [Hneg|Hpos].
    + rewrite <- (Z.mod_add value 1 65536) in Hlow by lia.
      rewrite Z.mod_small in Hlow by lia. lia.
    + apply Z.mod_small. lia.
  - destruct (Z.lt_ge_cases value 0) as [Hneg|Hpos].
    + rewrite <- (Z.mod_add value 1 65536) by lia.
      rewrite Z.mod_small by lia. lia.
    + rewrite Z.mod_small in Hhigh by lia. lia.
Qed.

(** A 16-bit word written is the word read back, when the value is in the
    signed 16-bit range. *)
Lemma getInt16_setInt16 offset value view :
  (offset + 2 <= List.length view)%nat ->
  -32768 <= value <= 32767 ->
  exists view',
    DataView.setInt16 offset value view = Return view' /\
    List.length view' = List.length view /\
    DataView.getInt16 offset view' = value.
Proof.
  intros Hoff Hrange. eexists. split; [apply setInt16_in_range; exact Hoff|].
  split; [rewrite !length_insert; reflexivity|].
  unfold DataView.getInt16, DataView.getUint16, DataView.getUint8.
  rewrite (nth_lookup_Some _ offset 0 (DataView.byte_of value 0)).
  2: { rewrite list_lookup_insert_ne by lia. apply list_lookup_insert_eq. lia. }
  rewrite (nth_lookup_Some _ (S offset) 0 (DataView.byte_of value 1)).
  2: { apply list_lookup_insert_eq. rewrite length_insert. lia. }
  apply int16_of_bytes. exact Hrange.
Qed.

(** *** Clamping and scaling *)

Lemma clamp_sample_range (x : Q) : (-1 <= clamp_sample x <= 1)%Q.
Proof.
  unfold clamp_sample.
  destruct (Qle_bool 1 x) eqn:Hhigh.
  - destruct (Qle_bool 1 (-1)) eqn:E; [discriminate E|]. split; [discriminate|apply Qle_refl].
  - destruct (Qle_bool x (-1)) eqn:Hlow.
    + split; [apply Qle_refl|discriminate].
    + split.
      * apply Qlt_le_weak, Qnot_le_lt. intros H. apply Qle_bool_iff in H. congruence.
      * apply Qlt_le_weak, Qnot_le_lt. intros H. apply Qle_bool_iff in H. congruence.
Qed.

Lemma scale_sample_range (sample : Q) :
  (-1 <= sample <= 1)%Q -> (-32768 <= scale_sample sample <= 32767)%Q.
Proof.
  intros [Hlow Hhigh]. unfold scale_sample.
  destruct (Num.ltb sample 0) eqn:Hneg.
  - apply ltb_true in Hneg. lra.
  - assert (0 <= sample)%Q.
    { apply Qnot_lt_le. intros H. apply ltb_true in H. congruence. }
    lra.
Qed.

Lemma trunc_range (x : Q) (lo hi : Z) :
  lo <= 0 <= hi -> (inject_Z lo <= x <= inject_Z hi)%Q -> lo <= Num.trunc x <= hi.
Proof.
  intros Hz [Hlo Hhi]. destruct x as [n d]. unfold Num.trunc, Qle in *. simpl in *.
  rewrite Z.mul_1_r in Hlo, Hhi.
  split.
  - rewrite <- (Z.quot_mul lo (Z.pos d)) by lia.
    apply Z.quot_le_mono; lia.
  - rewrite <- (Z.quot_mul hi (Z.pos d)) by lia.
    apply Z.quot_le_mono; lia.
Qed.

(** Every encoded sample is a signed 16-bit integer. *)
Lemma encode_sample_range (x : Q) : -32768 <= encode_sample x <= 32767.
Proof.
  unfold encode_sample. apply trunc_range; [lia|].
  apply scale_sample_range, clamp_sample_range.
Qed.

(** *** The sample loops *)

Lemma insert_pair (x y : Z) : forall (offset : nat) (view : list Z),
  (offset + 2 <= List.length view)%nat ->
  <[S offset := y]> (<[offset := x]> view) =
  take offset view ++ [x; y] ++ drop (offset + 2) view.
Proof.
  induction offset as [|offset IH]; intros view Hlen.
  - destruct view as [|a [|b rest]]; simpl in Hlen; try lia. reflexivity.
  - destruct view as [|c view]; simpl in Hlen; [lia|].
    simpl. f_equal. apply IH. lia.
Qed.

Lemma write_channels_exact (channels : list (list Q)) (i : nat) : forall m a view offset,
  (offset + 2 * m <= List.length view)%nat ->
  foldM (fun ch '(view, offset) =>
           let* view' :=
             DataView.setInt16 offset
               (encode_sample (sample_at (nth ch channels []) (Z.of_nat i))) view in
           Return (view', (offset + 2)%nat))
        (seq a m) (view, offset) =
  Return (take offset view
          ++ flat_map (fun ch => sample_bytes
                         (encode_sample (sample_at (nth ch channels []) (Z.of_nat i))))
                      (seq a m)
          ++ drop (offset + 2 * m) view,
          (offset + 2 * m)%nat).
Proof.
  induction m as [|m IH]; intros a view offset Hlen.
  - cbn [seq foldM flat_map]. rewrite Nat.mul_0_r, Nat.add_0_r.
    rewrite app_nil_l, take_drop. reflexivity.
  - cbn [seq foldM flat_map]. rewrite setInt16_in_range by lia. cbn [obind].
    rewrite insert_pair by lia.
    set (x := DataView.byte_of _ 0). set (y := DataView.byte_of _ 1).
    assert (Htake : List.length (take offset view) = offset) by (rewrite length_take; lia).
    rewrite IH.
    2: { rewrite !length_app, Htake, length_drop. simpl. lia. }
    f_equal. f_equal; [|lia].
    unfold sample_bytes. fold x y.
    replace (offset + 2)%nat with (List.length (take offset view ++ [x; y]))
      by (rewrite length_app, Htake; reflexivity).
    rewrite (app_assoc (take offset view) [x; y]).
    rewrite take_app_length.
    replace (List.length (take offset view ++ [x; y]) + 2 * m)%nat
      with (List.length (take offset view ++ [x; y]) + 2 * m)%nat by reflexivity.
    rewrite drop_app_add. rewrite drop_drop.
    rewrite length_app, Htake. simpl List.length.
    rewrite <- !app_assoc. simpl.
    do 4 f_equal. f_equal. lia.
Qed.

Lemma frame_bytes_length channels numChannels i :
  List.length (frame_bytes channels numChannels i) = (2 * numChannels)%nat.
Proof.
  unfold frame_bytes.
  assert (H : forall a,
            List.length
              (flat_map (fun ch => sample_bytes
                           (encode_sample (sample_at (nth ch channels []) (Z.of_nat i))))
                        (seq a numChannels)) = (2 * numChannels)%nat).
  { induction numChannels as [|n IH]; intros a; simpl; [reflexivity|].
    rewrite IH. lia. }
  apply H.
Qed.

Lemma write_frame_exact channels numChannels i view offset :
  (offset + 2 * numChannels <= List.length view)%nat ->
  write_frame channels numChannels i (view, offset) =
  Return (take offset view ++ frame_bytes channels numChannels i
          ++ drop (offset + 2 * numChannels) view,
          (offset + 2 * numChannels)%nat).
Proof. apply write_channels_exact. Qed.

Lemma write_frames_exact channels numChannels : forall m a view offset,
  (offset + 2 * numChannels * m <= List.length view)%nat ->
  foldM (write_frame channels numChannels) (seq a m) (view, offset) =
  Return (take offset view
          ++ flat_map (frame_bytes channels numChannels) (seq a m)
          ++ drop (offset + 2 * numChannels * m) view,
          (offset + 2 * numChannels * m)%nat).
Proof.
  induction m as [|m IH]; intros a view offset Hlen.
  - cbn [seq foldM flat_map]. rewrite Nat.mul_0_r, Nat.add_0_r.
    rewrite app_nil_l, take_drop. reflexivity.
  - cbn [seq foldM flat_map]. rewrite write_frame_exact by nia. cbn [obind].
    assert (Htake : List.length (take offset view) = offset) by (rewrite length_take; nia).
    pose proof (frame_bytes_length channels numChannels a) as Hframe.
    set (frame := frame_bytes channels numChannels a) in *.
    rewrite IH.
    2: { rewrite !length_app, Htake, Hframe, length_drop. nia. }
    f_equal. f_equal; [|nia].
    replace (offset + 2 * numChannels)%nat with (List.length (take offset view ++ frame))
      by (rewrite length_app, Htake, Hframe; reflexivity).
    rewrite (app_assoc (take offset view) frame).
    rewrite take_app_length, drop_app_add, drop_drop.
    rewrite length_app, Htake, Hframe.
    rewrite <- !app_assoc.
    do 3 f_equal. f_equal. nia.
Qed.

Lemma gather_channels_from (buffer : AudioBuffer) : forall m a,
  (a + m)%nat = numberOfChannels buffer ->
  foldM (fun ch acc => let* data := getChannelData buffer ch in Return (acc ++ [data]))
        (seq a m) (take a (buf_channels buffer)) = Return (buf_channels buffer).
Proof.
  unfold numberOfChannels.
  induction m as [|m IH]; intros a Ham; simpl.
  - rewrite take_ge by lia. reflexivity.
  - destruct (lookup_lt_is_Some_2 (buf_channels buffer) a ltac:(lia)) as [data Hdata].
    rewrite (getChannelData_nth buffer a data Hdata). simpl.
    rewrite <- (take_S_r _ a data Hdata). apply IH. lia.
Qed.

(** The encoder never fails: the blob is the header followed by the data. *)
Lemma audioBufferToWav_exact (buffer : AudioBuffer) :
  let numChannels := Z.of_nat (numberOfChannels buffer) in
  let blockAlign := numChannels * 2 in
  let dataLength := Z.of_nat (buf_length buffer) * blockAlign in
  audioBufferToWav buffer =
    Return {| blob_bytes :=
                wav_header numChannels (buf_sampleRate buffer)
                  (buf_sampleRate buffer * inject_Z blockAlign) blockAlign dataLength
                ++ wav_data buffer;
              blob_type := "audio/wav" |}.
Proof.
  intros numChannels blockAlign dataLength.
  unfold audioBufferToWav.
  change (16 / 8) with 2. fold numChannels. fold blockAlign. fold dataLength.
  replace (44 + dataLength - 8) with (36 + dataLength) by lia.
  assert (Hview : repeat 0 (Z.to_nat (44 + dataLength)) =
                  repeat 0 44 ++ repeat 0 (2 * numberOfChannels buffer * buf_length buffer)).
  { rewrite <- repeat_app. f_equal. subst dataLength blockAlign numChannels. lia. }
  rewrite Hview. clear Hview.
  set (rest := repeat 0 (2 * numberOfChannels buffer * buf_length buffer)).
  assert (Hrest : List.length rest = (2 * numberOfChannels buffer * buf_length buffer)%nat)
    by apply repeat_length.
  clearbody rest.
  let zeros := eval compute in (repeat 0 44) in change (repeat 0 44) with zeros.
  set (frames := forM (buf_length buffer)).
  cbn -[DataView.byte_of Num.trunc Z.add Z.mul Qmult inject_Z write_frame].
  subst frames.
  pose proof (gather_channels_from buffer (numberOfChannels buffer) 0 eq_refl) as Hgather.
  rewrite take_0 in Hgather. rewrite Hgather. clear Hgather.
  cbn [obind]. unfold forM.
  rewrite write_frames_exact by (cbn [List.length]; rewrite Hrest; lia).
  cbn [obind]. do 2 f_equal.
  rewrite drop_ge by (cbn [List.length]; rewrite Hrest; lia).
  rewrite app_nil_r. reflexivity.
Qed.

Lemma flat_map_chunk_lookup {A B : Type} (f : A -> list B) (k : nat) :
  (forall x, List.length (f x) = k) ->
  forall (l : list A) (i j : nat) (x : A),
  l !! i = Some x -> (j < k)%nat ->
  flat_map f l !! (i * k + j)%nat = f x !! j.
Proof.
  intros Hk. induction l as [|a l IH]; intros i j x Hi Hj; [discriminate|].
  simpl. destruct i as [|i]; simpl in Hi.
  - injection Hi as ->. simpl. apply lookup_app_l. rewrite Hk. exact Hj.
  - rewrite lookup_app_r by (rewrite Hk; simpl; lia).
    rewrite Hk. replace (S i * k + j - k)%nat with (i * k + j)%nat by (simpl; lia).
    apply IH; assumption.
Qed.

Lemma wav_data_length (buffer : AudioBuffer) :
  List.length (wav_data buffer) = (2 * numberOfChannels buffer * buf_length buffer)%nat.
Proof.
  unfold wav_data.
  assert (H : forall a n,
            List.length (flat_map (frame_bytes (buf_channels buffer) (numberOfChannels buffer))
                           (seq a n)) = (2 * numberOfChannels buffer * n)%nat).
  { intros a n. revert a. induction n as [|n IH]; intros a; simpl; [lia|].
    rewrite length_app, frame_bytes_length, IH. lia. }
  apply H.
Qed.

(** The two bytes of sample [ch] of frame [i]. *)
Lemma wav_data_sample (buffer : AudioBuffer) (i ch : nat) :
  (i < buf_length buffer)%nat -> (ch < numberOfChannels buffer)%nat ->
  let value := encode_sample (sample_at (nth ch (buf_channels buffer) []) (Z.of_nat i)) in
  let offset := (2 * (i * numberOfChannels buffer + ch))%nat in
  wav_data buffer !! offset = Some (DataView.byte_of value 0) /\
  wav_data buffer !! S offset = Some (DataView.byte_of value 1).
Proof.
  intros Hi Hch value offset.
  assert (Hbyte : forall b, (b < 2)%nat ->
            wav_data buffer !! (offset + b)%nat = sample_bytes value !! b).
  { intros b Hb. unfold wav_data.
    replace (offset + b)%nat
      with (i * (2 * numberOfChannels buffer) + (ch * 2 + b))%nat by (subst offset; lia).
    rewrite (flat_map_chunk_lookup _ (2 * numberOfChannels buffer)
               (frame_bytes_length _ _) _ i (ch * 2 + b) i).
    - unfold frame_bytes.
      rewrite (flat_map_chunk_lookup
                 (fun ch => sample_bytes
                    (encode_sample (sample_at (nth ch (buf_channels buffer) []) (Z.of_nat i))))
                 2 (fun _ => eq_refl) _ ch b ch);
        [reflexivity| |exact Hb].
      rewrite lookup_seq. split; [reflexivity|exact Hch].
    - rewrite lookup_seq. split; [reflexivity|exact Hi].
    - lia. }
  split.
  - rewrite <- (Nat.add_0_r offset). apply (Hbyte 0%nat). lia.
  - replace (S offset) with (offset + 1)%nat by lia. apply (Hbyte 1%nat). lia.
Qed.

Lemma audioBufferToWav_length (buffer : AudioBuffer) :
  exists wav,
    audioBufferToWav buffer = Return wav /\
    Z.of_nat (List.length (blob_bytes wav)) =
      44 + 2 * Z.of_nat (numberOfChannels buffer) * Z.of_nat (buf_length buffer).
Proof.
  eexists. split; [apply audioBufferToWav_exact|]. cbn [blob_bytes].
  rewrite length_app, wav_data_length. cbn [wav_header List.length]. lia.
Qed.

Lemma trunc_inject_Z_mul (a b : Z) : Num.trunc (inject_Z a * inject_Z b) = a * b.
Proof. unfold Num.trunc. simpl. apply Z.quot_1_r. Qed.

Lemma trunc_inject_Z (a : Z) : Num.trunc (inject_Z a) = a.
Proof. unfold Num.trunc. simpl. apply Z.quot_1_r. Qed.

Lemma Qle_bool_false (a b : Q) : Qle_bool a b = false <-> (b < a)%Q.
Proof.
  split.
  - intros H. apply Qnot_le_lt. intros Hle. apply Qle_bool_iff in Hle. congruence.
  - intros H. destruct (Qle_bool a b) eqn:E; [|reflexivity].
    apply Qle_bool_iff in E. exfalso. exact (Qlt_not_le _ _ H E).
Qed.

(** Truncation toward zero is [floor] from 0 up and the mirror of [floor]
    below 0. *)
Lemma trunc_nonneg (x : Q) : (0 <= x)%Q -> Num.trunc x = Qfloor x.
Proof.
  destruct x as [n d]. unfold Qle, Num.trunc, Qfloor. simpl. intros Hn.
  apply Z.quot_div_nonneg; lia.
Qed.

Lemma trunc_opp (x : Q) : Num.trunc (- x) = - Num.trunc x.
Proof. destruct x as [n d]. unfold Num.trunc. simpl. apply Z.quot_opp_l. lia. Qed.

Lemma clamp_sample_cases (x : Q) :
  ((1 <= x)%Q /\ clamp_sample x = 1%Q) \/
  ((x <= -1)%Q /\ clamp_sample x = (-1)%Q) \/
  ((-1 < x < 1)%Q /\ clamp_sample x = x).
Proof.
  unfold clamp_sample.
  destruct (Qle_bool 1 x) eqn:Hhigh.
  - apply Qle_bool_iff in Hhigh. left. split; [exact Hhigh|reflexivity].
  - apply Qle_bool_false in Hhigh.
    destruct (Qle_bool x (-1)) eqn:Hlow.
    + apply Qle_bool_iff in Hlow. right. left. split; [exact Hlow|reflexivity].
    + apply Qle_bool_false in Hlow. right. right. split; [split; assumption|reflexivity].
Qed.

Lemma scale_sample_cases (s : Q) :
  ((s < 0)%Q /\ scale_sample s = (s * 32768)%Q) \/
  ((0 <= s)%Q /\ scale_sample s = (s * 32767)%Q).
Proof.
  unfold scale_sample. destruct (Num.ltb s 0) eqn:Hneg.
  - apply ltb_true in Hneg. left. split; [exact Hneg|reflexivity].
  - right. split; [|reflexivity].
    apply Qnot_lt_le. intros Hlt. apply ltb_true in Hlt. congruence.
Qed.

(** What the encoder makes of a sample [x]: the clamp is the identity
    strictly inside [-1, 1] and the nearest bound outside; the 16-bit value is
    [x * 32767] rounded down from 0 up, [x * 32768] rounded up below 0, and
    the extreme values outside. *)
Lemma encode_sample_cases (x : Q) :
  ((1 <= x)%Q -> clamp_sample x = 1%Q /\ encode_sample x = 32767) /\
  ((x <= -1)%Q -> clamp_sample x = (-1)%Q /\ encode_sample x = -32768) /\
  ((-1 < x < 1)%Q -> clamp_sample x = x) /\
  ((0 <= x < 1)%Q ->
   encode_sample x = Num.trunc (x * 32767)%Q /\
   (inject_Z (encode_sample x) <= x * 32767 < inject_Z (encode_sample x) + 1)%Q) /\
  ((-1 < x < 0)%Q ->
   encode_sample x = Num.trunc (x * 32768)%Q /\
   (x * 32768 <= inject_Z (encode_sample x) < x * 32768 + 1)%Q).
Proof.
  assert (Hinside : (-1 < x < 1)%Q -> clamp_sample x = x).
  { intros Hx. destruct (clamp_sample_cases x) as [[H _]|[[H _]|[_ H]]]; [lra|lra|exact H]. }
  split; [|split; [|split; [exact Hinside|split]]].
  - intros Hx. unfold encode_sample.
    destruct (clamp_sample_cases x) as [[_ ->]|[[H _]|[H _]]];
      [split; reflexivity|lra|lra].
  - intros Hx. unfold encode_sample.
    destruct (clamp_sample_cases x) as [[H _]|[[_ ->]|[H _]]];
      [lra|split; reflexivity|lra].
  - intros Hx. unfold encode_sample. rewrite Hinside by lra.
    destruct (scale_sample_cases x) as [[H _]|[_ ->]]; [lra|].
    split; [reflexivity|].
    rewrite trunc_nonneg by lra.
    pose proof (Qfloor_le (x * 32767)) as Hlow.
    pose proof (Qlt_floor (x * 32767)) as Hhigh.
    rewrite inject_Z_plus in Hhigh. change (inject_Z 1) with 1%Q in Hhigh.
    split; assumption.
  - intros Hx. unfold encode_sample. rewrite Hinside by lra.
    destruct (scale_sample_cases x) as [[_ ->]|[H _]]; [|lra].
    split; [reflexivity|].
    pose proof (trunc_opp (x * 32768)) as Hopp.
    rewrite trunc_nonneg in Hopp by lra.
    pose proof (Qfloor_le (- (x * 32768))) as Hlow.
    pose proof (Qlt_floor (- (x * 32768))) as Hhigh.
    rewrite inject_Z_plus in Hhigh. change (inject_Z 1) with 1%Q in Hhigh.
    replace (Num.trunc (x * 32768)) with (- Qfloor (- (x * 32768))) by lia.
    rewrite inject_Z_opp. split; lra.
Qed.

(** C10.  [audioBufferToWav] always returns a blob of
    [44 + 2 * numChannels * frameCount] bytes of type audio/wav.  Its header
    holds [blockAlign = 2 * numChannels] at offset 32 and
    [byteRate = sampleRate * blockAlign] at offset 28, as 16- and 32-bit
    little-endian fields (exactly so whenever the values fit the fields, the
    sample rate being a whole number of hertz).  Every sample [x] is clamped
    to [-1, 1] (to 1 from 1 up, to -1 from -1 down, and left as it is in
    between) and scaled by 0x8000 below zero and by 0x7fff otherwise: the
    value written is 32767 for [1 <= x], -32768 for [x <= -1], [x * 32767]
    less its fraction for [0 <= x < 1] and [x * 32768] less its fraction for
    [-1 < x < 0].  What [setInt16] receives is a signed 16-bit integer, and
    it is the value read back from the sample's place in the blob. *)
Theorem audioBufferToWav_layout (buffer : AudioBuffer) :
  let numChannels := Z.of_nat (numberOfChannels buffer) in
  let frameCount := Z.of_nat (buf_length buffer) in
  exists wav,
    audioBufferToWav buffer = Return wav /\
    blob_type wav = "audio/wav"%string /\
    Z.of_nat (List.length (blob_bytes wav)) = 44 + 2 * numChannels * frameCount /\
    DataView.getUint16 32 (blob_bytes wav) = (2 * numChannels) mod 65536 /\
    DataView.getUint32 28 (blob_bytes wav) =
      Num.trunc (buf_sampleRate buffer * inject_Z (2 * numChannels)) mod 4294967296 /\
    (forall rate : Z,
       buf_sampleRate buffer = inject_Z rate ->
       0 <= rate ->
       2 * numChannels < 65536 ->
       rate * (2 * numChannels) < 4294967296 ->
       DataView.getUint16 22 (blob_bytes wav) = numChannels /\
       DataView.getUint16 32 (blob_bytes wav) = 2 * numChannels /\
       DataView.getUint32 28 (blob_bytes wav) = rate * DataView.getUint16 32 (blob_bytes wav)) /\
    (forall i ch : nat,
       (i < buf_length buffer)%nat ->
       (ch < numberOfChannels buffer)%nat ->
       let x := sample_at (nth ch (buf_channels buffer) []) (Z.of_nat i) in
       let sample := clamp_sample x in
       (-1 <= sample <= 1)%Q /\
       ((1 <= x)%Q -> sample = 1%Q /\ encode_sample x = 32767) /\
       ((x <= -1)%Q -> sample = (-1)%Q /\ encode_sample x = -32768) /\
       ((-1 < x < 1)%Q -> sample = x) /\
       ((0 <= x < 1)%Q ->
        encode_sample x = Num.trunc (x * 32767)%Q /\
        (inject_Z (encode_sample x) <= x * 32767 < inject_Z (encode_sample x) + 1)%Q) /\
       ((-1 < x < 0)%Q ->
        encode_sample x = Num.trunc (x * 32768)%Q /\
        (x * 32768 <= inject_Z (encode_sample x) < x * 32768 + 1)%Q) /\
       encode_sample x =
         Num.trunc (if Num.ltb sample 0 then sample * 32768 else sample * 32767)%Q /\
       -32768 <= encode_sample x <= 32767 /\
       DataView.getInt16 (44 + 2 * (i * numberOfChannels buffer + ch)) (blob_bytes wav)
       = encode_sample x).
Proof.
  intros numChannels frameCount.
  pose proof (audioBufferToWav_exact buffer) as Hrun.
  cbv zeta in Hrun. fold numChannels in Hrun.
  replace (numChannels * 2) with (2 * numChannels) in Hrun by lia.
  eexists. split; [exact Hrun|]. cbn [blob_bytes blob_type].
  split; [reflexivity|]. split.
  { rewrite length_app, wav_data_length. cbn [wav_header List.length].
    subst numChannels frameCount. lia. }
  assert (H16 : DataView.getUint16 32
                  (wav_header numChannels (buf_sampleRate buffer)
                     (buf_sampleRate buffer * inject_Z (2 * numChannels)) (2 * numChannels)
                     (Z.of_nat (buf_length buffer) * (2 * numChannels)) ++ wav_data buffer)
                = (2 * numChannels) mod 65536) by apply bytes_uint16.
  assert (H32 : DataView.getUint32 28
                  (wav_header numChannels (buf_sampleRate buffer)
                     (buf_sampleRate buffer * inject_Z (2 * numChannels)) (2 * numChannels)
                     (Z.of_nat (buf_length buffer) * (2 * numChannels)) ++ wav_data buffer)
                = Num.trunc (buf_sampleRate buffer * inject_Z (2 * numChannels))
                  mod 4294967296) by apply bytes_uint32.
  split; [exact H16|]. split; [exact H32|]. split.
  - intros rate Hrate Hpos Hchannels Hbytes.
    assert (Hn : 0 <= numChannels) by (subst numChannels; lia).
    rewrite H16, H32, Hrate, trunc_inject_Z_mul.
    rewrite (Z.mod_small (2 * numChannels)) by lia.
    rewrite Z.mod_small by nia.
    split; [|split; reflexivity].
    change (DataView.byte_of numChannels 0 + 256 * DataView.byte_of numChannels 1
            = numChannels).
    rewrite bytes_uint16. apply Z.mod_small. lia.
  - intros i ch Hi Hch.
    split; [apply clamp_sample_range|].
    destruct (encode_sample_cases
                (sample_at (nth ch (buf_channels buffer) []) (Z.of_nat i)))
      as [Hhigh' [Hlow' [Hinside [Hup Hdown]]]].
    split; [exact Hhigh'|]. split; [exact Hlow'|]. split; [exact Hinside|].
    split; [exact Hup|]. split; [exact Hdown|].
    split; [reflexivity|].
    split; [apply encode_sample_range|].
    destruct (wav_data_sample buffer i ch Hi Hch) as [Hlow Hhigh].
    cbv zeta in Hlow, Hhigh.
    unfold DataView.getInt16, DataView.getUint16, DataView.getUint8.
    cbn [wav_header Nat.add app nth].
    rewrite (nth_lookup_Some _ _ 0 _ Hlow), (nth_lookup_Some _ _ 0 _ Hhigh).
    apply int16_of_bytes, encode_sample_range.
Qed.

(** A stereo buffer of three frames at 44.1 kHz.  The samples 3 and -2
    lie outside [-1, 1] and are written as 32767 and -32768; 1/2 is written
    as 16383 (16383.5 less its fraction) and -1/3 as -10922 (-10922.67 less
    its fraction). *)
Lemma audioBufferToWav_layout_witness :
  let buffer := {| buf_sampleRate := 44100; buf_length := 3;
                   buf_channels := [[1 # 2; -2; 0]; [3; -(1 # 3); 1]]%Q |} in
  exists wav,
    audioBufferToWav buffer = Return wav /\
    List.length (blob_bytes wav) = 56%nat /\
    DataView.getUint16 32 (blob_bytes wav) = 4 /\
    DataView.getUint32 28 (blob_bytes wav) = 176400 /\
    DataView.getInt16 44 (blob_bytes wav) = 16383 /\
    DataView.getInt16 46 (blob_bytes wav) = 32767 /\
    DataView.getInt16 48 (blob_bytes wav) = -32768 /\
    DataView.getInt16 50 (blob_bytes wav) = -10922.
Proof.
  intros buffer.
  destruct (audioBufferToWav_layout buffer)
    as [wav [Hrun [_ [Hlength [_ [_ [Hfields Hsamples]]]]]]].
  destruct (Hfields 44100) as [_ [Halign Hrate]];
    [reflexivity|discriminate|reflexivity|reflexivity|].
  assert (Hframes : forall i ch : nat, (i < 3)%nat -> (ch < 2)%nat ->
                      (i < buf_length buffer)%nat /\ (ch < numberOfChannels buffer)%nat)
    by (intros i ch Hi Hch; split; [exact Hi|exact Hch]).
  destruct (Hframes 0%nat 0%nat ltac:(lia) ltac:(lia)) as [Hi0 Hc0].
  destruct (Hframes 1%nat 1%nat ltac:(lia) ltac:(lia)) as [Hi1 Hc1].
  destruct (Hsamples 0%nat 0%nat Hi0 Hc0) as [_ [_ [_ [_ [Hup00 [_ [_ [_ Hread00]]]]]]]].
  destruct (Hsamples 0%nat 1%nat Hi0 Hc1) as [_ [Hhigh01 [_ [_ [_ [_ [_ [_ Hread01]]]]]]]].
  destruct (Hsamples 1%nat 0%nat Hi1 Hc0) as [_ [_ [Hlow10 [_ [_ [_ [_ [_ Hread10]]]]]]]].
  destruct (Hsamples 1%nat 1%nat Hi1 Hc1) as [_ [_ [_ [_ [_ [Hdown11 [_ [_ Hread11]]]]]]]].
  exists wav. split; [exact Hrun|]. split; [|split; [|split; [|split; [|split; [|split]]]]].
  - apply Nat2Z.inj. rewrite Hlength. reflexivity.
  - exact Halign.
  - rewrite Hrate, Halign. reflexivity.
  - etransitivity; [exact Hread00|].
    etransitivity; [apply Hup00; split; [discriminate|reflexivity]|reflexivity].
  - etransitivity; [exact Hread01|]. apply Hhigh01. discriminate.
  - etransitivity; [exact Hread10|]. apply Hlow10. discriminate.
  - etransitivity; [exact Hread11|].
    etransitivity; [apply Hdown11; split; reflexivity|reflexivity].
Defined.

(** ** The copy loops *)

Lemma copy_channel_from (original : list Q) (speechStart : Z) : forall m a target,
  List.length target = (a + m)%nat ->
  fold_left
    (fun target i => <[i := sample_at original (speechStart + Z.of_nat i)]> target)
    (seq a m) target =
  take a target ++ map (fun i => sample_at original (speechStart + Z.of_nat i)) (seq a m).
Proof.
  induction m as [|m IH]; intros a target Hlen; simpl.
  - rewrite app_nil_r. rewrite take_ge; [reflexivity|lia].
  - rewrite IH by (rewrite length_insert; lia).
    rewrite (take_S_r _ a (sample_at original (speechStart + Z.of_nat a))).
    + rewrite take_insert_ge by lia. rewrite <- app_assoc. reflexivity.
    + apply list_lookup_insert_eq. lia.
Qed.

Lemma copy_channel_zeroed original speechStart n :
  copy_channel original (repeat 0%Q n) speechStart n =
  map (fun i => sample_at original (speechStart + Z.of_nat i)) (seq 0 n).
Proof.
  unfold copy_channel. rewrite copy_channel_from by (rewrite repeat_length; lia).
  reflexivity.
Qed.

Section CopyTrimmed.

Variable audioBuffer : AudioBuffer.
Variable speechStart : Z.
Variable n : nat.

Local Abbreviation copied :=
  (fun original : list Q =>
     map (fun i => sample_at original (speechStart + Z.of_nat i)) (seq 0 n)).

Local Abbreviation body :=
  (fun (ch : nat) (trimmedBuffer : AudioBuffer) =>
     let* original := getChannelData audioBuffer ch in
     let* target := getChannelData trimmedBuffer ch in
     Return {| buf_sampleRate := buf_sampleRate trimmedBuffer;
               buf_length := buf_length trimmedBuffer;
               buf_channels :=
                 <[ch := copy_channel original target speechStart n]>
                   (buf_channels trimmedBuffer) |}).

Lemma copy_trimmed_from : forall m a rate,
  (a + m)%nat = numberOfChannels audioBuffer ->
  foldM body (seq a m)
    {| buf_sampleRate := rate; buf_length := n;
       buf_channels := map copied (take a (buf_channels audioBuffer))
                       ++ repeat (repeat 0%Q n) m |} =
  Return {| buf_sampleRate := rate; buf_length := n;
            buf_channels := map copied (buf_channels audioBuffer) |}.
Proof.
  unfold numberOfChannels.
  induction m as [|m IH]; intros a rate Ham; simpl.
  - rewrite app_nil_r. rewrite take_ge by lia. reflexivity.
  - destruct (lookup_lt_is_Some_2 (buf_channels audioBuffer) a ltac:(lia)) as [original Ho].
    rewrite (getChannelData_nth audioBuffer a original Ho). simpl.
    assert (Hla : List.length (map copied (take a (buf_channels audioBuffer))) = a)
      by (rewrite length_map, length_take; lia).
    rewrite (getChannelData_nth _ a (repeat 0%Q n)).
    2: { simpl. rewrite lookup_app_r by lia. rewrite Hla, Nat.sub_diag. reflexivity. }
    simpl. rewrite copy_channel_zeroed.
    rewrite <- (IH (S a) rate) by lia. do 2 f_equal.
    rewrite (take_S_r _ a original Ho), map_app. simpl.
    rewrite <- app_assoc. simpl.
    rewrite insert_app_r_alt by lia. rewrite Hla, Nat.sub_diag. reflexivity.
Qed.

End CopyTrimmed.

Section TrimmerFacts.

Variable decodeAudioData : Blob -> option AudioBuffer.
Variable createBuffer_supported : nat -> Z -> Q -> bool.

Local Abbreviation trimSilence' := (trimSilence decodeAudioData createBuffer_supported).
Local Abbreviation trimSilence_try' :=
  (trimSilence_try decodeAudioData createBuffer_supported).
Local Abbreviation trimLeadingSilence' :=
  (trimLeadingSilence decodeAudioData createBuffer_supported).
Local Abbreviation createBuffer' := (createBuffer createBuffer_supported).

(** The buffer the copy loops produce is the trimmed range. *)
Lemma copy_trimmed_range audioBuffer channels trimmedSamples sampleRate buffer speechStart :
  channels = numberOfChannels audioBuffer ->
  sampleRate = buf_sampleRate audioBuffer ->
  createBuffer' channels trimmedSamples sampleRate = Return buffer ->
  0 < trimmedSamples /\
  copy_trimmed audioBuffer buffer speechStart trimmedSamples =
    Return (trimmed_range audioBuffer speechStart (Z.to_nat trimmedSamples)).
Proof.
  intros -> -> Hcreate. unfold createBuffer in Hcreate.
  destruct (Nat.ltb_spec 0 (numberOfChannels audioBuffer)) as [Hch|Hch]; [|discriminate].
  destruct (Z.ltb_spec 0 trimmedSamples) as [Hlen|Hlen]; [|discriminate].
  simpl in Hcreate. destruct (createBuffer_supported _ _ _); [|discriminate].
  injection Hcreate as <-. split; [exact Hlen|].
  unfold copy_trimmed, forM, trimmed_range.
  apply (copy_trimmed_from audioBuffer speechStart (Z.to_nat trimmedSamples)
           (numberOfChannels audioBuffer) 0%nat (buf_sampleRate audioBuffer)).
  reflexivity.
Qed.

(** What [trimSilence] can return: the original blob with no trim reported,
    or the re-encoded speech range. *)
Lemma trimSilence_inv audioBlob config r :
  trimSilence' audioBlob config = Return r ->
  r = passthrough audioBlob \/
  exists audioBuffer samples speechStart speechEnd,
    decodeAudioData audioBlob = Some audioBuffer /\
    mono_samples audioBuffer = Return samples /\
    reencoded audioBuffer samples (merge_config DEFAULT_CONFIG config)
      speechStart speechEnd r.
Proof.
  unfold trimSilence, trimSilence_try, decode.
  set (cfg := merge_config DEFAULT_CONFIG config).
  destruct (decodeAudioData audioBlob) as [audioBuffer|] eqn:Hdecode;
    [|simpl; intros [= <-]; left; reflexivity].
  cbn [obind].
  destruct (mono_samples audioBuffer) as [| |samples] eqn:Hmono;
    [discriminate|simpl; intros [= <-]; left; reflexivity|].
  cbn [obind].
  destruct (findSpeechStart samples (buf_sampleRate audioBuffer) cfg)
    as [speechStart|] eqn:Hstart; [|discriminate].
  cbn [obind of_fuel].
  assert (Hend : (if cfg_trimTrailing cfg
                  then of_fuel (findSpeechEnd samples (buf_sampleRate audioBuffer) cfg)
                  else Return (Z.of_nat (List.length samples)))
                 = of_fuel (speech_end_of samples (buf_sampleRate audioBuffer) cfg)).
  { unfold speech_end_of. destruct (cfg_trimTrailing cfg); reflexivity. }
  rewrite Hend. clear Hend.
  destruct (speech_end_of samples (buf_sampleRate audioBuffer) cfg)
    as [speechEnd|] eqn:Hspeech; [|discriminate].
  cbn [obind of_fuel].
  destruct (Z.ltb_spec (speechEnd - speechStart)
              (Num.floor (buf_sampleRate audioBuffer * cfg_minAudioDuration cfg)))
    as [Hshort|Hlong]; [simpl; intros [= <-]; left; reflexivity|].
  destruct ((speechStart =? 0) && (speechEnd =? Z.of_nat (List.length samples))) eqn:Hsame;
    [simpl; intros [= <-]; left; reflexivity|].
  destruct (createBuffer' (numberOfChannels audioBuffer) (speechEnd - speechStart)
              (buf_sampleRate audioBuffer)) as [| |buffer] eqn:Hcreate;
    [discriminate|simpl; intros [= <-]; left; reflexivity|].
  destruct (copy_trimmed_range audioBuffer _ _ _ buffer speechStart eq_refl eq_refl Hcreate)
    as [Hframes Hcopy].
  cbn [obind]. rewrite Hcopy. cbn [obind].
  destruct (audioBufferToWav _) as [| |wavBlob] eqn:Hwav;
    [discriminate|simpl; intros [= <-]; left; reflexivity|].
  simpl. intros [= <-]. right.
  exists audioBuffer, samples, speechStart, speechEnd.
  split; [reflexivity|]. split; [exact Hmono|].
  constructor; try assumption; try reflexivity.
  apply andb_false_iff in Hsame. destruct Hsame as [H|H]; [left|right];
    apply Z.eqb_neq in H; exact H.
Qed.

Lemma round_zero (sampleRate : Q) : Num.round (inject_Z 0 / sampleRate * 1000) = 0.
Proof.
  unfold Num.round.
  assert (H : (inject_Z 0 / sampleRate * 1000 + (1 # 2) == 1 # 2)%Q)
    by (unfold Qdiv; ring).
  rewrite H. reflexivity.
Qed.

(** With a positive window, [trimSilence] returns for every blob. *)
Lemma trimSilence_returns audioBlob config :
  (forall audioBuffer,
     decodeAudioData audioBlob = Some audioBuffer ->
     0 < window_samples (buf_sampleRate audioBuffer) (merge_config DEFAULT_CONFIG config)) ->
  exists r, trimSilence' audioBlob config = Return r.
Proof.
  intros Hwindow.
  unfold trimSilence, trimSilence_try, decode.
  set (cfg := merge_config DEFAULT_CONFIG config) in *.
  destruct (decodeAudioData audioBlob) as [audioBuffer|] eqn:Hdecode; [|simpl; eauto].
  specialize (Hwindow audioBuffer eq_refl).
  cbn [obind].
  destruct (mono_samples audioBuffer) as [| |samples] eqn:Hmono.
  - exfalso. unfold mono_samples, getChannelData in Hmono.
    destruct (_ =? _)%nat; repeat (destruct (_ !! _); simpl in Hmono); discriminate.
  - simpl. eauto.
  - cbn [obind].
    destruct (findSpeechStart_returns samples _ cfg Hwindow) as [speechStart ->].
    cbn [obind of_fuel].
    destruct (findSpeechEnd_returns samples _ cfg Hwindow) as [speechEnd Hend].
    rewrite Hend.
    assert (Htotal : forall e : Z, exists r,
      try_catch
        (let minSamples := Num.floor (buf_sampleRate audioBuffer * cfg_minAudioDuration cfg) in
         let trimmedSamples := e - speechStart in
         if trimmedSamples <? minSamples then Return (passthrough audioBlob)
         else if (speechStart =? 0) && (e =? Z.of_nat (List.length samples))
         then Return (passthrough audioBlob)
         else
           let* trimmedBuffer :=
             createBuffer' (numberOfChannels audioBuffer) trimmedSamples
               (buf_sampleRate audioBuffer) in
           let* trimmedBuffer :=
             copy_trimmed audioBuffer trimmedBuffer speechStart trimmedSamples in
           let* wavBlob := audioBufferToWav trimmedBuffer in
           Return {| blob := wavBlob;
                     trimmedLeadingMs :=
                       Num.round (inject_Z speechStart / buf_sampleRate audioBuffer * 1000);
                     trimmedTrailingMs :=
                       Z.max 0 (Num.round (inject_Z (Z.of_nat (List.length samples) - e)
                                           / buf_sampleRate audioBuffer * 1000)) |})
        (Return (passthrough audioBlob)) = Return r).
    { intros e. cbv zeta.
      destruct (_ <? _); [simpl; eauto|].
      destruct (_ && _); [simpl; eauto|].
      destruct (createBuffer' _ _ _) as [| |buffer] eqn:Hcreate.
      - unfold createBuffer in Hcreate. destruct (_ && _); discriminate.
      - simpl. eauto.
      - destruct (copy_trimmed_range audioBuffer _ _ _ buffer speechStart eq_refl eq_refl
                    Hcreate) as [_ Hcopy].
        cbn [obind]. rewrite Hcopy. cbn [obind].
        rewrite audioBufferToWav_exact. simpl. eauto. }
    destruct (cfg_trimTrailing cfg); cbn [obind of_fuel]; apply Htotal.
Qed.

(** C1 (as amended).  Whatever [trimSilence] returns is the original blob
    with no trim reported, or a re-encoding of at least
    [floor (sampleRate * minAudioDuration)] frames; and when the computed
    boundaries are 0 and the full sample length it returns the original blob
    with [trimmedLeadingMs = 0] and [trimmedTrailingMs = 0]. *)
Theorem trimSilence_keeps_minimum (audioBlob : Blob) (config : TrimConfig) :
  let cfg := merge_config DEFAULT_CONFIG config in
  (forall r,
     trimSilence' audioBlob config = Return r ->
     (blob r = audioBlob /\ trimmedLeadingMs r = 0 /\ trimmedTrailingMs r = 0) \/
     exists audioBuffer trimmedBuffer,
       decodeAudioData audioBlob = Some audioBuffer /\
       audioBufferToWav trimmedBuffer = Return (blob r) /\
       buf_sampleRate trimmedBuffer = buf_sampleRate audioBuffer /\
       min_audio_samples (buf_sampleRate audioBuffer) cfg <= Z.of_nat (buf_length trimmedBuffer) /\
       Z.of_nat (List.length (blob_bytes (blob r))) =
         44 + 2 * Z.of_nat (numberOfChannels audioBuffer) * Z.of_nat (buf_length trimmedBuffer)) /\
  (forall audioBuffer samples,
     decodeAudioData audioBlob = Some audioBuffer ->
     mono_samples audioBuffer = Return samples ->
     findSpeechStart samples (buf_sampleRate audioBuffer) cfg = Some 0 ->
     speech_end_of samples (buf_sampleRate audioBuffer) cfg
       = Some (Z.of_nat (List.length samples)) ->
     trimSilence' audioBlob config =
       Return {| blob := audioBlob; trimmedLeadingMs := 0; trimmedTrailingMs := 0 |}).
Proof.
  intros cfg. split.
  - intros r Hrun.
    destruct (trimSilence_inv audioBlob config r Hrun)
      as [->|[audioBuffer [samples [speechStart [speechEnd [Hdecode [_ Hre]]]]]]];
      [left; auto|right].
    destruct Hre.
    exists audioBuffer,
      (trimmed_range audioBuffer speechStart (Z.to_nat (speechEnd - speechStart))).
    split; [exact Hdecode|]. split; [assumption|]. split; [reflexivity|].
    split; [simpl; fold cfg in re_minimum0; lia|].
    destruct (audioBufferToWav_length
                (trimmed_range audioBuffer speechStart (Z.to_nat (speechEnd - speechStart))))
      as [wav [Hwav Hlength]].
    rewrite re_wav0 in Hwav. injection Hwav as <-.
    rewrite Hlength. unfold numberOfChannels, trimmed_range. simpl.
    rewrite length_map. reflexivity.
  - intros audioBuffer samples Hdecode Hmono Hstart Hend.
    unfold trimSilence, trimSilence_try, decode.
    fold cfg. rewrite Hdecode. cbn [obind]. rewrite Hmono. cbn [obind].
    rewrite Hstart. cbn [obind of_fuel].
    unfold speech_end_of in Hend.
    destruct (cfg_trimTrailing cfg); [rewrite Hend|]; cbn [obind of_fuel];
      rewrite Z.eqb_refl; cbn zeta; rewrite Z.eqb_refl; simpl;
      destruct (_ <? _); reflexivity.
Qed.

(** C3.  [trimSilence] never raises: an exception anywhere in its body,
    such as a blob that does not decode, a buffer without channels or a
    refused [createBuffer], is answered with the original blob and no trim
    reported; and with a positive window it always returns. *)
Theorem trimSilence_never_throws (audioBlob : Blob) (config : TrimConfig) :
  let cfg := merge_config DEFAULT_CONFIG config in
  let unchanged := {| blob := audioBlob; trimmedLeadingMs := 0; trimmedTrailingMs := 0 |} in
  trimSilence' audioBlob config <> Throw /\
  (trimSilence_try' audioBlob cfg = Throw -> trimSilence' audioBlob config = Return unchanged) /\
  (decodeAudioData audioBlob = None -> trimSilence' audioBlob config = Return unchanged) /\
  ((forall audioBuffer,
      decodeAudioData audioBlob = Some audioBuffer ->
      0 < window_samples (buf_sampleRate audioBuffer) cfg) ->
   exists r, trimSilence' audioBlob config = Return r).
Proof.
  intros cfg unchanged. split; [|split; [|split]].
  - unfold trimSilence, try_catch.
    destruct (trimSilence_try _ _ _ _); discriminate.
  - intros Hthrow. unfold trimSilence. fold cfg. rewrite Hthrow. reflexivity.
  - intros Hdecode. unfold trimSilence, trimSilence_try, decode.
    rewrite Hdecode. reflexivity.
  - apply trimSilence_returns.
Qed.

(** A result cut at the full length reports no trailing trim. *)
Lemma reencoded_full_length audioBuffer samples cfg speechStart r :
  reencoded audioBuffer samples cfg speechStart (Z.of_nat (List.length samples)) r ->
  trimmedTrailingMs r = 0.
Proof.
  intros [_ _ _ _ _ _ _ Htrailing]. rewrite Htrailing, Z.sub_diag, round_zero. reflexivity.
Qed.

(** C8.  When the backward scan meets [k] windows of silence that add up
    to more than [maxTrailingTrim] (in whole samples, which every run longer
    than [maxTrailingTrim] seconds is) before any speech or decrescendo window,
    [findSpeechEnd] returns the full sample length, and [trimSilence] cuts
    nothing at the end: it reports [trimmedTrailingMs = 0] and what it
    returns is the original blob or a range that runs to the last sample. *)
Theorem trimSilence_over_cap_keeps_tail (audioBlob : Blob) (config : TrimConfig)
    (audioBuffer : AudioBuffer) (samples : list Q) (k : nat) :
  let cfg := merge_config DEFAULT_CONFIG config in
  let sampleRate := buf_sampleRate audioBuffer in
  let w := window_samples sampleRate cfg in
  let len := Z.of_nat (List.length samples) in
  decodeAudioData audioBlob = Some audioBuffer ->
  mono_samples audioBuffer = Return samples ->
  0 < w ->
  (forall j, (j < k)%nat -> end_window_speech samples w (end_threshold cfg) j = false) ->
  max_trailing_samples sampleRate cfg < Z.of_nat k * w ->
  findSpeechEnd samples sampleRate cfg = Some len /\
  exists r,
    trimSilence' audioBlob config = Return r /\
    trimmedTrailingMs r = 0 /\
    (r = passthrough audioBlob \/
     exists speechStart, reencoded audioBuffer samples cfg speechStart len r).
Proof.
  intros cfg sampleRate w len Hdecode Hmono Hw Hsilent Hcap.
  assert (Hend : findSpeechEnd samples sampleRate cfg = Some len)
    by (apply (findSpeechEnd_over_cap samples sampleRate cfg k); assumption).
  split; [exact Hend|].
  destruct (trimSilence_returns audioBlob config) as [r Hrun].
  { intros audioBuffer' Hdecode'. rewrite Hdecode in Hdecode'.
    injection Hdecode' as <-. exact Hw. }
  exists r. split; [exact Hrun|].
  destruct (trimSilence_inv audioBlob config r Hrun)
    as [->|[audioBuffer' [samples' [speechStart [speechEnd [Hdecode' [Hmono' Hre]]]]]]].
  - split; [reflexivity|left; reflexivity].
  - rewrite Hdecode in Hdecode'. injection Hdecode' as <-.
    rewrite Hmono in Hmono'. injection Hmono' as <-.
    assert (speechEnd = len).
    { destruct Hre as [_ Hspeech _ _ _ _ _ _]. unfold speech_end_of in Hspeech.
      fold cfg sampleRate in Hspeech.
      destruct (cfg_trimTrailing cfg); [rewrite Hend in Hspeech|];
        injection Hspeech as <-; reflexivity. }
    subst speechEnd. split.
    + apply (reencoded_full_length audioBuffer samples cfg speechStart). exact Hre.
    + right. exists speechStart. exact Hre.
Qed.


End TrimmerFacts.

(** ** Defaults *)

(** C6.  Every option the caller leaves out takes its documented default,
    and every option the caller gives replaces the default. *)
Theorem merge_config_defaults (config : TrimConfig) :
  let cfg := merge_config DEFAULT_CONFIG config in
  cfg_silenceThreshold cfg = default (1 # 100)%Q (silenceThreshold config) /\
  cfg_endThresholdMultiplier cfg = default (6 # 10)%Q (endThresholdMultiplier config) /\
  cfg_windowSize cfg = default (5 # 100)%Q (windowSize config) /\
  cfg_minSilenceDuration cfg = default (2 # 10)%Q (minSilenceDuration config) /\
  cfg_trimTrailing cfg = default false (trimTrailing config) /\
  cfg_maxLeadingTrim cfg = default 3%Q (maxLeadingTrim config) /\
  cfg_maxTrailingTrim cfg = default 8%Q (maxTrailingTrim config) /\
  cfg_trailingPadding cfg = default (35 # 100)%Q (trailingPadding config) /\
  cfg_minAudioDuration cfg = default 1%Q (minAudioDuration config) /\
  forall decodeAudioData createBuffer_supported audioBlob,
    trimSilence decodeAudioData createBuffer_supported audioBlob config =
    try_catch (trimSilence_try decodeAudioData createBuffer_supported audioBlob cfg)
              (Return (passthrough audioBlob)).
Proof.
  destruct config as [[?|] [?|] [?|] [?|] [?|] [?|] [?|] [?|] [?|]];
    repeat split; reflexivity.
Qed.

(** ** The trimmer on the test bench *)

(** Half a second of tone at 100 Hz, default configuration: the recording
    is shorter than [minAudioDuration], and what [trimSilence] returns is
    that same half second. *)
Lemma trimSilence_short_recording_counterexample :
  let audioBlob := raw (tone 50) in
  exists r audio,
    trimSilence pcm8_decoder any_buffer audioBlob empty_config = Return r /\
    pcm8_decoder (blob r) = Some audio /\
    (inject_Z (Z.of_nat (buf_length audio)) / buf_sampleRate audio
     < cfg_minAudioDuration (merge_config DEFAULT_CONFIG empty_config))%Q.
Proof.
  intros audioBlob.
  exists (passthrough audioBlob), {| buf_sampleRate := 100; buf_length := 50;
                                     buf_channels := [pcm8_samples (tone 50)] |}.
  split; [reflexivity|]. split; reflexivity.
Qed.

(** A second and a half of tone: both boundaries are at the extremes. *)
Lemma trimSilence_keeps_minimum_witness :
  trimSilence pcm8_decoder any_buffer (raw (tone 150)) empty_config =
  Return {| blob := raw (tone 150); trimmedLeadingMs := 0; trimmedTrailingMs := 0 |}.
Proof.
  apply (proj2 (trimSilence_keeps_minimum pcm8_decoder any_buffer (raw (tone 150))
                  empty_config)
           {| buf_sampleRate := 100; buf_length := 150;
              buf_channels := [pcm8_samples (tone 150)] |}
           (pcm8_samples (tone 150))); reflexivity.
Defined.

(** A blob that does not decode. *)
Lemma trimSilence_never_throws_witness :
  trimSilence pcm8_decoder any_buffer (raw []) empty_config =
  Return {| blob := raw []; trimmedLeadingMs := 0; trimmedTrailingMs := 0 |}.
Proof.
  destruct (trimSilence_never_throws pcm8_decoder any_buffer (raw []) empty_config)
    as [_ [_ [Hdecode _]]].
  apply Hdecode. reflexivity.
Defined.

(** Half a second of silence, a second and a half of tone, two seconds of
    silence: the trailing silence exceeds the cap of one second after 21
    windows, so the tail is kept whole. *)
Lemma trimSilence_over_cap_keeps_tail_witness :
  let bytes := silence 50 ++ tone 150 ++ silence 200 in
  findSpeechEnd (pcm8_samples bytes) 100 (merge_config DEFAULT_CONFIG capped_config)
    = Some 400 /\
  exists r,
    trimSilence pcm8_decoder any_buffer (raw bytes) capped_config = Return r /\
    trimmedTrailingMs r = 0.
Proof.
  intros bytes.
  destruct (trimSilence_over_cap_keeps_tail pcm8_decoder any_buffer (raw bytes) capped_config
              {| buf_sampleRate := 100; buf_length := 400;
                 buf_channels := [pcm8_samples bytes] |}
              (pcm8_samples bytes) 21) as [Hend [r [Hrun [Htrailing _]]]].
  - reflexivity.
  - reflexivity.
  - reflexivity.
  - intros j Hj. do 21 (destruct j as [|j]; [reflexivity|]). lia.
  - reflexivity.
  - split; [exact Hend|]. exists r. split; [exact Hrun|exact Htrailing].
Defined.


(** ** Text similarity *)

Lemma startsWith_spec (s t : jsstring) :
  Text.startsWith s t = true <-> exists after, s = t ++ after.
Proof.
  revert s. induction t as [|b t IH]; intros s; simpl.
  - split; [intros _; exists s; reflexivity|reflexivity].
  - destruct s as [|a s].
    + split; [discriminate|]. intros [after H]. discriminate.
    + rewrite andb_true_iff, IH. split.
      * intros [Hab [after ->]]. apply Ascii.eqb_eq in Hab. subst b. eauto.
      * intros [after [= -> ->]]. split; [apply Ascii.eqb_refl|eauto].
Qed.

Lemma includes_spec (s t : jsstring) : Text.includes s t = true <-> is_substring t s.
Proof.
  unfold is_substring. induction s as [|a s IH]; simpl.
  - rewrite orb_false_r, startsWith_spec. split.
    + intros [after ->]. exists [], after. reflexivity.
    + intros [before [after H]]. destruct before; [|discriminate].
      exists after. exact H.
  - rewrite orb_true_iff, startsWith_spec, IH. split.
    + intros [[after ->]|[before [after ->]]].
      * exists [], after. reflexivity.
      * exists (a :: before), after. reflexivity.
    + intros [[|c before] [after H]].
      * left. exists after. exact H.
      * right. injection H as <- ->. eauto.
Qed.

Lemma string_eqb_spec (s t : jsstring) : Text.string_eqb s t = true <-> s = t.
Proof.
  unfold Text.string_eqb. rewrite andb_true_iff, Nat.eqb_eq, startsWith_spec. split.
  - intros [Hlen [after ->]]. rewrite length_app in Hlen.
    destruct after; [apply app_nil_r|simpl in Hlen; lia].
  - intros ->. split; [reflexivity|]. exists []. symmetry. apply app_nil_r.
Qed.

(** [shorter / longer > 0.8] on lengths. *)
Lemma ratio_above_four_fifths (shorter longer : nat) :
  (shorter <= longer)%nat ->
  Num.gtb (inject_Z (Z.of_nat shorter) / inject_Z (Z.of_nat longer)) (8 # 10) = true <->
  4 * Z.of_nat longer < 5 * Z.of_nat shorter.
Proof.
  intros Hle. rewrite gtb_true.
  destruct longer as [|longer].
  - assert (shorter = 0)%nat by lia. subst. split; [discriminate|lia].
  - assert (Hpos : (0 < inject_Z (Z.of_nat (S longer)))%Q).
    { change 0%Q with (inject_Z 0). rewrite <- Zlt_Qlt. lia. }
    split.
    + intros H. apply (Qmult_lt_compat_r _ _ _ Hpos) in H.
      unfold Qdiv in H. rewrite <- Qmult_assoc, (Qmult_comm (/ _)), Qmult_inv_r, Qmult_1_r in H
        by (intros E; rewrite E in Hpos; discriminate).
      unfold Qlt in H. simpl in H. lia.
    + intros H. apply Qlt_shift_div_l; [exact Hpos|].
      unfold Qlt. simpl. lia.
Qed.

(** The predicate [areSimilarTexts] decides. *)
Lemma areSimilarTexts_spec (a b : jsstring) :
  let na := normalizeForComparison a in
  let nb := normalizeForComparison b in
  areSimilarTexts a b = true <->
  na = nb \/
  ((is_substring nb na \/ is_substring na nb) /\
   4 * Z.of_nat (Nat.max (List.length na) (List.length nb))
   < 5 * Z.of_nat (Nat.min (List.length na) (List.length nb))).
Proof.
  intros na nb. unfold areSimilarTexts. fold na nb.
  destruct (Text.string_eqb na nb) eqn:Heq.
  - apply string_eqb_spec in Heq. tauto.
  - assert (Hne : na <> nb) by (intros E; apply string_eqb_spec in E; congruence).
    destruct (Text.includes na nb || Text.includes nb na) eqn:Hinc.
    + apply orb_true_iff in Hinc. rewrite !includes_spec in Hinc.
      destruct (Nat.ltb_spec (List.length na) (List.length nb)) as [Hlt|Hge];
        destruct (Nat.leb_spec (List.length nb) (List.length na)) as [Hle|Hgt];
        try lia; rewrite ratio_above_four_fifths by lia.
      * rewrite Nat.max_r, Nat.min_l by lia. tauto.
      * rewrite Nat.max_l, Nat.min_r by lia. tauto.
    + apply orb_false_iff in Hinc. destruct Hinc as [H1 H2].
      split; [discriminate|].
      intros [E|[[Hsub|Hsub] _]]; [contradiction| |];
        apply includes_spec in Hsub; congruence.
Qed.

Lemma areSimilarTexts_sym (a b : jsstring) : areSimilarTexts a b = areSimilarTexts b a.
Proof.
  apply eq_true_iff_eq. rewrite !areSimilarTexts_spec.
  rewrite Nat.max_comm, Nat.min_comm. intuition auto.
Qed.

(** *** Trimming before normalizing changes nothing *)

Lemma is_space_lower_char (c : ascii) : Text.is_space (Text.lower_char c) = Text.is_space c.
Proof. destruct c as [[] [] [] [] [] [] [] []]; reflexivity. Qed.

Lemma trimStart_toLowerCase (s : jsstring) :
  Text.trimStart (Text.toLowerCase s) = Text.toLowerCase (Text.trimStart s).
Proof.
  induction s as [|c s IH]; simpl; [reflexivity|].
  rewrite is_space_lower_char. destruct (Text.is_space c); [exact IH|reflexivity].
Qed.

Lemma trimEnd_toLowerCase (s : jsstring) :
  Text.trimEnd (Text.toLowerCase s) = Text.toLowerCase (Text.trimEnd s).
Proof.
  unfold Text.trimEnd.
  change (rev (Text.toLowerCase s)) with (rev (map Text.lower_char s)).
  rewrite <- map_rev.
  change (map Text.lower_char (rev s)) with (Text.toLowerCase (rev s)).
  rewrite trimStart_toLowerCase. unfold Text.toLowerCase. symmetry. apply map_rev.
Qed.

Lemma trim_toLowerCase (s : jsstring) :
  Text.trim (Text.toLowerCase s) = Text.toLowerCase (Text.trim s).
Proof.
  unfold Text.trim. rewrite trimStart_toLowerCase. apply trimEnd_toLowerCase.
Qed.

Lemma trimStart_clean (s : jsstring) : starts_clean (Text.trimStart s).
Proof.
  induction s as [|c s IH]; simpl; [exact I|].
  destruct (Text.is_space c) eqn:E; [exact IH|exact E].
Qed.

Lemma trimStart_of_clean (s : jsstring) : starts_clean s -> Text.trimStart s = s.
Proof. destruct s as [|c s]; simpl; [reflexivity|]. intros ->. reflexivity. Qed.

Lemma trimStart_snoc (s : jsstring) (c : ascii) :
  Text.is_space c = false -> Text.trimStart (s ++ [c]) = Text.trimStart s ++ [c].
Proof.
  intros Hc. induction s as [|a s IH]; simpl; [rewrite Hc; reflexivity|].
  destruct (Text.is_space a); [exact IH|reflexivity].
Qed.

Lemma trimEnd_clean (s : jsstring) : starts_clean s -> starts_clean (Text.trimEnd s).
Proof.
  unfold Text.trimEnd. destruct s as [|c s]; simpl; [intros _; exact I|].
  intros Hc. rewrite trimStart_snoc by exact Hc.
  rewrite rev_app_distr. simpl. exact Hc.
Qed.

Lemma trim_idempotent (s : jsstring) : Text.trim (Text.trim s) = Text.trim s.
Proof.
  unfold Text.trim.
  rewrite (trimStart_of_clean (Text.trimEnd (Text.trimStart s)))
    by apply trimEnd_clean, trimStart_clean.
  unfold Text.trimEnd. rewrite rev_involutive.
  rewrite (trimStart_of_clean (Text.trimStart _)) by apply trimStart_clean.
  reflexivity.
Qed.

Lemma normalize_trim (s : jsstring) :
  normalizeForComparison (Text.trim s) = normalizeForComparison s.
Proof.
  unfold normalizeForComparison.
  rewrite <- trim_toLowerCase, trim_idempotent. reflexivity.
Qed.

Lemma areSimilarTexts_trim (a b : jsstring) :
  areSimilarTexts (Text.trim a) (Text.trim b) = areSimilarTexts a b.
Proof. unfold areSimilarTexts. rewrite !normalize_trim. reflexivity. Qed.

(** ** The segment buffer *)

(** A finalized text that is similar to the memo is dropped. *)
Lemma handleFinal_duplicate (text : jsstring) (s : Session) :
  areSimilarTexts (Text.trim text) (lastFinalText s) = true ->
  finalSegments (handleFinal text s) = finalSegments s /\
  lastFinalText (handleFinal text s) = lastFinalText s.
Proof.
  intros H. unfold handleFinal. cbn [lastFinalText]. rewrite H. split; reflexivity.
Qed.

(** A finalized text either leaves the buffer as it is or is appended and
    becomes the memo. *)
Lemma handleFinal_cases (text : jsstring) (s : Session) :
  finalSegments (handleFinal text s) = finalSegments s \/
  (exists added, finalSegments (handleFinal text s) = finalSegments s ++ [added]) /\
  lastFinalText (handleFinal text s) = Text.trim text.
Proof.
  unfold handleFinal. cbn [lastFinalText finalSegments isRecording latestInterim].
  destruct (areSimilarTexts _ _); [left; reflexivity|].
  destruct (0 <? List.length (Text.trim text))%nat; [|left; reflexivity].
  destruct (getOverlapWithLastSegment _ _) as [hasOverlap trimmedText].
  destruct (0 <? List.length _)%nat; [|left; reflexivity].
  right. split; [eexists|]; reflexivity.
Qed.

(** A finalized text that leaves the buffer as it is leaves the memo as it
    is. *)
Lemma handleFinal_dropped (text : jsstring) (s : Session) :
  finalSegments (handleFinal text s) = finalSegments s ->
  lastFinalText (handleFinal text s) = lastFinalText s.
Proof.
  unfold handleFinal. cbn [lastFinalText finalSegments isRecording latestInterim].
  destruct (areSimilarTexts _ _); [reflexivity|].
  destruct (0 <? List.length (Text.trim text))%nat; [|reflexivity].
  destruct (getOverlapWithLastSegment _ _) as [hasOverlap trimmedText].
  destruct (0 <? List.length _)%nat; [|reflexivity].
  cbn [finalSegments]. intros Hsame.
  apply (f_equal (@List.length jsstring)) in Hsame.
  rewrite List.length_app in Hsame. simpl in Hsame. lia.
Qed.

Lemma similar_to_empty (text : jsstring) :
  areSimilarTexts text [] = true <-> normalizeForComparison text = [].
Proof.
  rewrite areSimilarTexts_spec. change (normalizeForComparison []) with (@nil ascii).
  split; [|auto].
  intros [H|[_ H]]; [exact H|].
  simpl in H. rewrite Nat.min_0_r in H. lia.
Qed.

(** C7 (as amended).  [areSimilarTexts] (the fuzzy-duplicate test) holds
    exactly when the normalized texts are equal, or one contains the other
    and the shorter is more than 80% as long as the longer.  And when it
    holds of finalized texts [A] and [B], [B] arriving after [A] adds nothing
    to the segment buffer whenever [A] is the memo of the last stored final
    text: in particular right after [A] was appended, and for [A] then [B]
    from the start of a session.  The test is made against the memo only: a
    finalized text that is similar to the memo is dropped, and an [A] that
    was itself dropped leaves the memo as it was, so that [B] is then
    compared with the text stored before [A]. *)
Theorem fuzzy_duplicate_not_appended (A B : jsstring) (s : Session) :
  let nA := normalizeForComparison A in
  let nB := normalizeForComparison B in
  (areSimilarTexts A B = true <->
   nA = nB \/
   ((is_substring nB nA \/ is_substring nA nB) /\
    4 * Z.of_nat (Nat.max (List.length nA) (List.length nB))
    < 5 * Z.of_nat (Nat.min (List.length nA) (List.length nB)))) /\
  (areSimilarTexts A B = true ->
   (lastFinalText s = Text.trim A ->
    finalSegments (handleFinal B s) = finalSegments s) /\
   ((List.length (finalSegments s) < List.length (finalSegments (handleFinal A s)))%nat ->
    finalSegments (handleFinal B (handleFinal A s)) = finalSegments (handleFinal A s)) /\
   finalSegments (handleFinal B (handleFinal A fresh_session))
   = finalSegments (handleFinal A fresh_session) /\
   fullTranscript (handleResult 0 [{| isFinal := true; transcript := A |};
                                   {| isFinal := true; transcript := B |}] fresh_session)
   = fullTranscript (handleResult 0 [{| isFinal := true; transcript := A |}] fresh_session)) /\
  (areSimilarTexts (Text.trim B) (lastFinalText s) = true ->
   finalSegments (handleFinal B s) = finalSegments s) /\
  (finalSegments (handleFinal A s) = finalSegments s ->
   lastFinalText (handleFinal A s) = lastFinalText s).
Proof.
  intros nA nB. split; [apply areSimilarTexts_spec|].
  split; [|split; [intros Hmemo; apply (handleFinal_duplicate B s Hmemo)
                  |apply handleFinal_dropped]].
  intros Hsimilar.
  cut ((lastFinalText s = Text.trim A ->
        finalSegments (handleFinal B s) = finalSegments s) /\
       ((List.length (finalSegments s) < List.length (finalSegments (handleFinal A s)))%nat ->
        finalSegments (handleFinal B (handleFinal A s)) = finalSegments (handleFinal A s)) /\
       finalSegments (handleFinal B (handleFinal A fresh_session))
       = finalSegments (handleFinal A fresh_session));
    [intros [H1 [H2 H3]]; repeat split; try assumption;
     unfold fullTranscript; f_equal; exact H3|].
  assert (Hmemo : forall s', lastFinalText s' = Text.trim A ->
                             finalSegments (handleFinal B s') = finalSegments s').
  { intros s' Hlast. apply handleFinal_duplicate.
    rewrite Hlast, areSimilarTexts_trim, areSimilarTexts_sym. exact Hsimilar. }
  split; [apply Hmemo|]. split.
  - intros Hgrew. apply Hmemo.
    destruct (handleFinal_cases A s) as [Hsame|[_ Hlast]]; [|exact Hlast].
    rewrite Hsame in Hgrew. lia.
  - destruct (handleFinal_cases A fresh_session) as [Hsame|[_ Hlast]];
      [|apply Hmemo; exact Hlast].
    apply handleFinal_duplicate.
    assert (Hkept : lastFinalText (handleFinal A fresh_session) = []).
    { unfold handleFinal in *.
      cbn [lastFinalText finalSegments isRecording latestInterim fresh_session] in *.
      destruct (areSimilarTexts (Text.trim A) []); [reflexivity|].
      destruct (0 <? List.length (Text.trim A))%nat eqn:Hlen; [|reflexivity].
      exfalso. apply Nat.ltb_lt in Hlen.
      destruct (Text.trim A) as [|c rest] eqn:Htrim; [simpl in Hlen; lia|].
      simpl in Hsame. discriminate. }
    rewrite Hkept. apply similar_to_empty.
    assert (HA : normalizeForComparison A = []).
    { unfold handleFinal in *.
      cbn [lastFinalText finalSegments isRecording latestInterim fresh_session] in *.
      destruct (areSimilarTexts (Text.trim A) []) eqn:Hskip.
      - apply similar_to_empty in Hskip. rewrite normalize_trim in Hskip. exact Hskip.
      - destruct (Text.trim A) as [|c rest] eqn:Htrim.
        + rewrite <- normalize_trim, Htrim. reflexivity.
        + simpl in Hsame. discriminate. }
    rewrite normalize_trim.
    apply areSimilarTexts_spec in Hsimilar. fold nA nB in Hsimilar.
    unfold nA in Hsimilar. rewrite HA in Hsimilar.
    destruct Hsimilar as [H|[_ H]]; [symmetry; exact H|].
    simpl in H. lia.
Qed.

(** The two finalized results of the specification's scenario. *)
Lemma fuzzy_duplicate_not_appended_witness :
  finalSegments (handleFinal (str "Yes, I agree.") (handleFinal (str "yes i agree") fresh_session))
  = [str "yes i agree"].
Proof.
  destruct (fuzzy_duplicate_not_appended (str "yes i agree") (str "Yes, I agree.")
              fresh_session) as [_ [Hdropped _]].
  destruct (Hdropped eq_refl) as [_ [_ [Hfresh _]]].
  rewrite Hfresh. reflexivity.
Defined.

(** C7 as the specification words it fails when [A] itself was dropped.
    After [M] was stored, [A] is a fuzzy duplicate of [M] (9 of 10
    characters) and is dropped, so the memo stays [M]; [B] is a fuzzy
    duplicate of [A] (8 of 9 characters) but not of [M] (8 of 10 is not more
    than 80%), and is appended. *)
Lemma fuzzy_duplicate_after_dropped_counterexample :
  let M := str "abcdefghij" in
  let A := str "abcdefghi" in
  let B := str "abcdefgh" in
  let s := handleFinal M fresh_session in
  areSimilarTexts A B = true /\
  areSimilarTexts A M = true /\
  areSimilarTexts B M = false /\
  finalSegments s = [M] /\
  finalSegments (handleFinal A s) = [M] /\
  lastFinalText (handleFinal A s) = M /\
  finalSegments (handleFinal B (handleFinal A s)) = [M; B] /\
  (List.length (finalSegments (handleFinal A s))
   < List.length (finalSegments (handleFinal B (handleFinal A s))))%nat /\
  fullTranscript (handleResult 0 [{| isFinal := true; transcript := M |};
                                  {| isFinal := true; transcript := A |};
                                  {| isFinal := true; transcript := B |}] fresh_session)
  = str "abcdefghij abcdefgh".
Proof.
  vm_compute. repeat split. apply le_n.
Qed.

(** * Further properties of the code *)

(** ** The forward scan *)

(** The forward scan over [n] windows that all stay below the threshold,
    the last of which ends the loop. *)
Lemma start_loop_all_quiet (samples : list Q) (w cap minSilence : Z) (threshold : Q) :
  0 < w ->
  forall n j N fuel,
  (j + n = N)%nat -> (n < fuel)%nat ->
  (forall k, (j <= k < N)%nat ->
     Z.of_nat k * w < Z.of_nat (List.length samples) /\ Z.of_nat k * w < cap /\
     start_window_meets samples w threshold k = false) ->
  Z.of_nat (List.length samples) <= Z.of_nat N * w \/ cap <= Z.of_nat N * w ->
  findSpeechStart_loop fuel samples w cap minSilence threshold
    (Z.of_nat j * w) (Z.of_nat j * w) =
  Some (if Z.of_nat N * w >=? minSilence then Z.min (Z.of_nat N * w) cap else 0).
Proof.
  intros Hw.
  induction n as [|n IH]; intros j N fuel HjN Hfuel Hquiet Hexit;
    (destruct fuel as [|fuel]; [lia|]); simpl.
  - assert (j = N) by lia. subst j.
    destruct (Z.ltb_spec (Z.of_nat N * w) (Z.of_nat (List.length samples)));
      destruct (Z.ltb_spec (Z.of_nat N * w) cap); try lia; simpl;
      destruct (_ >=? _); reflexivity.
  - destruct (Hquiet j ltac:(lia)) as [Hlen [Hcap Hq]].
    destruct (Z.ltb_spec (Z.of_nat j * w) (Z.of_nat (List.length samples))); [|lia].
    destruct (Z.ltb_spec (Z.of_nat j * w) cap); [|lia].
    simpl. unfold start_window_meets in Hq. rewrite Hq.
    replace (Z.of_nat j * w + w) with (Z.of_nat (S j) * w) by lia.
    apply IH; try assumption; try lia.
    intros k Hk. apply Hquiet. lia.
Qed.

(** Whole windows that cover [m] samples. *)
Lemma covering_windows (m w : Z) :
  0 <= m -> 0 < w ->
  let n := (m + w - 1) / w in
  0 <= n /\ m <= n * w /\ (n - 1) * w < m.
Proof.
  intros Hm Hw n.
  pose proof (Z.div_mod (m + w - 1) w ltac:(lia)) as Hdiv.
  pose proof (Z.mod_pos_bound (m + w - 1) w Hw) as Hmod.
  fold n in Hdiv.
  assert (0 <= n) by (apply Z.div_pos; lia).
  nia.
Qed.

(** X2.  A recording in which no window of the forward scan meets the
    threshold: the scan runs over whole windows until it has covered the
    recording or [maxLeadingTrim], and the onset is the scanned length, capped
    at [maxLeadingTrim], when that is at least [minSilenceDuration], and 0
    otherwise.  A silent recording is thus cut at its front by as much as was
    scanned. *)
Theorem findSpeechStart_all_quiet (samples : list Q) (sampleRate : Q) (config : Config) :
  let w := window_samples sampleRate config in
  let cap := max_leading_samples sampleRate config in
  let len := Z.of_nat (List.length samples) in
  let scanned := (Z.min len cap + w - 1) / w * w in
  0 < w ->
  0 <= cap ->
  (forall k : nat,
     Z.of_nat k * w < len -> Z.of_nat k * w < cap ->
     start_window_meets samples w (cfg_silenceThreshold config) k = false) ->
  findSpeechStart samples sampleRate config =
    Some (if scanned >=? min_silence_samples sampleRate config
          then Z.min scanned cap else 0) /\
  Z.min len cap <= scanned < Z.min len cap + w.
Proof.
  intros w cap len scanned Hw Hcap Hquiet.
  destruct (covering_windows (Z.min len cap) w ltac:(lia) Hw) as [Hn [Hcover Hless]].
  fold scanned in Hcover.
  split; [|lia].
  set (N := Z.to_nat ((Z.min len cap + w - 1) / w)).
  assert (HN : Z.of_nat N * w = scanned) by (unfold N, scanned; rewrite Z2Nat.id; lia).
  rewrite findSpeechStart_unfold. fold w cap.
  pose proof (start_loop_all_quiet samples w cap (min_silence_samples sampleRate config)
                (cfg_silenceThreshold config) Hw N 0%nat N (scan_fuel samples)
                ltac:(lia)) as Hloop.
  change (Z.of_nat 0 * w) with 0 in Hloop. rewrite HN in Hloop. apply Hloop.
  - unfold scan_fuel. fold len in Hcover |- *.
    assert (Z.of_nat N - 1 < len) by nia. lia.
  - intros k Hk.
    assert (Hk' : Z.of_nat k * w < Z.min len cap) by nia.
    split; [lia|]. split; [lia|]. apply Hquiet; lia.
  - lia.
Qed.

(** Five seconds of silence at 100 Hz: the first three seconds, the default
    [maxLeadingTrim], are cut. *)
Lemma findSpeechStart_all_quiet_witness :
  findSpeechStart (pcm8_samples (silence 500)) 100 DEFAULT_CONFIG = Some 300.
Proof.
  destruct (findSpeechStart_all_quiet (pcm8_samples (silence 500)) 100 DEFAULT_CONFIG)
    as [Hrun _].
  - reflexivity.
  - discriminate.
  - intros k Hlen Hk. change (Z.of_nat k * 5 < 300) in Hk.
    assert (Hcases : (k < 60)%nat) by lia.
    do 60 (destruct k as [|k]; [vm_compute; reflexivity|]). lia.
  - exact Hrun.
Defined.

(** What a result of the forward scan started at window [j] tells: the scan
    passed [n - j] windows below the threshold and stopped at window [n]. *)
Lemma start_loop_inv (samples : list Q) (w cap minSilence : Z) (threshold : Q) :
  forall fuel j r,
  findSpeechStart_loop fuel samples w cap minSilence threshold
    (Z.of_nat j * w) (Z.of_nat j * w) = Some r ->
  exists n : nat,
    (j <= n)%nat /\
    (forall k, (j <= k < n)%nat -> start_window_meets samples w threshold k = false) /\
    (r = 0 \/
     minSilence <= Z.of_nat n * w /\
     (r = Z.max 0 (Z.of_nat n * w - w / 2) \/ r = Z.min (Z.of_nat n * w) cap)).
Proof.
  induction fuel as [|fuel IH]; intros j r Hrun; [discriminate|].
  simpl in Hrun.
  assert (Hstop : forall r',
            (if Z.of_nat j * w >=? minSilence then Some r' else Some 0) = Some r ->
            r' = Z.max 0 (Z.of_nat j * w - w / 2) \/ r' = Z.min (Z.of_nat j * w) cap ->
            exists n : nat,
              (j <= n)%nat /\
              (forall k, (j <= k < n)%nat ->
                 start_window_meets samples w threshold k = false) /\
              (r = 0 \/
               minSilence <= Z.of_nat n * w /\
               (r = Z.max 0 (Z.of_nat n * w - w / 2) \/ r = Z.min (Z.of_nat n * w) cap))).
  { intros r' Hr' Hform. exists j. split; [lia|]. split; [intros k Hk; lia|].
    destruct (Z.geb_spec (Z.of_nat j * w) minSilence); injection Hr' as <-; auto. }
  destruct ((Z.of_nat j * w <? Z.of_nat (List.length samples)) && (Z.of_nat j * w <? cap)).
  - destruct (Num.root_geb _ _) eqn:Hmeets.
    + apply (Hstop (Z.max 0 (Z.of_nat j * w - w / 2))); [|left; reflexivity].
      destruct (_ >=? _); exact Hrun.
    + replace (Z.of_nat j * w + w) with (Z.of_nat (S j) * w) in Hrun by lia.
      destruct (IH (S j) r Hrun) as [n [Hn [Hquiet Hr]]].
      exists n. split; [lia|]. split; [|exact Hr].
      intros k Hk. destruct (Nat.eq_dec k j) as [->|Hne]; [exact Hmeets|].
      apply Hquiet. lia.
  - apply (Hstop (Z.min (Z.of_nat j * w) cap)); [|right; reflexivity].
    destruct (_ >=? _); exact Hrun.
Qed.

(** X3.  Whatever onset [findSpeechStart] returns, every window of the
    scan that begins before it is below the threshold: the leading cut
    removes no window that meets [silenceThreshold].  And an onset other
    than 0 is returned only after at least [minSilenceDuration] of such
    windows, as the position of the first window that meets the threshold
    backed off by half a window, or as the scanned length capped at
    [maxLeadingTrim]. *)
Theorem findSpeechStart_cuts_only_quiet_windows (samples : list Q) (sampleRate : Q)
    (config : Config) (onset : Z) :
  let w := window_samples sampleRate config in
  let quiet k := start_window_meets samples w (cfg_silenceThreshold config) k = false in
  0 < w ->
  findSpeechStart samples sampleRate config = Some onset ->
  (forall k : nat, Z.of_nat k * w < onset -> quiet k) /\
  (onset <> 0 ->
   exists n : nat,
     (forall k, (k < n)%nat -> quiet k) /\
     min_silence_samples sampleRate config <= Z.of_nat n * w /\
     (onset = Z.max 0 (Z.of_nat n * w - w / 2) \/
      onset = Z.min (Z.of_nat n * w) (max_leading_samples sampleRate config))).
Proof.
  intros w quiet Hw Hrun. rewrite findSpeechStart_unfold in Hrun. fold w in Hrun.
  destruct (start_loop_inv samples w _ _ _ (scan_fuel samples) 0%nat onset Hrun)
    as [n [_ [Hquiet Hr]]].
  assert (Hhalf : 0 <= w / 2) by (apply Z.div_pos; lia).
  split.
  - intros k Hk. apply Hquiet. split; [lia|].
    destruct Hr as [->|[_ [->| ->]]]; nia.
  - intros Hne. destruct Hr as [->|[Hmin Hform]]; [contradiction|].
    exists n. split; [|split; assumption].
    intros k Hk. apply Hquiet. lia.
Qed.

(** Half a second of silence before the tone, at 100 Hz: the onset is 48,
    and window 9, which begins at sample 45, is silent. *)
Lemma findSpeechStart_cuts_only_quiet_windows_witness :
  start_window_meets (pcm8_samples (silence 50 ++ tone 150)) 5 (1 # 100) 9 = false.
Proof.
  apply (proj1 (findSpeechStart_cuts_only_quiet_windows
                  (pcm8_samples (silence 50 ++ tone 150)) 100 DEFAULT_CONFIG 48
                  eq_refl eq_refl) 9%nat).
  reflexivity.
Defined.

Lemma root_zero_below (threshold : Q) :
  (0 < threshold)%Q -> Num.root_geb Num.root_zero threshold = false.
Proof.
  intros Hthr. unfold Num.root_geb, Num.root_zero. cbn [Num.radicand].
  apply orb_false_iff. split.
  - destruct (Qle_bool threshold 0) eqn:E; [|reflexivity].
    apply Qle_bool_iff in E. lra.
  - destruct (Qle_bool (threshold * threshold) 0) eqn:E; [|reflexivity].
    apply Qle_bool_iff in E. nra.
Qed.

(** With a window of no samples the forward scan never leaves its first
    window. *)
Lemma findSpeechStart_stuck (samples : list Q) (sampleRate : Q) (config : Config) :
  samples <> [] ->
  window_samples sampleRate config <= 0 ->
  0 < max_leading_samples sampleRate config ->
  (0 < cfg_silenceThreshold config)%Q ->
  forall fuel,
    findSpeechStart_loop fuel samples (window_samples sampleRate config)
      (max_leading_samples sampleRate config) (min_silence_samples sampleRate config)
      (cfg_silenceThreshold config) 0 0 = None.
Proof.
  intros Hsamples Hw Hcap Hthr fuel.
  apply (start_loop_stuck samples _ _ _ _ Hw 0 0); [|lia].
  simpl. rewrite (computeRMS_empty samples 0 _) by (left; exact Hw).
  rewrite root_zero_below by exact Hthr.
  destruct samples as [|x samples]; [contradiction|].
  destruct (Z.ltb_spec 0 (max_leading_samples sampleRate config)); [|lia].
  reflexivity.
Qed.

Section Hang.

Variable decodeAudioData : Blob -> option AudioBuffer.
Variable createBuffer_supported : nat -> Z -> Q -> bool.

(** X4.  A window that rounds down to no samples ([sampleRate * windowSize]
    below 1) hangs the trimmer: on a decoded recording that is not empty, with
    a positive threshold and a [maxLeadingTrim] of at least one sample, the
    forward scan stays at its first window for ever, and [trimSilence] never
    returns. *)
Theorem trimSilence_hangs_on_empty_window (audioBlob : Blob) (config : TrimConfig)
    (audioBuffer : AudioBuffer) (samples : list Q) :
  let cfg := merge_config DEFAULT_CONFIG config in
  let sampleRate := buf_sampleRate audioBuffer in
  decodeAudioData audioBlob = Some audioBuffer ->
  mono_samples audioBuffer = Return samples ->
  samples <> [] ->
  window_samples sampleRate cfg <= 0 ->
  0 < max_leading_samples sampleRate cfg ->
  (0 < cfg_silenceThreshold cfg)%Q ->
  (forall fuel,
     findSpeechStart_loop fuel samples (window_samples sampleRate cfg)
       (max_leading_samples sampleRate cfg) (min_silence_samples sampleRate cfg)
       (cfg_silenceThreshold cfg) 0 0 = None) /\
  trimSilence decodeAudioData createBuffer_supported audioBlob config = Diverge.
Proof.
  intros cfg sampleRate Hdecode Hmono Hsamples Hw Hcap Hthr.
  pose proof (findSpeechStart_stuck samples sampleRate cfg Hsamples Hw Hcap Hthr) as Hstuck.
  split; [exact Hstuck|].
  unfold trimSilence, trimSilence_try, decode. fold cfg.
  rewrite Hdecode. cbn [obind]. rewrite Hmono. cbn [obind].
  fold sampleRate. rewrite findSpeechStart_unfold, Hstuck. reflexivity.
Qed.

End Hang.

Lemma trimSilence_hangs_on_empty_window_witness :
  trimSilence pcm8_decoder any_buffer (raw (tone 150)) tiny_window_config = Diverge.
Proof.
  refine (proj2 (trimSilence_hangs_on_empty_window pcm8_decoder any_buffer (raw (tone 150))
                   tiny_window_config _ (pcm8_samples (tone 150)) eq_refl eq_refl _ _ _ _)).
  - discriminate.
  - discriminate.
  - reflexivity.
  - reflexivity.
Defined.

(** ** The backward scan *)

(** What a result of the backward scan started at window [j] tells: the
    full length, or a speech end at a window [k] reached over silence. *)
Lemma end_loop_inv (samples : list Q) (w minSilence cap padding : Z) (endThreshold : Q) :
  forall fuel j r,
  findSpeechEnd_loop fuel samples w minSilence cap padding endThreshold
    (end_window_start samples w j) (Z.of_nat j * w) (end_window_previous samples w j) = Some r ->
  r = Z.of_nat (List.length samples) \/
  exists k : nat,
    (j <= k)%nat /\
    (forall k', (j <= k' < k)%nat -> end_window_speech samples w endThreshold k' = false) /\
    end_window_speech samples w endThreshold k = true /\
    0 <= end_window_start samples w k /\
    minSilence <= Z.of_nat k * w <= cap /\
    r = end_window_start samples w k + w + padding /\
    r < Z.of_nat (List.length samples).
Proof.
  induction fuel as [|fuel IH]; intros j r Hrun; [discriminate|].
  simpl in Hrun.
  destruct (Z.geb_spec (end_window_start samples w j) 0) as [Hstart|Hstart];
    [|injection Hrun as <-; left; reflexivity].
  destruct (Z.gtb_spec (Z.of_nat j * w) cap) as [Hcap|Hcap];
    [injection Hrun as <-; left; reflexivity|].
  destruct (Num.root_geb _ _ || isDecrescendo _ _ _) eqn:Hspeech.
  - destruct (Z.geb_spec (Z.of_nat j * w) minSilence) as [Hmin|Hmin];
      [|injection Hrun as <-; left; reflexivity].
    injection Hrun as <-.
    destruct (Z.le_gt_cases (Z.of_nat (List.length samples))
                (end_window_start samples w j + w + padding)) as [Hlong|Hshort].
    + left. lia.
    + right. exists j. split; [lia|]. split; [intros k' Hk'; lia|].
      split; [exact Hspeech|]. split; [lia|]. split; [lia|]. lia.
  - rewrite <- end_window_start_S in Hrun.
    replace (Z.of_nat j * w + w) with (Z.of_nat (S j) * w) in Hrun by lia.
    destruct (IH (S j) r Hrun) as [->|[k [Hk [Hquiet Hrest]]]]; [left; reflexivity|].
    right. exists k. split; [lia|]. split; [|exact Hrest].
    intros k' Hk'. destruct (Nat.eq_dec k' j) as [->|Hne]; [exact Hspeech|].
    apply Hquiet. lia.
Qed.

(** X5.  Whenever [findSpeechEnd] returns less than the full length, the
    cut is backed by a speech end: some window [k] from the end passes the
    speech test, every later window fails it, the silence run of [k] windows
    lasts at least [minSilenceDuration] and at most [maxTrailingTrim], and the
    boundary is the end of window [k] plus the padding.  With a non-negative
    padding nothing of that window is cut. *)
Theorem findSpeechEnd_cut_has_speech_end (samples : list Q) (sampleRate : Q)
    (config : Config) (e : Z) :
  let w := window_samples sampleRate config in
  let len := Z.of_nat (List.length samples) in
  let padding := trailing_padding_samples sampleRate config in
  findSpeechEnd samples sampleRate config = Some e ->
  e <> len ->
  exists k : nat,
    (forall j, (j < k)%nat -> end_window_speech samples w (end_threshold config) j = false) /\
    end_window_speech samples w (end_threshold config) k = true /\
    0 <= end_window_start samples w k /\
    min_silence_samples sampleRate config <= Z.of_nat k * w
      <= max_trailing_samples sampleRate config /\
    e = end_window_start samples w k + w + padding /\
    e < len /\
    (0 <= padding -> end_window_start samples w k + w <= e).
Proof.
  intros w len padding Hrun Hcut. rewrite findSpeechEnd_unfold in Hrun.
  fold w padding in Hrun.
  pose proof (end_loop_inv samples w (min_silence_samples sampleRate config)
                (max_trailing_samples sampleRate config) padding (end_threshold config)
                (scan_fuel samples) 0%nat e) as Hinv.
  change (Z.of_nat 0 * w) with 0 in Hinv.
  destruct (Hinv Hrun) as [->|[k [_ [Hquiet [Hspeech [Hstart [Hrun_len [He Hlt]]]]]]]];
    [contradiction|].
  exists k. split; [intros j Hj; apply Hquiet; lia|].
  split; [exact Hspeech|]. split; [exact Hstart|]. split; [exact Hrun_len|].
  split; [exact He|]. split; [exact Hlt|lia].
Qed.

(** Half a second of silence, a second and a half of tone and a second of
    silence at 100 Hz: the boundary 235 is the end of window 20 from the end
    plus 35 samples. *)
Lemma findSpeechEnd_cut_has_speech_end_witness :
  exists k : nat,
    end_window_speech (pcm8_samples (silence 50 ++ tone 150 ++ silence 100)) 5
      (end_threshold DEFAULT_CONFIG) k = true /\
    235 = end_window_start (pcm8_samples (silence 50 ++ tone 150 ++ silence 100)) 5 k + 5 + 35.
Proof.
  destruct (findSpeechEnd_cut_has_speech_end
              (pcm8_samples (silence 50 ++ tone 150 ++ silence 100)) 100 DEFAULT_CONFIG 235)
    as [k [_ [Hspeech [_ [_ [He _]]]]]].
  - reflexivity.
  - discriminate.
  - exists k. split; [exact Hspeech|exact He].
Defined.

(** ** The encoder *)

Lemma trunc_monotone (x y : Q) : (x <= y)%Q -> Num.trunc x <= Num.trunc y.
Proof.
  intros Hxy.
  destruct (Qlt_le_dec x 0) as [Hx|Hx]; destruct (Qlt_le_dec y 0) as [Hy|Hy].
  - pose proof (trunc_opp x) as Hx'. pose proof (trunc_opp y) as Hy'.
    rewrite trunc_nonneg in Hx', Hy' by lra.
    assert (Qfloor (- y) <= Qfloor (- x)) by (apply Qfloor_resp_le; lra). lia.
  - pose proof (trunc_opp x) as Hx'. rewrite trunc_nonneg in Hx' by lra.
    rewrite (trunc_nonneg y) by lra.
    assert (0 <= Qfloor (- x))
      by (apply (floor_ge_int (- x) 0); change (inject_Z 0) with 0%Q; lra).
    assert (0 <= Qfloor y)
      by (apply (floor_ge_int y 0); change (inject_Z 0) with 0%Q; lra).
    lia.
  - lra.
  - rewrite !trunc_nonneg by lra. apply Qfloor_resp_le. exact Hxy.
Qed.

Lemma clamp_sample_monotone (x y : Q) : (x <= y)%Q -> (clamp_sample x <= clamp_sample y)%Q.
Proof.
  intros Hxy.
  destruct (clamp_sample_cases x) as [[Hx ->]|[[Hx ->]|[Hx ->]]];
    destruct (clamp_sample_cases y) as [[Hy ->]|[[Hy ->]|[Hy ->]]]; lra.
Qed.

Lemma scale_sample_monotone (x y : Q) : (x <= y)%Q -> (scale_sample x <= scale_sample y)%Q.
Proof.
  intros Hxy.
  destruct (scale_sample_cases x) as [[Hx ->]|[Hx ->]];
    destruct (scale_sample_cases y) as [[Hy ->]|[Hy ->]]; lra.
Qed.

(** X6.  The 16-bit value of a sample grows with the sample: a louder
    positive sample is never encoded lower, and the order of samples is kept.
    The value is 0 for a sample of 0, non-negative from 0 up and non-positive
    below, 32767 for every sample of 1 or more and -32768 for every sample
    of -1 or less. *)
Theorem encode_sample_monotone (x y : Q) :
  ((x <= y)%Q -> encode_sample x <= encode_sample y) /\
  encode_sample 0 = 0 /\
  ((0 <= x)%Q -> 0 <= encode_sample x) /\
  ((x <= 0)%Q -> encode_sample x <= 0) /\
  ((1 <= x)%Q -> encode_sample x = 32767) /\
  ((x <= -1)%Q -> encode_sample x = -32768).
Proof.
  assert (Hmono : forall a b, (a <= b)%Q -> encode_sample a <= encode_sample b).
  { intros a b Hab. unfold encode_sample.
    apply trunc_monotone, scale_sample_monotone, clamp_sample_monotone. exact Hab. }
  assert (Hhigh : forall a, (1 <= a)%Q -> encode_sample a = 32767).
  { intros a Ha. unfold encode_sample.
    destruct (clamp_sample_cases a) as [[_ ->]|[[H _]|[H _]]]; [reflexivity|lra|lra]. }
  assert (Hlow : forall a, (a <= -1)%Q -> encode_sample a = -32768).
  { intros a Ha. unfold encode_sample.
    destruct (clamp_sample_cases a) as [[H _]|[[_ ->]|[H _]]]; [lra|reflexivity|lra]. }
  split; [apply Hmono|]. split; [reflexivity|].
  split; [intros Hx; apply (Hmono 0%Q x Hx)|].
  split; [intros Hx; apply (Hmono x 0%Q Hx)|].
  split; [apply Hhigh|apply Hlow].
Qed.

Lemma encode_sample_monotone_witness :
  encode_sample (1 # 4) <= encode_sample (1 # 2) /\ encode_sample 3 = 32767 /\
  encode_sample (-2) = -32768.
Proof.
  destruct (encode_sample_monotone (1 # 4) (1 # 2)) as [Hmono _].
  destruct (encode_sample_monotone 3 0) as [_ [_ [_ [_ [Hhigh _]]]]].
  destruct (encode_sample_monotone (-2) 0) as [_ [_ [_ [_ [_ Hlow]]]]].
  split; [apply Hmono; discriminate|].
  split; [apply Hhigh; discriminate|apply Hlow; discriminate].
Defined.

(** X7.  The header [audioBufferToWav] writes is that of a PCM WAV file:
    the tags RIFF, WAVE, fmt and data at offsets 0, 8, 12 and 36, a format
    chunk of 16 bytes with format tag 1 (PCM) and 16 bits per sample, and
    the two size fields modulo 2^32.  For a blob of less than 2^32 bytes
    the sizes agree with the blob itself: the RIFF size is its length less 8
    and the data size its length less the 44 header bytes; and a whole sample
    rate below 2^32 is stored as it is. *)
Theorem audioBufferToWav_header (buffer : AudioBuffer) :
  let dataLength := 2 * Z.of_nat (numberOfChannels buffer) * Z.of_nat (buf_length buffer) in
  exists wav,
    audioBufferToWav buffer = Return wav /\
    take 4 (blob_bytes wav) = char_codes "RIFF" /\
    take 8 (drop 8 (blob_bytes wav)) = char_codes "WAVEfmt " /\
    take 4 (drop 36 (blob_bytes wav)) = char_codes "data" /\
    DataView.getUint32 16 (blob_bytes wav) = 16 /\
    DataView.getUint16 20 (blob_bytes wav) = 1 /\
    DataView.getUint16 34 (blob_bytes wav) = 16 /\
    DataView.getUint32 4 (blob_bytes wav) = (36 + dataLength) mod 4294967296 /\
    DataView.getUint32 40 (blob_bytes wav) = dataLength mod 4294967296 /\
    (44 + dataLength < 4294967296 ->
     DataView.getUint32 4 (blob_bytes wav) = Z.of_nat (List.length (blob_bytes wav)) - 8 /\
     DataView.getUint32 40 (blob_bytes wav) = Z.of_nat (List.length (blob_bytes wav)) - 44) /\
    (forall rate : Z,
       buf_sampleRate buffer = inject_Z rate -> 0 <= rate < 4294967296 ->
       DataView.getUint32 24 (blob_bytes wav) = rate).
Proof.
  intros dataLength.
  pose proof (audioBufferToWav_exact buffer) as Hrun. cbv zeta in Hrun.
  replace (Z.of_nat (buf_length buffer) * (Z.of_nat (numberOfChannels buffer) * 2))
    with dataLength in Hrun by (unfold dataLength; lia).
  eexists. split; [exact Hrun|]. cbn [blob_bytes].
  assert (Hriff : forall rest,
            DataView.getUint32 4
              (wav_header (Z.of_nat (numberOfChannels buffer)) (buf_sampleRate buffer)
                 (buf_sampleRate buffer * inject_Z (Z.of_nat (numberOfChannels buffer) * 2))
                 (Z.of_nat (numberOfChannels buffer) * 2) dataLength ++ rest)
            = (36 + dataLength) mod 4294967296) by (intros rest; apply bytes_uint32).
  assert (Hdata : forall rest,
            DataView.getUint32 40
              (wav_header (Z.of_nat (numberOfChannels buffer)) (buf_sampleRate buffer)
                 (buf_sampleRate buffer * inject_Z (Z.of_nat (numberOfChannels buffer) * 2))
                 (Z.of_nat (numberOfChannels buffer) * 2) dataLength ++ rest)
            = dataLength mod 4294967296) by (intros rest; apply bytes_uint32).
  assert (Hrate : forall rest,
            DataView.getUint32 24
              (wav_header (Z.of_nat (numberOfChannels buffer)) (buf_sampleRate buffer)
                 (buf_sampleRate buffer * inject_Z (Z.of_nat (numberOfChannels buffer) * 2))
                 (Z.of_nat (numberOfChannels buffer) * 2) dataLength ++ rest)
            = Num.trunc (buf_sampleRate buffer) mod 4294967296)
    by (intros rest; apply bytes_uint32).
  assert (Hnonneg : 0 <= dataLength) by (unfold dataLength; lia).
  repeat split; try reflexivity.
  - apply Hriff.
  - apply Hdata.
  - rewrite Hriff, length_app, wav_data_length. cbn [wav_header List.length].
    rewrite Z.mod_small by lia. unfold dataLength. lia.
  - rewrite Hdata, length_app, wav_data_length. cbn [wav_header List.length].
    rewrite Z.mod_small by lia. unfold dataLength. lia.
  - intros rate Hrate_eq Hrange. rewrite Hrate, Hrate_eq, trunc_inject_Z.
    apply Z.mod_small. exact Hrange.
Qed.

(** A stereo buffer of three frames at 44.1 kHz: 56 bytes. *)
Lemma audioBufferToWav_header_witness :
  let buffer := {| buf_sampleRate := 44100; buf_length := 3;
                   buf_channels := [[1 # 2; -2; 0]; [3; -(1 # 4); 1]]%Q |} in
  exists wav,
    audioBufferToWav buffer = Return wav /\
    DataView.getUint32 4 (blob_bytes wav) = 48 /\
    DataView.getUint32 40 (blob_bytes wav) = 12 /\
    DataView.getUint32 24 (blob_bytes wav) = 44100.
Proof.
  intros buffer.
  destruct (audioBufferToWav_header buffer)
    as [wav [Hrun [_ [_ [_ [_ [_ [_ [_ [_ [Hsizes Hrate]]]]]]]]]]].
  destruct (Hsizes ltac:(reflexivity)) as [Hriff Hdata].
  exists wav. split; [exact Hrun|]. split; [|split].
  - rewrite Hriff. vm_compute in Hrun. injection Hrun as <-. reflexivity.
  - rewrite Hdata. vm_compute in Hrun. injection Hrun as <-. reflexivity.
  - apply Hrate; [reflexivity|]. split; [discriminate|reflexivity].
Defined.

(** ** The trimmed range *)

Lemma round_monotone (x y : Q) : (x <= y)%Q -> Num.round x <= Num.round y.
Proof. intros H. unfold Num.round. apply Qfloor_resp_le. lra. Qed.

Lemma round_nonneg (x : Q) : (0 <= x)%Q -> 0 <= Num.round x.
Proof.
  intros H. unfold Num.round. apply (floor_ge_int (x + (1 # 2)) 0).
  change (inject_Z 0) with 0%Q. lra.
Qed.

(** A count of samples as milliseconds. *)
Lemma milliseconds_bounds (sampleRate seconds : Q) (n : Z) :
  (0 < sampleRate)%Q -> 0 <= n <= Num.floor (sampleRate * seconds) ->
  0 <= Num.round (inject_Z n / sampleRate * 1000) <= Num.round (seconds * 1000).
Proof.
  intros Hsr [Hn Hcap].
  pose proof (samples_within_seconds sampleRate seconds n Hsr Hcap) as Hsec.
  assert (Hpos : (0 <= inject_Z n / sampleRate)%Q).
  { apply Qle_shift_div_l; [exact Hsr|]. rewrite Qmult_0_l.
    change 0%Q with (inject_Z 0). rewrite <- Zle_Qle. exact Hn. }
  split; [apply round_nonneg|apply round_monotone]; lra.
Qed.

Section Range.

Variable decodeAudioData : Blob -> option AudioBuffer.
Variable createBuffer_supported : nat -> Z -> Q -> bool.

(** X8.  With a positive sample rate and window and non-negative caps and
    padding, a result of [trimSilence] that is not the original blob is cut
    out of the recording: its range starts at most [maxLeadingTrim] into the
    recording, ends at or before the last sample and at most
    [maxTrailingTrim] before it, and is not empty; the blob holds 44 bytes and
    two bytes per channel for each frame of the range; and the trims reported,
    in milliseconds, are not negative and not above the caps. *)
Theorem trimSilence_cuts_a_range (audioBlob : Blob) (config : TrimConfig)
    (audioBuffer : AudioBuffer) (r : TrimResult) :
  let cfg := merge_config DEFAULT_CONFIG config in
  let sampleRate := buf_sampleRate audioBuffer in
  decodeAudioData audioBlob = Some audioBuffer ->
  (0 < sampleRate)%Q ->
  0 < window_samples sampleRate cfg ->
  (0 <= cfg_maxLeadingTrim cfg)%Q ->
  (0 <= cfg_maxTrailingTrim cfg)%Q ->
  (0 <= cfg_trailingPadding cfg)%Q ->
  trimSilence decodeAudioData createBuffer_supported audioBlob config = Return r ->
  r = passthrough audioBlob \/
  exists (samples : list Q) (speechStart speechEnd : Z),
    mono_samples audioBuffer = Return samples /\
    reencoded audioBuffer samples cfg speechStart speechEnd r /\
    0 <= speechStart <= max_leading_samples sampleRate cfg /\
    speechStart < speechEnd <= Z.of_nat (List.length samples) /\
    Z.of_nat (List.length samples) - speechEnd <= max_trailing_samples sampleRate cfg /\
    Z.of_nat (List.length (blob_bytes (blob r))) =
      44 + 2 * Z.of_nat (numberOfChannels audioBuffer) * (speechEnd - speechStart) /\
    0 <= trimmedLeadingMs r <= Num.round (cfg_maxLeadingTrim cfg * 1000) /\
    0 <= trimmedTrailingMs r <= Num.round (cfg_maxTrailingTrim cfg * 1000).
Proof.
  intros cfg sampleRate Hdecode Hsr Hw Hlead Htrail Hpad Hrun.
  destruct (trimSilence_inv decodeAudioData createBuffer_supported audioBlob config r Hrun)
    as [->|[audioBuffer' [samples [speechStart [speechEnd [Hdecode' [Hmono Hre]]]]]]];
    [left; reflexivity|right].
  rewrite Hdecode in Hdecode'. injection Hdecode' as <-.
  fold cfg in Hre.
  exists samples, speechStart, speechEnd.
  split; [exact Hmono|]. split; [exact Hre|].
  destruct Hre as [Hstart Hend _ Hframes _ Hwav Hleading Htrailing].
  fold sampleRate in Hstart, Hend, Hleading, Htrailing.
  assert (Hcap_lead : 0 <= max_leading_samples sampleRate cfg)
    by (apply floor_nonneg; assumption).
  assert (Hcap_trail : 0 <= max_trailing_samples sampleRate cfg)
    by (apply floor_nonneg; assumption).
  assert (Hpadding : 0 <= trailing_padding_samples sampleRate cfg)
    by (apply floor_nonneg; assumption).
  assert (Hs : 0 <= speechStart <= max_leading_samples sampleRate cfg).
  { rewrite findSpeechStart_unfold in Hstart.
    eapply (start_loop_bounds samples (window_samples sampleRate cfg));
      [| exact Hcap_lead | | exact Hstart]; lia. }
  assert (He : 0 <= Z.of_nat (List.length samples) - speechEnd
               <= max_trailing_samples sampleRate cfg).
  { unfold speech_end_of in Hend. destruct (cfg_trimTrailing cfg).
    - pose proof (findSpeechEnd_bounds samples sampleRate cfg speechEnd Hpadding Hend). lia.
    - injection Hend as <-. lia. }
  split; [exact Hs|]. split; [lia|]. split; [lia|]. split; [|split].
  - destruct (audioBufferToWav_length
                (trimmed_range audioBuffer speechStart (Z.to_nat (speechEnd - speechStart))))
      as [wav [Hwav' Hlength]].
    rewrite Hwav in Hwav'. injection Hwav' as <-.
    rewrite Hlength. unfold numberOfChannels, trimmed_range. cbn [buf_channels buf_length].
    rewrite length_map. lia.
  - rewrite Hleading. apply milliseconds_bounds; [exact Hsr|exact Hs].
  - rewrite Htrailing.
    destruct (milliseconds_bounds sampleRate (cfg_maxTrailingTrim cfg)
                (Z.of_nat (List.length samples) - speechEnd) Hsr He). lia.
Qed.

(** X9.  With trailing trim off, a recording whose first window already
    meets the threshold is returned as it came: the original blob, with no
    trim reported. *)
Theorem trimSilence_speech_at_start (audioBlob : Blob) (config : TrimConfig)
    (audioBuffer : AudioBuffer) (samples : list Q) :
  let cfg := merge_config DEFAULT_CONFIG config in
  let sampleRate := buf_sampleRate audioBuffer in
  decodeAudioData audioBlob = Some audioBuffer ->
  mono_samples audioBuffer = Return samples ->
  samples <> [] ->
  0 < window_samples sampleRate cfg ->
  0 < max_leading_samples sampleRate cfg ->
  start_window_meets samples (window_samples sampleRate cfg) (cfg_silenceThreshold cfg) 0 = true ->
  cfg_trimTrailing cfg = false ->
  findSpeechStart samples sampleRate cfg = Some 0 /\
  trimSilence decodeAudioData createBuffer_supported audioBlob config =
    Return {| blob := audioBlob; trimmedLeadingMs := 0; trimmedTrailingMs := 0 |}.
Proof.
  intros cfg sampleRate Hdecode Hmono Hsamples Hw Hcap Hmeets Htrailing.
  assert (Hstart : findSpeechStart samples sampleRate cfg = Some 0).
  { rewrite findSpeechStart_unfold.
    assert (Hlen : 0 < Z.of_nat (List.length samples))
      by (destruct samples; [contradiction|simpl; lia]).
    pose proof (start_loop_first_window samples (window_samples sampleRate cfg)
                  (max_leading_samples sampleRate cfg) (min_silence_samples sampleRate cfg)
                  (cfg_silenceThreshold cfg) Hw 0%nat 0%nat 0%nat (scan_fuel samples)
                  eq_refl) as Hfirst.
    change (Z.of_nat 0 * window_samples sampleRate cfg) with 0 in Hfirst.
    rewrite Hfirst.
    - assert (0 <= window_samples sampleRate cfg / 2) by (apply Z.div_pos; lia).
      destruct (_ >=? _); f_equal; lia.
    - unfold scan_fuel. lia.
    - intros j Hj. lia.
    - exact Hmeets.
    - exact Hlen.
    - exact Hcap. }
  split; [exact Hstart|].
  unfold trimSilence, trimSilence_try, decode. fold cfg.
  rewrite Hdecode. cbn [obind]. rewrite Hmono. cbn [obind].
  fold sampleRate. rewrite Hstart, Htrailing. cbn [obind of_fuel].
  rewrite Z.eqb_refl. cbn zeta. rewrite Z.eqb_refl. simpl.
  destruct (_ <? _); reflexivity.
Qed.

End Range.

(** Two seconds of tone and one of silence at 100 Hz. *)
Lemma trimSilence_speech_at_start_witness :
  trimSilence pcm8_decoder any_buffer (raw (tone 200 ++ silence 100)) empty_config =
    Return {| blob := raw (tone 200 ++ silence 100);
              trimmedLeadingMs := 0; trimmedTrailingMs := 0 |}.
Proof.
  refine (proj2 (trimSilence_speech_at_start pcm8_decoder any_buffer
                   (raw (tone 200 ++ silence 100)) empty_config _
                   (pcm8_samples (tone 200 ++ silence 100)) eq_refl eq_refl _ _ _ _ _)).
  - discriminate.
  - reflexivity.
  - reflexivity.
  - reflexivity.
  - reflexivity.
Defined.

(** Half a second of silence before a second and a half of tone at 100 Hz:
    the range from sample 48 on, 152 frames. *)
Lemma trimSilence_cuts_a_range_witness :
  exists r,
    trimSilence pcm8_decoder any_buffer (raw (silence 50 ++ tone 150)) empty_config = Return r /\
    r <> passthrough (raw (silence 50 ++ tone 150)) /\
    trimmedLeadingMs r = 480 /\
    exists samples speechStart speechEnd,
      reencoded {| buf_sampleRate := 100; buf_length := 200;
                   buf_channels := [pcm8_samples (silence 50 ++ tone 150)] |}
        samples DEFAULT_CONFIG speechStart speechEnd r /\
      speechStart < speechEnd <= Z.of_nat (List.length samples).
Proof.
  destruct (trimSilence pcm8_decoder any_buffer (raw (silence 50 ++ tone 150)) empty_config)
    as [| |r] eqn:Hrun; [vm_compute in Hrun; discriminate..|].
  exists r. split; [reflexivity|].
  assert (Hne : r <> passthrough (raw (silence 50 ++ tone 150))).
  { vm_compute in Hrun. injection Hrun as <-. discriminate. }
  split; [exact Hne|].
  split; [vm_compute in Hrun; injection Hrun as <-; reflexivity|].
  destruct (trimSilence_cuts_a_range pcm8_decoder any_buffer
              (raw (silence 50 ++ tone 150)) empty_config
              {| buf_sampleRate := 100; buf_length := 200;
                 buf_channels := [pcm8_samples (silence 50 ++ tone 150)] |} r)
    as [Hsame|[samples [speechStart [speechEnd [_ [Hre [_ [Hrange _]]]]]]]].
  - reflexivity.
  - reflexivity.
  - reflexivity.
  - discriminate.
  - discriminate.
  - discriminate.
  - exact Hrun.
  - contradiction.
  - exists samples, speechStart, speechEnd. split; [exact Hre|exact Hrange].
Defined.

(** ** Normalized text and similarity *)

Lemma lower_char_idempotent (c : ascii) :
  Text.lower_char (Text.lower_char c) = Text.lower_char c.
Proof. destruct c as [[] [] [] [] [] [] [] []]; reflexivity. Qed.

Lemma toLowerCase_idempotent (s : jsstring) :
  Text.toLowerCase (Text.toLowerCase s) = Text.toLowerCase s.
Proof.
  unfold Text.toLowerCase. rewrite map_map. apply map_ext. apply lower_char_idempotent.
Qed.

Lemma Forall_trimStart (P : ascii -> Prop) (s : jsstring) :
  Forall P s -> Forall P (Text.trimStart s).
Proof.
  induction 1 as [|c s Hc Hs IH]; simpl; [constructor|].
  destruct (Text.is_space c); [exact IH|constructor; assumption].
Qed.

Lemma Forall_trim (P : ascii -> Prop) (s : jsstring) : Forall P s -> Forall P (Text.trim s).
Proof.
  intros H. unfold Text.trim, Text.trimEnd.
  apply Forall_rev, Forall_trimStart, Forall_rev, Forall_trimStart. exact H.
Qed.

Lemma Forall_collapse (P : ascii -> Prop) (s : jsstring) :
  P " "%char -> Forall P s -> forall in_run, Forall P (Text.collapse_from in_run s).
Proof.
  intros Hspace. induction 1 as [|c s Hc Hs IH]; intros in_run; simpl; [constructor|].
  destruct (Text.is_space c); [destruct in_run|]; try constructor; auto.
Qed.

(** After a replaced run the output goes on with a unit that is not white
    space. *)
Lemma collapse_from_run_clean (s : jsstring) : starts_clean (Text.collapse_from true s).
Proof.
  induction s as [|c s IH]; simpl; [exact I|].
  destruct (Text.is_space c) eqn:E; [exact IH|exact E].
Qed.

Lemma collapse_from_white (s : jsstring) : forall in_run,
  Forall (fun c => Text.is_space c = true -> c = " "%char) (Text.collapse_from in_run s).
Proof.
  induction s as [|c s IH]; intros in_run; simpl; [constructor|].
  destruct (Text.is_space c) eqn:E; [destruct in_run|]; try constructor; auto.
  intros H. congruence.
Qed.

Lemma collapse_from_single (s : jsstring) : forall in_run,
  Text.includes (Text.collapse_from in_run s) (str "  ") = false.
Proof.
  induction s as [|c s IH]; intros in_run; [reflexivity|].
  simpl. destruct (Text.is_space c) eqn:E.
  - destruct in_run; [apply IH|].
    cbn [Text.includes]. rewrite IH, orb_false_r.
    pose proof (collapse_from_run_clean s) as Hclean.
    destruct (Text.collapse_from true s) as [|d rest]; [reflexivity|].
    simpl in Hclean. cbn.
    destruct (Ascii.eqb_spec d " "%char) as [->|Hd]; [discriminate|reflexivity].
  - cbn [Text.includes]. rewrite IH, orb_false_r.
    cbn. destruct (Ascii.eqb_spec c " "%char) as [->|Hc]; [discriminate|reflexivity].
Qed.

(** The units of a normalized text. *)
Lemma normalize_normal_chars (text : jsstring) :
  Forall normal_char (normalizeForComparison text).
Proof.
  unfold normalizeForComparison, Text.collapse_spaces.
  set (stripped := Text.strip_punctuation _).
  assert (Hstripped : Forall (fun c => Text.is_punctuation c = false /\ Text.lower_char c = c)
                        stripped).
  { unfold stripped, Text.strip_punctuation.
    apply List.Forall_forall. intros c Hc. apply filter_In in Hc. destruct Hc as [Hin Hkeep].
    split; [apply negb_true_iff; exact Hkeep|].
    assert (Hlower : Forall (fun c => Text.lower_char c = c)
                       (Text.trim (Text.toLowerCase text))).
    { apply Forall_trim. unfold Text.toLowerCase. apply List.Forall_forall.
      intros d Hd. apply in_map_iff in Hd. destruct Hd as [d' [<- _]].
      apply lower_char_idempotent. }
    rewrite List.Forall_forall in Hlower. apply Hlower. exact Hin. }
  pose proof (Forall_collapse _ stripped (conj eq_refl eq_refl) Hstripped false) as Hkept.
  pose proof (collapse_from_white stripped false) as Hwhite.
  rewrite List.Forall_forall in Hkept, Hwhite |- *.
  intros c Hc. destruct (Hkept c Hc) as [Hp Hl]. split; [exact Hp|].
  split; [exact Hl|apply Hwhite; exact Hc].
Qed.

(** X10.  A normalized text holds no punctuation of the class
    [normalizeForComparison] strips and no capital letter, its only white space
    is the space, and no two spaces follow one another. *)
Theorem normalizeForComparison_shape (text : jsstring) :
  Forall normal_char (normalizeForComparison text) /\
  Text.includes (normalizeForComparison text) (str "  ") = false.
Proof.
  split; [apply normalize_normal_chars|apply collapse_from_single].
Qed.

Lemma normalize_toLowerCase (s : jsstring) :
  normalizeForComparison (Text.toLowerCase s) = normalizeForComparison s.
Proof. unfold normalizeForComparison. rewrite toLowerCase_idempotent. reflexivity. Qed.

(** X11.  The fuzzy-duplicate test holds of a text and itself, does not
    depend on the order of its arguments, and is blind to case and to white
    space around either text.  It holds only of texts whose normalized
    lengths are within a quarter of one another, and of a text and the empty
    text only when the text normalizes to nothing. *)
Theorem areSimilarTexts_relation (a b : jsstring) :
  areSimilarTexts a a = true /\
  areSimilarTexts a b = areSimilarTexts b a /\
  areSimilarTexts (Text.toLowerCase a) b = areSimilarTexts a b /\
  areSimilarTexts (Text.trim a) b = areSimilarTexts a b /\
  (areSimilarTexts a b = true ->
   4 * Z.of_nat (List.length (normalizeForComparison a))
     <= 5 * Z.of_nat (List.length (normalizeForComparison b))) /\
  (areSimilarTexts a [] = true <-> normalizeForComparison a = []).
Proof.
  split; [|split; [|split; [|split; [|split]]]].
  - apply areSimilarTexts_spec. left. reflexivity.
  - apply areSimilarTexts_sym.
  - unfold areSimilarTexts. rewrite normalize_toLowerCase. reflexivity.
  - unfold areSimilarTexts. rewrite normalize_trim. reflexivity.
  - intros H. apply areSimilarTexts_spec in H. destruct H as [->|[_ H]]; lia.
  - apply similar_to_empty.
Qed.

Lemma normal_char_space : normal_char " "%char.
Proof. repeat split. Qed.

Lemma Forall_split_spaces (P : ascii -> Prop) (s : jsstring) : forall word,
  Forall P s -> Forall P word -> Forall (Forall P) (Text.split_spaces s word).
Proof.
  induction s as [|c s IH]; intros word Hs Hword; simpl.
  - constructor; [apply Forall_rev; exact Hword|constructor].
  - inversion Hs as [|? ? Hc Hrest]; subst.
    destruct (Ascii.eqb c " "%char).
    + constructor; [apply Forall_rev; exact Hword|]. apply IH; [exact Hrest|constructor].
    + apply IH; [exact Hrest|]. constructor; assumption.
Qed.

Lemma Forall_join (P : ascii -> Prop) (words : list jsstring) :
  P " "%char -> Forall (Forall P) words -> Forall P (Text.join words).
Proof.
  intros Hspace. induction 1 as [|w rest Hw Hrest IH]; simpl; [constructor|].
  destruct rest as [|w' rest]; [exact Hw|].
  apply Forall_app. split; [exact Hw|]. constructor; [exact Hspace|exact IH].
Qed.

(** A remainder the overlap loop returns comes from one of its candidates. *)
Lemma overlap_loop_some (lastWords : jsstring) (newWords : list jsstring) :
  forall candidates trimmed,
  overlap_loop lastWords newWords candidates = Some trimmed ->
  exists i,
    In i candidates /\
    Text.includes lastWords (Text.join (firstn i newWords))
    || Text.includes (Text.join (firstn i newWords))
         (Text.slice_neg (List.length (Text.join (firstn i newWords))) lastWords) = true /\
    trimmed = Text.trim (Text.join (skipn i newWords)) /\
    trimmed <> [].
Proof.
  induction candidates as [|i rest IH]; intros trimmed Hrun; [discriminate|].
  simpl in Hrun.
  destruct (Text.includes lastWords _ || Text.includes _ _) eqn:Htest.
  - destruct (0 <? List.length (Text.trim (Text.join (skipn i newWords))))%nat eqn:Hlen.
    + injection Hrun as <-. exists i. split; [left; reflexivity|].
      split; [exact Htest|]. split; [reflexivity|].
      apply Nat.ltb_lt in Hlen. intros E. rewrite E in Hlen. simpl in Hlen. lia.
    + destruct (IH trimmed Hrun) as [i' [Hin Hrest]]. exists i'. split; [right; exact Hin|exact Hrest].
  - destruct (IH trimmed Hrun) as [i' [Hin Hrest]]. exists i'. split; [right; exact Hin|exact Hrest].
Qed.

(** X12.  [getOverlapWithLastSegment] reports no overlap, and hands the new
    text back, when either text is empty.  Whenever it reports no overlap the
    text comes back unchanged.  When it reports an overlap, the remainder is
    the normalized new text less its first [i] words, for some [i] from 1 to 5
    that leaves at least one word, where those [i] words, joined, either
    occur in the joined last five words of the normalized last segment, or
    contain the end of that joined text (its last characters, as many as the
    [i] words have, or all of it when it is shorter).  In the second case
    words that were never said before are dropped: "banana split" after "a"
    comes back as "split".  The remainder is not empty, has no white space at
    either end, and is in normalized form: lower case and without
    punctuation, whatever the new text looked like. *)
Theorem getOverlapWithLastSegment_result (newText lastSegment : jsstring) :
  let words := Text.split (normalizeForComparison newText) in
  let lastWords :=
    Text.join (Text.last_n 5 (Text.split (normalizeForComparison lastSegment))) in
  let hasOverlap := fst (getOverlapWithLastSegment newText lastSegment) in
  let trimmedText := snd (getOverlapWithLastSegment newText lastSegment) in
  (lastSegment = [] \/ newText = [] -> hasOverlap = false) /\
  (hasOverlap = false -> trimmedText = newText) /\
  (hasOverlap = true ->
   trimmedText <> [] /\
   Text.trim trimmedText = trimmedText /\
   Forall normal_char trimmedText /\
   exists i : nat,
     (1 <= i <= 5)%nat /\ (i < List.length words)%nat /\
     trimmedText = Text.trim (Text.join (skipn i words)) /\
     Text.includes lastWords (Text.join (firstn i words))
     || Text.includes (Text.join (firstn i words))
          (Text.slice_neg (List.length (Text.join (firstn i words))) lastWords) = true).
Proof.
  intros words lastWords hasOverlap trimmedText.
  subst hasOverlap trimmedText. unfold getOverlapWithLastSegment.
  destruct lastSegment as [|l lastSegment];
    [repeat split; try reflexivity; discriminate|].
  destruct newText as [|c newText];
    [repeat split; try reflexivity; discriminate|].
  fold words. fold lastWords.
  destruct (overlap_loop lastWords words _) as [trimmed|] eqn:Hloop; cbn [fst snd].
  - split; [intros [H|H]; discriminate|]. split; [discriminate|]. intros _.
    destruct (overlap_loop_some lastWords words _ trimmed Hloop)
      as [i [Hin [Htest [Htrimmed Hne]]]].
    apply in_seq in Hin.
    split; [exact Hne|]. split; [rewrite Htrimmed; apply trim_idempotent|]. split.
    + rewrite Htrimmed. apply Forall_trim, Forall_join; [apply normal_char_space|].
      apply Forall_drop. unfold words, Text.split.
      apply Forall_split_spaces; [|constructor].
      apply normalize_normal_chars.
    + exists i. split; [lia|]. split; [lia|]. split; [exact Htrimmed|exact Htest].
  - split; [reflexivity|]. split; [reflexivity|discriminate].
Qed.

(** The second test alone reports an overlap: "banana" does not occur in
    "a", but it contains the end of "a". *)
Example getOverlapWithLastSegment_tail_only :
  getOverlapWithLastSegment (str "banana split") (str "a") = (true, str "split") /\
  Text.includes (str "a") (str "banana") = false /\
  Text.includes (str "banana") (Text.slice_neg 6 (str "a")) = true.
Proof. vm_compute. repeat split. Qed.

(** ** The recognition hook *)

Lemma string_eqb_false (s t : jsstring) : Text.string_eqb s t = false <-> s <> t.
Proof.
  rewrite <- string_eqb_spec. destruct (Text.string_eqb s t); split; congruence.
Qed.

Lemma string_eqb_sym (s t : jsstring) : Text.string_eqb s t = Text.string_eqb t s.
Proof.
  apply eq_true_iff_eq. rewrite !string_eqb_spec. split; congruence.
Qed.

Lemma shouldRestartOnError_spec (env : Env) (errorType : jsstring) :
  shouldRestartOnError env errorType = true <->
  errorType = str "network" \/ errorType = str "audio-capture"
  \/ errorType = str "service-not-allowed".
Proof.
  unfold shouldRestartOnError, array_includes. cbn [existsb].
  rewrite !orb_false_r.
  destruct (Text.string_eqb (str "no-speech") errorType) eqn:H1.
  { apply string_eqb_spec in H1. subst. cbn. split; [discriminate|].
    intros [H|[H|H]]; discriminate. }
  destruct (Text.string_eqb (str "aborted") errorType) eqn:H2.
  { apply string_eqb_spec in H2. subst. cbn. split; [discriminate|].
    intros [H|[H|H]]; discriminate. }
  cbn [orb].
  destruct (Text.string_eqb (str "network") errorType) eqn:H3.
  { apply string_eqb_spec in H3. subst. cbn. split; [auto|reflexivity]. }
  destruct (Text.string_eqb (str "audio-capture") errorType) eqn:H4.
  { apply string_eqb_spec in H4. subst. cbn. split; [auto|reflexivity]. }
  destruct (Text.string_eqb (str "service-not-allowed") errorType) eqn:H5.
  { apply string_eqb_spec in H5. subst. cbn. split; [auto|reflexivity]. }
  cbn [orb].
  rewrite (string_eqb_sym errorType), H3, andb_false_r.
  apply string_eqb_false in H3, H4, H5.
  split; [discriminate|]. intros [H|[H|H]]; congruence.
Qed.

(** X13.  An error makes the hook retry exactly when it is a network,
    audio-capture or service-not-allowed error, on every browser: the extra
    test for Edge never decides anything.  The two ignored kinds are never
    retried. *)
Theorem shouldRestartOnError_exact (env env' : Env) (errorType : jsstring) :
  (shouldRestartOnError env errorType = true <->
   errorType = str "network" \/ errorType = str "audio-capture"
   \/ errorType = str "service-not-allowed") /\
  shouldRestartOnError env' errorType = shouldRestartOnError env errorType /\
  (ignored_error errorType = true -> shouldRestartOnError env errorType = false).
Proof.
  split; [apply shouldRestartOnError_spec|]. split.
  - apply eq_true_iff_eq. rewrite !shouldRestartOnError_spec. reflexivity.
  - intros Hignored. apply not_true_is_false. rewrite shouldRestartOnError_spec.
    unfold ignored_error in Hignored. apply orb_true_iff in Hignored.
    rewrite !string_eqb_spec in Hignored.
    intros [H|[H|H]]; destruct Hignored as [E|E]; rewrite E in H; discriminate.
Qed.

Ltac hook_simpl :=
  cbv zeta;
  cbn [session isManualStop isRestarting recognition sessionStart lastResultAt
       consecutiveFailures transientRetryCount error calls
       isRecording finalSegments lastFinalText latestInterim
       set_session set_isManualStop set_isRestarting set_recognition set_sessionStart
       set_lastResultAt set_consecutiveFailures set_transientRetryCount setError emit
       set_isRecording set_finalSegments set_lastFinalText set_latestInterim
       negb andb orb].

Lemma safeRestart_keeps (env : Env) (stop_throws : bool) (h : Hook) :
  session (safeRestart env stop_throws h) = session h /\
  isManualStop (safeRestart env stop_throws h) = isManualStop h /\
  transientRetryCount (safeRestart env stop_throws h) = transientRetryCount h /\
  consecutiveFailures (safeRestart env stop_throws h) = consecutiveFailures h /\
  error (safeRestart env stop_throws h) = error h.
Proof.
  unfold safeRestart.
  destruct (negb _ || _); [auto|]. destruct (isRestarting h); [auto|].
  cbn. destruct (recognition h); [destruct stop_throws|]; auto.
Qed.

(** One error while recording. *)
Lemma handleError_step (env : Env) (errorType : jsstring) (stop_throws : bool) (h : Hook) :
  isRecording (session h) = true -> isManualStop h = false ->
  let h' := handleError env errorType stop_throws h in
  let retried := shouldRestartOnError env errorType in
  let counted :=
    negb (ignored_error errorType)
    && negb (retried && (transientRetryCount h + 1 <=? MAX_TRANSIENT_RETRIES)) in
  session h' = session h /\ isManualStop h' = false /\
  transientRetryCount h' = transientRetryCount h + (if retried then 1 else 0) /\
  consecutiveFailures h' = consecutiveFailures h + (if counted then 1 else 0) /\
  (error h' = None <->
   error h = None /\ (counted = false \/ consecutiveFailures h + 1 < MAX_CONSECUTIVE_FAILURES)).
Proof.
  intros Hrec Hmanual h' retried counted. subst h' counted. unfold handleError.
  fold (ignored_error errorType).
  destruct (ignored_error errorType) eqn:Hignored.
  - assert (Hr : retried = false).
    { apply not_true_is_false. intros Hr. unfold retried in Hr.
      apply shouldRestartOnError_spec in Hr. unfold ignored_error in Hignored.
      apply orb_true_iff in Hignored. rewrite !string_eqb_spec in Hignored.
      destruct Hr as [H|[H|H]]; destruct Hignored as [E|E]; rewrite E in H; discriminate. }
    rewrite Hr. cbn. repeat split; try lia; try assumption; tauto.
  - rewrite Hrec, Hmanual. cbn [negb andb]. fold retried.
    assert (Hcount : forall h0 : Hook,
              session h0 = session h -> isManualStop h0 = false ->
              consecutiveFailures h0 = consecutiveFailures h -> error h0 = error h ->
              let h1 := set_consecutiveFailures (consecutiveFailures h0 + 1) h0 in
              let h' := if consecutiveFailures h1 >=? MAX_CONSECUTIVE_FAILURES
                        then setError (str "Speech recognition error: " ++ errorType) h1
                        else h1 in
              session h' = session h /\ isManualStop h' = false /\
              transientRetryCount h' = transientRetryCount h0 /\
              consecutiveFailures h' = consecutiveFailures h + 1 /\
              (error h' = None <->
               error h = None /\
               (true = false \/ consecutiveFailures h + 1 < MAX_CONSECUTIVE_FAILURES))).
    { intros h0 Hs Hm Hf He. hook_simpl. rewrite Hf.
      destruct (Z.geb_spec (consecutiveFailures h + 1) MAX_CONSECUTIVE_FAILURES);
        hook_simpl; rewrite ?Hs, ?Hm, ?Hf, ?He; repeat split; try lia; auto;
        try discriminate; try tauto. }
    destruct retried.
    + hook_simpl.
      destruct (transientRetryCount h + 1 <=? MAX_TRANSIENT_RETRIES).
      * destruct (safeRestart_keeps env stop_throws
                    (set_transientRetryCount (transientRetryCount h + 1) h))
          as [Hs [Hm [Ht [Hf He]]]].
        rewrite Hs, Hm, Ht, Hf, He. hook_simpl.
        repeat split; try lia; try assumption; tauto.
      * apply (Hcount (set_transientRetryCount (transientRetryCount h + 1) h));
          try reflexivity. exact Hmanual.
    + hook_simpl. rewrite Z.add_0_r. apply (Hcount h); try reflexivity. exact Hmanual.
Qed.

Lemma count_restartable_cons (env : Env) (error : jsstring * bool) errors :
  count_restartable env (error :: errors) =
  (if shouldRestartOnError env (fst error) then 1 else 0) + count_restartable env errors.
Proof.
  unfold count_restartable. cbn [List.filter].
  destruct (shouldRestartOnError env (fst error)); cbn [List.length]; lia.
Qed.

Lemma count_other_cons (env : Env) (error : jsstring * bool) errors :
  count_other env (error :: errors) =
  (if negb (ignored_error (fst error)) && negb (shouldRestartOnError env (fst error))
   then 1 else 0) + count_other env errors.
Proof.
  unfold count_other. cbn [List.filter].
  destruct (negb _ && negb _); cbn [List.length]; lia.
Qed.

Lemma count_restartable_nonneg env errors : 0 <= count_restartable env errors.
Proof. unfold count_restartable. lia. Qed.

(** A run of errors while recording, from any state of the counters. *)
Lemma handleError_run (env : Env) (errors : list (jsstring * bool)) : forall h : Hook,
  isRecording (session h) = true -> isManualStop h = false ->
  0 <= transientRetryCount h ->
  let h' := run env (error_events errors) h in
  let r := count_restartable env errors in
  session h' = session h /\ isManualStop h' = false /\
  transientRetryCount h' = transientRetryCount h + r /\
  consecutiveFailures h' =
    consecutiveFailures h + count_other env errors
    + (Z.max 0 (transientRetryCount h + r - MAX_TRANSIENT_RETRIES)
       - Z.max 0 (transientRetryCount h - MAX_TRANSIENT_RETRIES)) /\
  ((error h = None <-> consecutiveFailures h < MAX_CONSECUTIVE_FAILURES) ->
   (error h' = None <-> consecutiveFailures h' < MAX_CONSECUTIVE_FAILURES)).
Proof.
  induction errors as [|[errorType stop_throws] errors IH]; intros h Hrec Hmanual Ht.
  - cbn. unfold count_restartable, count_other. cbn.
    split; [reflexivity|]. split; [exact Hmanual|]. split; [lia|]. split; [lia|auto].
  - cbn [error_events map run fold_left step fst snd].
    destruct (handleError_step env errorType stop_throws h Hrec Hmanual)
      as [Hs [Hm [Ht1 [Hf1 He1]]]].
    cbv zeta in Hs, Hm, Ht1, Hf1, He1.
    set (h1 := handleError env errorType stop_throws h) in *.
    assert (Hignored : ignored_error errorType = true ->
                       shouldRestartOnError env errorType = false).
    { intros Hi. apply not_true_is_false. rewrite shouldRestartOnError_spec.
      unfold ignored_error in Hi. apply orb_true_iff in Hi.
      rewrite !string_eqb_spec in Hi.
      intros [H|[H|H]]; destruct Hi as [E|E]; rewrite E in H; discriminate. }
    destruct (IH h1) as [Hs' [Hm' [Ht' [Hf' He']]]].
    + rewrite Hs. exact Hrec.
    + exact Hm.
    + rewrite Ht1. destruct (shouldRestartOnError env errorType); lia.
    + change (fold_left (step env) (map (fun error => EvError (fst error) (snd error)) errors) h1)
        with (run env (error_events errors) h1).
      cbv zeta in Hs', Hm', Ht', Hf', He'.
      pose proof (count_restartable_nonneg env errors) as Hr.
      rewrite count_restartable_cons, count_other_cons. cbn [fst].
      split; [congruence|]. split; [exact Hm'|]. split; [|split].
      * rewrite Ht', Ht1. lia.
      * rewrite Hf', Hf1, Ht1. unfold MAX_TRANSIENT_RETRIES in *.
        destruct (ignored_error errorType) eqn:Hi.
        { rewrite (Hignored eq_refl). cbn [negb andb]. lia. }
        destruct (shouldRestartOnError env errorType) eqn:Hr'; cbn [negb andb].
        -- destruct (Z.leb_spec (transientRetryCount h + 1) 3); cbn [negb]; lia.
        -- lia.
      * intros Herr. apply He'. rewrite He1, Hf1.
        destruct (negb (ignored_error errorType) && _); [|rewrite Z.add_0_r; tauto].
        split; [intros [H1 [H2|H2]]; [discriminate|lia]|].
        intros H. split; [apply Herr; lia|right; lia].
Qed.

(** X14.  Errors that arrive while recording, after the counters were
    reset (by [startListening] or by a result): the ignored kinds change
    nothing; of the retried kinds only those after the third are counted as
    failures; every other kind is counted at once.  The error is shown to
    the user exactly when the failures counted reach ten. *)
Theorem handleError_counts (env : Env) (errors : list (jsstring * bool)) (h : Hook) :
  let h' := run env (error_events errors) h in
  let retried := count_restartable env errors in
  isRecording (session h) = true ->
  isManualStop h = false ->
  transientRetryCount h = 0 ->
  consecutiveFailures h = 0 ->
  error h = None ->
  transientRetryCount h' = retried /\
  consecutiveFailures h' = count_other env errors + Z.max 0 (retried - 3) /\
  (error h' <> None <-> 10 <= consecutiveFailures h') /\
  session h' = session h /\
  isManualStop h' = false.
Proof.
  intros h' retried Hrec Hmanual Ht Hf Herr.
  destruct (handleError_run env errors h Hrec Hmanual ltac:(lia))
    as [Hs [Hm [Ht' [Hf' He']]]].
  cbv zeta in Hs, Hm, Ht', Hf', He'. fold h' retried in Hs, Hm, Ht', Hf', He'.
  assert (He : error h' = None <-> consecutiveFailures h' < MAX_CONSECUTIVE_FAILURES).
  { apply He'. rewrite Herr, Hf. unfold MAX_CONSECUTIVE_FAILURES. split; [lia|reflexivity]. }
  clear He'.
  unfold MAX_TRANSIENT_RETRIES, MAX_CONSECUTIVE_FAILURES in *.
  rewrite Ht, Hf in *.
  split; [lia|]. split; [lia|]. split; [|split; assumption].
  rewrite He. lia.
Qed.

(** Six network errors and four of an unknown kind: seven failures are
    counted, and no error is shown yet. *)
Lemma handleError_counts_witness :
  let errors := repeat (str "network", false) 6 ++ repeat (str "bad-grammar", false) 4 in
  let h := startListening {| isEdge := false; isChrome := true; isSupported := true;
                             hasRecognitionAPI := true |} 1000 None initial_hook in
  let h' := run {| isEdge := false; isChrome := true; isSupported := true;
                   hasRecognitionAPI := true |} (error_events errors) h in
  consecutiveFailures h' = 7 /\ (error h' <> None <-> 10 <= consecutiveFailures h').
Proof.
  intros errors h h'.
  destruct (handleError_counts {| isEdge := false; isChrome := true; isSupported := true;
                                  hasRecognitionAPI := true |} errors h
              eq_refl eq_refl eq_refl eq_refl eq_refl) as [_ [Hf [He _]]].
  split; [exact Hf|exact He].
Defined.

Lemma run_app (env : Env) (events events' : list Event) (h : Hook) :
  run env (events ++ events') h = run env events' (run env events h).
Proof. unfold run. apply fold_left_app. Qed.

(** Errors change neither the session nor the stop flag. *)
Lemma error_events_keep (env : Env) (errors : list (jsstring * bool)) : forall h : Hook,
  session (run env (error_events errors) h) = session h /\
  isManualStop (run env (error_events errors) h) = isManualStop h.
Proof.
  induction errors as [|[errorType stop_throws] errors IH]; intros h; [auto|].
  cbn [error_events map run fold_left step fst snd].
  change (fold_left (step env) (map (fun error => EvError (fst error) (snd error)) errors))
    with (run env (error_events errors)).
  destruct (IH (handleError env errorType stop_throws h)) as [Hs Hm].
  rewrite Hs, Hm. clear IH Hs Hm.
  unfold handleError. destruct (_ || _); [auto|]. cbv zeta.
  destruct (isRecording (session h) && negb (isManualStop h)
            && shouldRestartOnError env errorType); cbn [andb].
  - destruct (Z.leb _ _).
    + destruct (safeRestart_keeps env stop_throws
                  (set_transientRetryCount (transientRetryCount h + 1) h)) as [Hs [Hm _]].
      rewrite Hs, Hm. auto.
    + destruct (Z.geb _ _); auto.
  - destruct (Z.geb _ _); auto.
Qed.

Lemma step_after_manual_stop (env : Env) (h : Hook) (e : Event) :
  isManualStop h = true -> is_start e = false ->
  isManualStop (step env h e) = true /\
  (isRestarting (step env h e) = true -> isRestarting h = true) /\
  exists added,
    calls (step env h e) = calls h ++ added /\ Forall (fun c => restarts c = false) added.
Proof.
  intros Hmanual Hstart.
  assert (Hnone : forall (manual restarting : bool) (log : list Call),
                    manual = true -> restarting = isRestarting h -> log = calls h ->
                    manual = true /\
                    (restarting = true -> isRestarting h = true) /\
                    exists added,
                      log = calls h ++ added /\
                      Forall (fun c => restarts c = false) added).
  { intros manual restarting log Hm Hr Hc. split; [exact Hm|]. split; [congruence|].
    exists []. rewrite app_nil_r. split; [exact Hc|constructor]. }
  destruct e; cbn [step]; try discriminate.
  - unfold onresult. destruct (negb _); apply Hnone; auto.
  - unfold handleError.
    destruct (_ || _); [apply Hnone; auto|].
    rewrite Hmanual. rewrite andb_false_r. cbn [negb andb].
    hook_simpl. destruct (_ >=? _); apply Hnone; auto.
  - unfold handleEnd. hook_simpl. rewrite Hmanual, orb_true_r. apply Hnone; auto.
  - unfold restart_callback. rewrite Hmanual, orb_true_r.
    split; [exact Hmanual|]. split; [discriminate|].
    exists []. rewrite app_nil_r. split; [reflexivity|constructor].
  - unfold watchdog. rewrite Hmanual, orb_true_r. apply Hnone; auto.
  - unfold stopListening. hook_simpl.
    destruct (recognition h && negb stop_throws); hook_simpl.
    + split; [reflexivity|]. split; [auto|].
      exists [CallStop; TimerGrace 150]. rewrite <- app_assoc.
      split; [reflexivity|repeat constructor].
    + split; [reflexivity|]. split; [auto|].
      exists [TimerGrace 150]. split; [reflexivity|repeat constructor].
  - unfold stop_callback. apply Hnone; auto.
  - unfold abort. hook_simpl.
    destruct (recognition h); [|apply Hnone; auto].
    destruct abort_throws; hook_simpl; [apply Hnone; auto|].
    split; [reflexivity|]. split; [auto|].
    exists [CallAbort]. split; [reflexivity|repeat constructor].
  - unfold clearTranscript. apply Hnone; auto.
Qed.

(** X15.  Once the user has stopped ([isManualStop] set by [stopListening]
    or [abort]), nothing but a new [startListening] brings recognition back:
    whatever events follow, in whatever order (results, errors, [onend],
    restart timers that were already set, watchdog ticks), the hook never
    calls [start()] and never sets a restart timer, [isManualStop] stays set,
    and no restart cycle begins. *)
Theorem manual_stop_is_final (env : Env) (events : list Event) (h : Hook) :
  isManualStop h = true ->
  forallb (fun e => negb (is_start e)) events = true ->
  isManualStop (run env events h) = true /\
  (isRestarting (run env events h) = true -> isRestarting h = true) /\
  exists added,
    calls (run env events h) = calls h ++ added /\
    Forall (fun c => restarts c = false) added.
Proof.
  revert h. induction events as [|e events IH]; intros h Hmanual Hquiet.
  - cbn. split; [exact Hmanual|]. split; [auto|].
    exists []. rewrite app_nil_r. split; [reflexivity|constructor].
  - cbn [forallb] in Hquiet. apply andb_true_iff in Hquiet.
    destruct Hquiet as [He Hrest]. apply negb_true_iff in He.
    destruct (step_after_manual_stop env h e Hmanual He) as [Hm [Hr [added [Hc Hadded]]]].
    destruct (IH (step env h e) Hm Hrest) as [Hm' [Hr' [added' [Hc' Hadded']]]].
    cbn [run fold_left]. fold (run env events (step env h e)).
    split; [exact Hm'|]. split; [auto|].
    exists (added ++ added'). rewrite Hc', Hc, <- app_assoc.
    split; [reflexivity|]. apply Forall_app. split; assumption.
Qed.

(** A session that is stopped while a restart timer is pending: the timer,
    an error and [onend] arrive after the stop, and add only the [stop()]
    call and the grace timer to the log. *)
Lemma manual_stop_is_final_witness :
  let env := {| isEdge := false; isChrome := true; isSupported := true;
                hasRecognitionAPI := true |} in
  let h := run env [EvStartListening 0 None; EvEnd; EvStopListening false] initial_hook in
  let h' := run env [EvRestartTimer 500 false; EvError (str "network") false; EvEnd;
                     EvGraceTimer; EvWatchdog 50000 false] h in
  calls h = [CallStart; TimerRestart 200; CallStop; TimerGrace 150] /\
  isManualStop h' = true /\
  exists added, calls h' = calls h ++ added /\ Forall (fun c => restarts c = false) added.
Proof.
  intros env h h'.
  destruct (manual_stop_is_final env
              [EvRestartTimer 500 false; EvError (str "network") false; EvEnd;
               EvGraceTimer; EvWatchdog 50000 false] h eq_refl eq_refl)
    as [Hmanual [_ Hcalls]].
  split; [reflexivity|]. split; [exact Hmanual|exact Hcalls].
Defined.

(** The text an overlap leaves is a clean segment. *)
Lemma overlap_remainder_clean (newText lastSegment : jsstring) :
  fst (getOverlapWithLastSegment newText lastSegment) = true ->
  clean_segment (snd (getOverlapWithLastSegment newText lastSegment)).
Proof.
  unfold getOverlapWithLastSegment.
  destruct lastSegment as [|l lastSegment]; [discriminate|].
  destruct newText as [|c newText]; [discriminate|].
  destruct (overlap_loop _ _ _) as [trimmed|] eqn:Hloop; [|discriminate].
  intros _. cbn [snd].
  destruct (overlap_loop_some _ _ _ trimmed Hloop) as [i [_ [_ [-> Hne]]]].
  split; [exact Hne|apply trim_idempotent].
Qed.

(** What is pushed for a trimmed text that is not empty. *)
Lemma pushed_text_clean (text lastSegment : jsstring) :
  let '(hasOverlap, trimmedText) := getOverlapWithLastSegment (Text.trim text) lastSegment in
  let pushed := if hasOverlap then trimmedText else Text.trim text in
  (0 <? List.length pushed)%nat = true -> clean_segment pushed.
Proof.
  pose proof (overlap_remainder_clean (Text.trim text) lastSegment) as Hoverlap.
  destruct (getOverlapWithLastSegment (Text.trim text) lastSegment)
    as [[|] trimmedText]; cbn [fst snd] in *.
  - intros _. apply Hoverlap. reflexivity.
  - intros Hlen. apply Nat.ltb_lt in Hlen. split; [|apply trim_idempotent].
    intros E. rewrite E in Hlen. simpl in Hlen. lia.
Qed.

Lemma handleFinal_appends (text : jsstring) (s : Session) :
  isRecording (handleFinal text s) = isRecording s /\
  exists added,
    finalSegments (handleFinal text s) = finalSegments s ++ added /\
    Forall clean_segment added.
Proof.
  assert (Hnone : forall segments : list jsstring,
            segments = finalSegments s ->
            exists added, segments = finalSegments s ++ added /\ Forall clean_segment added).
  { intros segments ->. exists []. rewrite app_nil_r. split; [reflexivity|constructor]. }
  unfold handleFinal. cbn [lastFinalText finalSegments isRecording latestInterim].
  destruct (areSimilarTexts _ _); [split; [reflexivity|apply Hnone; reflexivity]|].
  destruct (0 <? List.length (Text.trim text))%nat;
    [|split; [reflexivity|apply Hnone; reflexivity]].
  pose proof (pushed_text_clean text (last_segment (finalSegments s))) as Hclean.
  destruct (getOverlapWithLastSegment _ _) as [hasOverlap trimmedText].
  cbv zeta in Hclean.
  destruct (0 <? List.length _)%nat eqn:Hlen;
    [|split; [reflexivity|apply Hnone; reflexivity]].
  split; [reflexivity|]. cbn [finalSegments].
  eexists. split; [reflexivity|]. constructor; [first [exact (Hclean Hlen)|exact (Hclean eq_refl)]|constructor].
Qed.

Lemma handleResult_appends (resultIndex : nat) (results : list SpeechResult) (s : Session) :
  isRecording (handleResult resultIndex results s) = isRecording s /\
  exists added,
    finalSegments (handleResult resultIndex results s) = finalSegments s ++ added /\
    Forall clean_segment added.
Proof.
  unfold handleResult.
  destruct (negb (isRecording s)).
  { split; [reflexivity|]. exists []. rewrite app_nil_r. split; [reflexivity|constructor]. }
  generalize (skipn resultIndex results). intros rest. revert s.
  induction rest as [|r rest IH]; intros s; cbn [fold_left].
  { split; [reflexivity|]. exists []. rewrite app_nil_r. split; [reflexivity|constructor]. }
  destruct (isFinal r).
  - destruct (handleFinal_appends (transcript r) s) as [Hrec [added [Hsegs Hclean]]].
    destruct (IH (handleFinal (transcript r) s)) as [Hrec' [added' [Hsegs' Hclean']]].
    split; [congruence|].
    exists (added ++ added'). rewrite Hsegs', Hsegs, <- app_assoc.
    split; [reflexivity|apply Forall_app; split; assumption].
  - destruct (IH (handleInterim (transcript r) s)) as [Hrec' [added' [Hsegs' Hclean']]].
    split; [exact Hrec'|]. exists added'. split; [exact Hsegs'|exact Hclean'].
Qed.

(** What a flush pushes. *)
Lemma flushed_text_clean (interim : jsstring) (s : Session) :
  (0 <? List.length (text_to_flush (Text.trim interim) s))%nat = true ->
  clean_segment (text_to_flush (Text.trim interim) s).
Proof.
  unfold text_to_flush.
  pose proof (pushed_text_clean interim (last_segment (finalSegments s))) as Hclean.
  destruct (getOverlapWithLastSegment _ _) as [hasOverlap trimmedText]. exact Hclean.
Qed.

Lemma flushInterimIfAny_appends (s : Session) :
  isRecording (flushInterimIfAny s) = isRecording s /\
  lastFinalText (flushInterimIfAny s) = lastFinalText s /\
  exists added,
    finalSegments (flushInterimIfAny s) = finalSegments s ++ added /\
    Forall clean_segment added /\ (List.length added <= 1)%nat.
Proof.
  unfold flushInterimIfAny.
  assert (Hnone : exists added,
            finalSegments s = finalSegments s ++ added /\ Forall clean_segment added /\
            (List.length added <= 1)%nat).
  { exists []. rewrite app_nil_r. split; [reflexivity|]. split; [constructor|simpl; lia]. }
  destruct (_ =? 0)%nat; [auto|].
  destruct (areSimilarTexts _ _); [auto|].
  pose proof (flushed_text_clean (latestInterim s) s) as Hclean.
  destruct (0 <? List.length _)%nat eqn:Hlen; hook_simpl; [|auto].
  split; [reflexivity|]. split; [reflexivity|].
  eexists. split; [reflexivity|].
  split; [constructor; [first [exact (Hclean Hlen)|exact (Hclean eq_refl)]|constructor]|simpl; lia].
Qed.

Lemma stop_callback_appends (h : Hook) :
  exists added,
    finalSegments (session (stop_callback h)) = finalSegments (session h) ++ added /\
    Forall clean_segment added.
Proof.
  unfold stop_callback.
  assert (Hnone : exists added,
            finalSegments (session h) = finalSegments (session h) ++ added /\
            Forall clean_segment added).
  { exists []. rewrite app_nil_r. split; [reflexivity|constructor]. }
  hook_simpl.
  destruct (negb (_ =? 0)%nat && _); hook_simpl; [|exact Hnone].
  pose proof (flushed_text_clean (latestInterim (session h))
                (set_isRecording false (session h))) as Hclean.
  destruct (0 <? List.length _)%nat eqn:Hlen; hook_simpl; [|exact Hnone].
  eexists. split; [reflexivity|].
  constructor; [first [exact (Hclean Hlen)|exact (Hclean eq_refl)]|constructor].
Qed.

Lemma safeRestart_session (env : Env) (stop_throws : bool) (h : Hook) :
  session (safeRestart env stop_throws h) = session h.
Proof. apply safeRestart_keeps. Qed.

Lemma handleError_session (env : Env) (errorType : jsstring) (stop_throws : bool) (h : Hook) :
  session (handleError env errorType stop_throws h) = session h.
Proof.
  unfold handleError. destruct (_ || _); [reflexivity|].
  cbv zeta.
  destruct (isRecording (session h) && negb (isManualStop h)
            && shouldRestartOnError env errorType); cbn [andb].
  - destruct (Z.leb _ _); [rewrite safeRestart_session; reflexivity|].
    destruct (Z.geb _ _); reflexivity.
  - destruct (Z.geb _ _); reflexivity.
Qed.

Lemma watchdog_session (env : Env) (now : Z) (stop_throws : bool) (h : Hook) :
  session (watchdog env now stop_throws h) = session h.
Proof.
  unfold watchdog. cbv zeta. destruct (_ || _); [reflexivity|].
  destruct (Z.gtb _ _); [apply safeRestart_session|].
  destruct (_ && _); [apply safeRestart_session|reflexivity].
Qed.

(** Every event other than [startListening] and [clearTranscript] leaves
    the stored segments in place and adds clean segments only. *)
Lemma step_appends (env : Env) (h : Hook) (e : Event) :
  resets_transcript e = false ->
  exists added,
    finalSegments (session (step env h e)) = finalSegments (session h) ++ added /\
    Forall clean_segment added.
Proof.
  intros Hreset.
  assert (Hnone : forall s, s = session h ->
            exists added,
              finalSegments s = finalSegments (session h) ++ added /\
              Forall clean_segment added).
  { intros s ->. exists []. rewrite app_nil_r. split; [reflexivity|constructor]. }
  destruct e; cbn [step]; try discriminate.
  - unfold onresult. destruct (negb _); [apply Hnone; reflexivity|]. hook_simpl.
    apply handleResult_appends.
  - apply Hnone, handleError_session.
  - assert (Hs : session (handleEnd env h) = flushInterimIfAny (session h)).
    { unfold handleEnd. hook_simpl. destruct (_ || _); [reflexivity|].
      destruct (isRestarting h); reflexivity. }
    rewrite Hs. destruct (flushInterimIfAny_appends (session h))
      as [_ [_ [added [Hsegs [Hclean _]]]]].
    exists added. split; assumption.
  - unfold restart_callback. destruct (_ || _); [apply Hnone; reflexivity|]. hook_simpl.
    destruct (recognition h); [destruct start_throws|]; exists [];
      rewrite app_nil_r; split; try reflexivity; constructor.
  - apply Hnone, watchdog_session.
  - unfold stopListening. hook_simpl. apply Hnone.
    destruct (_ && _); reflexivity.
  - apply stop_callback_appends.
  - unfold abort. hook_simpl.
    destruct (recognition h); [destruct abort_throws|]; exists [];
      rewrite app_nil_r; split; try reflexivity; constructor.
Qed.

Lemma step_keeps_clean (env : Env) (h : Hook) (e : Event) :
  Forall clean_segment (finalSegments (session h)) ->
  Forall clean_segment (finalSegments (session (step env h e))).
Proof.
  intros Hclean.
  destruct (resets_transcript e) eqn:Hreset.
  - destruct e; try discriminate; cbn [step].
    + unfold startListening.
      destruct (negb (isSupported env)); [exact Hclean|].
      destruct (negb (hasRecognitionAPI env)); [exact Hclean|].
      hook_simpl. destruct start_error; constructor.
    + constructor.
  - destruct (step_appends env h e Hreset) as [added [-> Hadded]].
    apply Forall_app. split; assumption.
Qed.

Lemma join_app_prefix (a b : list jsstring) :
  exists rest, Text.join (a ++ b) = Text.join a ++ rest.
Proof.
  induction a as [|w a IH]; [exists (Text.join b); reflexivity|].
  destruct a as [|w' a].
  - destruct b as [|w' b]; [exists []; symmetry; apply app_nil_r|].
    exists (" "%char :: Text.join (w' :: b)). reflexivity.
  - destruct IH as [rest IH]. exists rest.
    change (Text.join ((w :: w' :: a) ++ b))
      with (w ++ " "%char :: Text.join ((w' :: a) ++ b)).
    rewrite IH. change (Text.join (w :: w' :: a)) with (w ++ " "%char :: Text.join (w' :: a)).
    rewrite <- app_assoc. reflexivity.
Qed.

(** X16.  The segment buffer is append-only.  Over any sequence of events
    without [startListening] and [clearTranscript], the segments stored
    before are still there, in their places and unchanged, and the transcript
    assembled before is a prefix of the transcript assembled after.  And
    over any sequence of events at all, every stored segment is clean: not
    empty, and without white space at either end. *)
Theorem segments_append_only (env : Env) (events : list Event) (h : Hook) :
  (forallb (fun e => negb (resets_transcript e)) events = true ->
   (exists added,
      finalSegments (session (run env events h)) = finalSegments (session h) ++ added /\
      Forall clean_segment added) /\
   exists rest,
     fullTranscript (session (run env events h)) = fullTranscript (session h) ++ rest) /\
  (Forall clean_segment (finalSegments (session h)) ->
   Forall clean_segment (finalSegments (session (run env events h)))).
Proof.
  split.
  - intros Hquiet.
    assert (Hadded : exists added,
              finalSegments (session (run env events h)) = finalSegments (session h) ++ added /\
              Forall clean_segment added).
    { revert h. induction events as [|e events IH]; intros h.
      - exists []. rewrite app_nil_r. split; [reflexivity|constructor].
      - cbn [forallb] in Hquiet. apply andb_true_iff in Hquiet.
        destruct Hquiet as [He Hrest]. apply negb_true_iff in He.
        destruct (step_appends env h e He) as [added [Hsegs Hclean]].
        destruct (IH Hrest (step env h e)) as [added' [Hsegs' Hclean']].
        cbn [run fold_left]. fold (run env events (step env h e)).
        exists (added ++ added'). rewrite Hsegs', Hsegs, <- app_assoc.
        split; [reflexivity|apply Forall_app; split; assumption]. }
    split; [exact Hadded|].
    destruct Hadded as [added [Hsegs _]]. unfold fullTranscript. rewrite Hsegs.
    apply join_app_prefix.
  - revert h. induction events as [|e events IH]; intros h Hclean; [exact Hclean|].
    cbn [run fold_left]. apply IH. apply step_keeps_clean. exact Hclean.
Qed.

Lemma flushInterimIfAny_idle (s : Session) :
  nothing_pending s -> flushInterimIfAny s = s.
Proof. unfold nothing_pending, flushInterimIfAny. intros ->. reflexivity. Qed.

Lemma flushInterimIfAny_settles (s : Session) : nothing_pending (flushInterimIfAny s).
Proof.
  unfold nothing_pending, flushInterimIfAny.
  destruct (List.length (Text.trim (latestInterim s)) =? 0)%nat eqn:Hempty.
  - apply Nat.eqb_eq in Hempty. destruct (Text.trim (latestInterim s)); [reflexivity|].
    simpl in Hempty. lia.
  - destruct (areSimilarTexts _ _); [reflexivity|].
    destruct (0 <? _)%nat; reflexivity.
Qed.

Lemma handleEnd_session (env : Env) (h : Hook) :
  session (handleEnd env h) = flushInterimIfAny (session h).
Proof.
  unfold handleEnd. hook_simpl. destruct (_ || _); [reflexivity|].
  destruct (isRestarting h); reflexivity.
Qed.

Lemma stop_callback_idle (h : Hook) :
  nothing_pending (session h) ->
  finalSegments (session (stop_callback h)) = finalSegments (session h).
Proof.
  unfold nothing_pending, stop_callback. hook_simpl. intros ->. reflexivity.
Qed.

Lemma stop_callback_settles (h : Hook) :
  isRecording (session (stop_callback h)) = false /\
  nothing_pending (session (stop_callback h)).
Proof.
  unfold nothing_pending, stop_callback. hook_simpl.
  destruct (negb _ && negb _); [destruct (0 <? _)%nat|]; split; reflexivity.
Qed.

(** A hook that is not recording and has nothing pending stays so, with
    its segments, under every event but [startListening] and
    [clearTranscript]. *)
Lemma step_frozen (env : Env) (h : Hook) (e : Event) :
  resets_transcript e = false ->
  isRecording (session h) = false -> nothing_pending (session h) ->
  isRecording (session (step env h e)) = false /\
  nothing_pending (session (step env h e)) /\
  finalSegments (session (step env h e)) = finalSegments (session h).
Proof.
  intros Hreset Hrec Hidle.
  assert (Hsame : forall s, s = session h ->
            isRecording s = false /\ nothing_pending s /\
            finalSegments s = finalSegments (session h)).
  { intros s ->. auto. }
  destruct e; cbn [step]; try discriminate.
  - unfold onresult. rewrite Hrec. apply Hsame. reflexivity.
  - apply Hsame, handleError_session.
  - apply Hsame. rewrite handleEnd_session. apply flushInterimIfAny_idle. exact Hidle.
  - unfold restart_callback. rewrite Hrec. apply Hsame. reflexivity.
  - apply Hsame, watchdog_session.
  - unfold stopListening. hook_simpl. apply Hsame. destruct (_ && _); reflexivity.
  - unfold nothing_pending in *. unfold stop_callback. hook_simpl. rewrite Hidle.
    cbn. auto.
  - unfold abort. hook_simpl.
    destruct (recognition h); [destruct abort_throws|]; hook_simpl; auto.
Qed.

(** X17.  A pending interim text is flushed once.  [onend] leaves nothing
    pending, so a second [onend], or the grace timer of [stopListening] after
    it, adds nothing.  And once the grace timer has run, the transcript is
    final: no later event but [startListening] and [clearTranscript], late
    results and [onend] included, changes the segment buffer. *)
Theorem interim_flushed_once (env : Env) (events : list Event) (h : Hook) :
  finalSegments (session (handleEnd env (handleEnd env h)))
    = finalSegments (session (handleEnd env h)) /\
  finalSegments (session (stop_callback (handleEnd env h)))
    = finalSegments (session (handleEnd env h)) /\
  (forallb (fun e => negb (resets_transcript e)) events = true ->
   finalSegments (session (run env events (stop_callback h)))
     = finalSegments (session (stop_callback h))).
Proof.
  assert (Hsettled : nothing_pending (session (handleEnd env h))).
  { rewrite handleEnd_session. apply flushInterimIfAny_settles. }
  split; [|split].
  - rewrite (handleEnd_session env (handleEnd env h)).
    rewrite flushInterimIfAny_idle by exact Hsettled. reflexivity.
  - apply stop_callback_idle. exact Hsettled.
  - assert (Hfrozen : forall h0,
              isRecording (session h0) = false -> nothing_pending (session h0) ->
              forallb (fun e => negb (resets_transcript e)) events = true ->
              finalSegments (session (run env events h0)) = finalSegments (session h0)).
    { induction events as [|e events IH]; intros h0 Hrec Hidle Hquiet; [reflexivity|].
      cbn [forallb] in Hquiet. apply andb_true_iff in Hquiet.
      destruct Hquiet as [He Hrest]. apply negb_true_iff in He.
      destruct (step_frozen env h0 e He Hrec Hidle) as [Hrec' [Hidle' Hsegs]].
      cbn [run fold_left]. fold (run env events (step env h0 e)).
      rewrite (IH (step env h0 e) Hrec' Hidle' Hrest). exact Hsegs. }
    intros Hquiet. destruct (stop_callback_settles h) as [Hrec Hidle].
    apply Hfrozen; assumption.
Qed.

(** A finalized text that is not similar to the memo and not empty is
    stored, whole or less its overlap, and becomes the memo. *)
Lemma handleFinal_stores (text : jsstring) (s : Session) :
  areSimilarTexts (Text.trim text) (lastFinalText s) = false ->
  Text.trim text <> [] ->
  lastFinalText (handleFinal text s) = Text.trim text /\
  exists added,
    finalSegments (handleFinal text s) = finalSegments s ++ [added] /\
    clean_segment added.
Proof.
  intros Hsimilar Htrim. unfold handleFinal.
  cbn [lastFinalText finalSegments isRecording latestInterim]. rewrite Hsimilar.
  pose proof (overlap_remainder_clean (Text.trim text) (last_segment (finalSegments s)))
    as Hoverlap.
  pose proof (trim_idempotent text) as Hidem.
  destruct (Text.trim text) as [|c trimmed] eqn:Htrimmed; [contradiction|].
  cbn [List.length Nat.ltb Nat.leb].
  destruct (getOverlapWithLastSegment (c :: trimmed) (last_segment (finalSegments s)))
    as [[|] trimmedText]; cbn [fst snd] in Hoverlap.
  - destruct (Hoverlap eq_refl) as [Hne Hclean].
    destruct trimmedText as [|d trimmedText]; [contradiction|].
    cbn [List.length Nat.ltb Nat.leb lastFinalText finalSegments].
    split; [reflexivity|]. eexists. split; [reflexivity|]. split; [discriminate|exact Hclean].
  - cbn [List.length Nat.ltb Nat.leb lastFinalText finalSegments].
    split; [reflexivity|]. eexists. split; [reflexivity|]. split; [discriminate|exact Hidem].
Qed.

(** X18.  A restart forgets the last final text.  After the restart timer
    ran in a recording session, the first finalized text with anything in
    it beyond punctuation and white space is stored, even when it repeats the
    text finalized just before the restart; a text that normalizes to
    nothing is dropped. *)
Theorem restart_forgets_last_final (now : Z) (start_throws : bool) (h : Hook)
    (text : jsstring) :
  let s := session (restart_callback now start_throws h) in
  isRecording (session h) = true ->
  isManualStop h = false ->
  lastFinalText s = [] /\
  finalSegments s = finalSegments (session h) /\
  (normalizeForComparison text <> [] ->
   lastFinalText (handleFinal text s) = Text.trim text /\
   exists added,
     finalSegments (handleFinal text s) = finalSegments (session h) ++ [added] /\
     clean_segment added) /\
  (normalizeForComparison text = [] ->
   finalSegments (handleFinal text s) = finalSegments (session h)).
Proof.
  intros s Hrec Hmanual.
  assert (Hs : s = set_lastFinalText [] (session h)).
  { unfold s, restart_callback. rewrite Hrec, Hmanual. hook_simpl.
    destruct (recognition h); [destruct start_throws|]; reflexivity. }
  rewrite Hs. hook_simpl. split; [reflexivity|]. split; [reflexivity|].
  destruct (areSimilarTexts (Text.trim text) []) eqn:Hsimilar.
  - pose proof (proj1 (similar_to_empty _) Hsimilar) as Hempty.
    rewrite normalize_trim in Hempty.
    split; [intros Hne; contradiction|]. intros _.
    unfold handleFinal. hook_simpl. rewrite Hsimilar. reflexivity.
  - assert (Hne : normalizeForComparison text <> []).
    { intros E. rewrite <- normalize_trim in E. apply similar_to_empty in E. congruence. }
    split; [intros _|intros E; contradiction].
    assert (Htrim : Text.trim text <> []).
    { intros E. apply Hne. rewrite <- normalize_trim, E. reflexivity. }
    apply (handleFinal_stores text (set_lastFinalText [] (session h))); assumption.
Qed.

(** The sentence finalized before a restart is finalized again after it. *)
Lemma restart_forgets_last_final_witness :
  let h := set_session (handleFinal (str "Hello") fresh_session)
             (startListening {| isEdge := false; isChrome := true; isSupported := true;
                                hasRecognitionAPI := true |} 0 None initial_hook) in
  finalSegments (handleFinal (str "Hello") (session h)) = [str "Hello"] /\
  exists added,
    finalSegments (handleFinal (str "Hello") (session (restart_callback 40000 false h)))
    = [str "Hello"] ++ [added].
Proof.
  intros h. split; [reflexivity|].
  destruct (restart_forgets_last_final 40000 false h (str "Hello") eq_refl eq_refl)
    as [_ [_ [Hkept _]]].
  destruct (Hkept ltac:(discriminate)) as [_ [added [Hsegs _]]].
  exists added. exact Hsegs.
Defined.

(** X19.  The watchdog in a recording session that is not restarting.  A
    tick does nothing while the session is 5 seconds old or less, or while it
    is within its ceiling (35 seconds on Chrome, 45 seconds elsewhere) and a
    result came in the last 12 seconds.  Past the ceiling a tick stops the
    recognition, once: further ticks do nothing until the restart timer has
    run.  [onend] then sets the restart timer, after the delay for the
    browser, and the timer starts the recognition again: the calls are
    [stop()], the timer, [start()], in this order; the segments are those
    that [onend] left; the new session begins at the time of the timer with
    the memo and the retry counter cleared. *)
Theorem watchdog_restart_cycle (env : Env) (now later restarted : Z) (h : Hook) :
  let elapsed := now - sessionStart h in
  let sinceLastResult :=
    now - (if lastResultAt h =? 0 then sessionStart h else lastResultAt h) in
  let stopped := watchdog env now false h in
  let cycled := run env [EvWatchdog now false; EvEnd; EvRestartTimer restarted false] h in
  isRecording (session h) = true ->
  isManualStop h = false ->
  isRestarting h = false ->
  recognition h = true ->
  (elapsed <= 5000 -> stopped = h) /\
  (elapsed <= max_session_ms env -> sinceLastResult <= 12000 -> stopped = h) /\
  (max_session_ms env < elapsed ->
   calls stopped = calls h ++ [CallStop] /\
   isRestarting stopped = true /\
   watchdog env later false stopped = stopped /\
   calls cycled = calls h ++ [CallStop; TimerRestart (restart_delay env); CallStart] /\
   isRestarting cycled = false /\
   sessionStart cycled = restarted /\
   transientRetryCount cycled = 0 /\
   consecutiveFailures cycled = consecutiveFailures h /\
   lastFinalText (session cycled) = [] /\
   finalSegments (session cycled) = finalSegments (flushInterimIfAny (session h))).
Proof.
  intros elapsed sinceLastResult stopped cycled Hrec Hmanual Hrestarting Hrecognition.
  assert (Hsafe : safeRestart env false h = emit CallStop (set_isRestarting true h)).
  { unfold safeRestart. rewrite Hrec, Hmanual, Hrestarting. hook_simpl.
    rewrite Hrecognition. reflexivity. }
  unfold max_session_ms, CHROME_MAX_SESSION_MS, EDGE_MAX_SESSION_MS.
  split; [|split].
  - intros Hyoung. unfold stopped, watchdog. rewrite Hrec, Hmanual. hook_simpl.
    fold elapsed.
    unfold CHROME_MAX_SESSION_MS, EDGE_MAX_SESSION_MS, MAX_SILENCE_BEFORE_RESTART_MS.
    destruct (Z.gtb_spec elapsed (if isChrome env then 35000 else 45000)) as [Hover|_];
      [destruct (isChrome env); lia|].
    destruct (Z.gtb_spec elapsed 5000); [lia|]. rewrite andb_false_r. reflexivity.
  - intros Hwithin Hrecent. unfold stopped, watchdog. rewrite Hrec, Hmanual. hook_simpl.
    fold elapsed. fold sinceLastResult.
    unfold CHROME_MAX_SESSION_MS, EDGE_MAX_SESSION_MS, MAX_SILENCE_BEFORE_RESTART_MS.
    destruct (Z.gtb_spec elapsed (if isChrome env then 35000 else 45000)); [lia|].
    destruct (Z.gtb_spec sinceLastResult 12000); [lia|]. reflexivity.
  - intros Hover.
    assert (Hstopped : stopped = emit CallStop (set_isRestarting true h)).
    { unfold stopped, watchdog. rewrite Hrec, Hmanual. hook_simpl. fold elapsed.
      unfold CHROME_MAX_SESSION_MS, EDGE_MAX_SESSION_MS.
      destruct (Z.gtb_spec elapsed (if isChrome env then 35000 else 45000)); [|lia].
      exact Hsafe. }
    assert (Hcycled : cycled =
                      restart_callback restarted false (handleEnd env stopped))
      by reflexivity.
    rewrite Hcycled, Hstopped. clear Hcycled.
    split; [reflexivity|]. split; [reflexivity|]. split.
    { unfold watchdog, safeRestart. hook_simpl. rewrite Hrec, Hmanual. hook_simpl.
      destruct (Z.gtb _ _); [reflexivity|]. destruct (_ && _); reflexivity. }
    pose proof (flushInterimIfAny_appends (session h)) as [Hflush_rec _].
    unfold restart_callback, handleEnd. hook_simpl.
    do 4 (rewrite ?Hflush_rec, ?Hrec, ?Hmanual, ?Hrecognition; hook_simpl).
    rewrite <- !app_assoc. repeat split; reflexivity.
Qed.

(** A Chrome session of 36 seconds with a result one second ago. *)
Lemma watchdog_restart_cycle_witness :
  let env := {| isEdge := false; isChrome := true; isSupported := true;
                hasRecognitionAPI := true |} in
  let h := onresult 35000 0 [{| isFinal := true; transcript := str "Hello" |}]
             (startListening env 0 None initial_hook) in
  calls (run env [EvWatchdog 36000 false; EvEnd; EvRestartTimer 36200 false] h)
  = [CallStart; CallStop; TimerRestart 200; CallStart] /\
  sessionStart (run env [EvWatchdog 36000 false; EvEnd; EvRestartTimer 36200 false] h)
  = 36200.
Proof.
  intros env h.
  destruct (watchdog_restart_cycle env 36000 38000 36200 h eq_refl eq_refl eq_refl eq_refl)
    as [_ [_ Hcycle]].
  destruct (Hcycle eq_refl) as [_ [_ [_ [Hcalls [_ [Hstart _]]]]]].
  split; [exact Hcalls|exact Hstart].
Defined.

Lemma safeRestart_inv (env : Env) (stop_throws : bool) (h : Hook) :
  reachable_inv h -> reachable_inv (safeRestart env stop_throws h).
Proof.
  unfold safeRestart. destruct (_ || _); [auto|]. destruct (isRestarting h); [auto|].
  hook_simpl. destruct (recognition h); [destruct stop_throws|]; auto.
Qed.

Lemma step_inv (env : Env) (h : Hook) (e : Event) :
  reachable_inv h -> reachable_inv (step env h e).
Proof.
  intros [Hrecog [Hf Ht]].
  destruct e; cbn [step].
  - unfold onresult. destruct (negb (isRecording (session h))) eqn:Hrec;
      [split; auto|].
    apply negb_false_iff in Hrec. unfold reachable_inv. hook_simpl.
    split; [auto|lia].
  - unfold handleError. destruct (_ || _); [split; auto|]. cbv zeta.
    destruct (isRecording (session h) && negb (isManualStop h)
              && shouldRestartOnError env errorType); cbn [andb].
    + destruct (Z.leb _ _).
      * apply safeRestart_inv. unfold reachable_inv. hook_simpl. split; [auto|lia].
      * destruct (Z.geb _ _); unfold reachable_inv; hook_simpl; split; auto; lia.
    + destruct (Z.geb _ _); unfold reachable_inv; hook_simpl; split; auto; lia.
  - unfold handleEnd. hook_simpl.
    destruct (flushInterimIfAny_appends (session h)) as [Hrec _].
    destruct (_ || _); [|destruct (isRestarting h)];
      unfold reachable_inv; hook_simpl; rewrite Hrec; split; auto.
  - unfold restart_callback. destruct (_ || _); [split; auto|]. hook_simpl.
    destruct (recognition h) eqn:Hr; [destruct start_throws|];
      unfold reachable_inv; hook_simpl; rewrite ?Hr; split; auto; lia.
  - unfold watchdog. cbv zeta. destruct (_ || _); [split; auto|].
    destruct (Z.gtb _ _); [apply safeRestart_inv; split; auto|].
    destruct (_ && _); [apply safeRestart_inv|]; split; auto.
  - unfold startListening.
    destruct (negb (isSupported env)); [split; auto|].
    destruct (negb (hasRecognitionAPI env)); [split; auto|].
    hook_simpl. destruct start_error; unfold reachable_inv; hook_simpl; split; auto; lia.
  - unfold stopListening. hook_simpl.
    destruct (_ && _); unfold reachable_inv; hook_simpl; split; auto.
  - unfold stop_callback, reachable_inv. hook_simpl.
    destruct (negb _ && negb _); [destruct (0 <? _)%nat|]; hook_simpl;
      (split; [discriminate|auto]).
  - unfold abort. hook_simpl.
    destruct (recognition h); [destruct abort_throws|]; unfold reachable_inv; hook_simpl;
      (split; [discriminate|auto]).
  - unfold clearTranscript, reachable_inv. hook_simpl. split; auto.
Qed.

(** X20.  In every state the hook reaches from its initial state, by any
    events in any order, a recording hook holds a recognition object, and the
    two failure counters are not negative.  So the restart timer of a
    recording session that was not stopped always tries [start()]: it logs
    the call, or counts one failure when [start()] raised. *)
Theorem recording_has_recognition (env : Env) (events : list Event)
    (now : Z) (start_throws : bool) :
  let h := run env events initial_hook in
  let h' := restart_callback now start_throws h in
  (isRecording (session h) = true -> recognition h = true) /\
  0 <= consecutiveFailures h /\ 0 <= transientRetryCount h /\
  (isRecording (session h) = true -> isManualStop h = false ->
   if start_throws
   then calls h' = calls h /\ consecutiveFailures h' = consecutiveFailures h + 1
   else calls h' = calls h ++ [CallStart] /\ transientRetryCount h' = 0).
Proof.
  intros h h'.
  assert (Hgen : forall h0, reachable_inv h0 -> reachable_inv (run env events h0)).
  { induction events as [|e events IH]; intros h0 H0; [exact H0|].
    cbn [run fold_left]. apply IH, step_inv, H0. }
  assert (Hinv : reachable_inv h).
  { apply Hgen. split; [discriminate|]. split; reflexivity. }
  destruct Hinv as [Hrecog [Hf Ht]].
  split; [exact Hrecog|]. split; [exact Hf|]. split; [exact Ht|].
  intros Hrec Hmanual. unfold h', restart_callback.
  rewrite Hrec, Hmanual. hook_simpl. rewrite (Hrecog Hrec).
  destruct start_throws; hook_simpl; split; reflexivity.
Qed.

(** A session that was started, stopped and started again. *)
Lemma recording_has_recognition_witness :
  let env := {| isEdge := true; isChrome := false; isSupported := true;
                hasRecognitionAPI := true |} in
  let h := run env [EvStartListening 0 None; EvStopListening false; EvGraceTimer;
                    EvStartListening 1000 None; EvEnd] initial_hook in
  calls (restart_callback 1300 false h) = calls h ++ [CallStart].
Proof.
  intros env h.
  destruct (recording_has_recognition env
              [EvStartListening 0 None; EvStopListening false; EvGraceTimer;
               EvStartListening 1000 None; EvEnd] 1300 false) as [_ [_ [_ Hstart]]].
  exact (proj1 (Hstart eq_refl eq_refl)).
Defined.

(** X21.  A result starts the count of failures afresh: whatever errors
    came before it, after a result that arrives while recording the retry
    counter holds the retried errors that came since, and the failure counter
    the failures counted since (every error of another kind, and the retried
    ones after the third). *)
Theorem result_resets_failure_count (env : Env) (before after : list (jsstring * bool))
    (now : Z) (resultIndex : nat) (results : list SpeechResult) (h : Hook) :
  let h' := run env (error_events before ++ [EvResult now resultIndex results]
                     ++ error_events after) h in
  isRecording (session h) = true ->
  isManualStop h = false ->
  transientRetryCount h' = count_restartable env after /\
  consecutiveFailures h' =
    count_other env after + Z.max 0 (count_restartable env after - 3).
Proof.
  intros h' Hrec Hmanual. unfold h'. rewrite !run_app.
  destruct (error_events_keep env before h) as [Hs Hm].
  set (h1 := run env (error_events before) h) in *.
  assert (Hresult : run env [EvResult now resultIndex results] h1 =
                    set_session (handleResult resultIndex results (session h1))
                      (set_transientRetryCount 0
                         (set_consecutiveFailures 0 (set_lastResultAt now h1)))).
  { assert (Hrec1 : isRecording (session h1) = true) by (rewrite Hs; exact Hrec).
    cbn [run fold_left step]. unfold onresult. rewrite Hrec1. reflexivity. }
  rewrite Hresult. clear Hresult.
  set (h2 := set_session _ _).
  destruct (handleError_run env after h2) as [_ [_ [Ht [Hf _]]]].
  - unfold h2. hook_simpl.
    destruct (handleResult_appends resultIndex results (session h1)) as [Hr _].
    rewrite Hr, Hs. exact Hrec.
  - unfold h2. hook_simpl. rewrite Hm. exact Hmanual.
  - unfold h2. hook_simpl. lia.
  - cbv zeta in Ht, Hf. rewrite Ht, Hf. unfold h2, MAX_TRANSIENT_RETRIES. hook_simpl.
    split; lia.
Qed.

(** Nine failures, a result, one more failure: the count is 1. *)
Lemma result_resets_failure_count_witness :
  let env := {| isEdge := false; isChrome := true; isSupported := true;
                hasRecognitionAPI := true |} in
  let h := startListening env 0 None initial_hook in
  consecutiveFailures
    (run env (error_events (repeat (str "bad-grammar", false) 9)
              ++ [EvResult 5000 0 []] ++ error_events [(str "bad-grammar", false)]) h) = 1.
Proof.
  intros env h.
  destruct (result_resets_failure_count env (repeat (str "bad-grammar", false) 9)
              [(str "bad-grammar", false)] 5000 0 [] h eq_refl eq_refl) as [_ Hf].
  exact Hf.
Defined.

(** ** Word entries *)

Lemma split_white_pieces (s : jsstring) : forall in_run word,
  Forall (fun c => Text.is_space c = false) word ->
  Forall (Forall (fun c => Text.is_space c = false)) (split_white in_run s word).
Proof.
  induction s as [|c s IH]; intros in_run word Hword; simpl.
  - constructor; [apply Forall_rev; exact Hword|constructor].
  - destruct (Text.is_space c) eqn:Hc.
    + destruct in_run; [apply IH; exact Hword|].
      constructor; [apply Forall_rev; exact Hword|]. apply IH. constructor.
    + apply IH. constructor; assumption.
Qed.

Lemma finalWords_plain (text : jsstring) :
  Forall (fun w => w <> [] /\ Forall (fun c => Text.is_space c = false) w) (finalWords text).
Proof.
  unfold finalWords. apply List.Forall_forall. intros w Hw.
  apply filter_In in Hw. destruct Hw as [Hin Hlen].
  split.
  - intros E. rewrite E in Hlen. discriminate.
  - pose proof (split_white_pieces text false [] (List.Forall_nil _)) as Hpieces.
    rewrite List.Forall_forall in Hpieces. apply Hpieces. exact Hin.
Qed.

Lemma split_white_word (s : jsstring) : forall in_run word,
  word <> [] ->
  List.filter (fun w => (0 <? List.length w)%nat) (split_white in_run s word) <> [].
Proof.
  assert (Hkeep : forall word : jsstring, word <> [] ->
            (0 <? List.length (rev word))%nat = true).
  { intros word Hword. apply Nat.ltb_lt. rewrite length_rev.
    destruct word; [contradiction|simpl; lia]. }
  induction s as [|c s IH]; intros in_run word Hword; simpl.
  - rewrite (Hkeep word Hword). discriminate.
  - destruct (Text.is_space c).
    + destruct in_run; [apply IH; exact Hword|].
      cbn [List.filter]. rewrite (Hkeep word Hword). discriminate.
    + apply IH. discriminate.
Qed.

(** A clean segment holds a word. *)
Lemma finalWords_of_clean (text : jsstring) : clean_segment text -> finalWords text <> [].
Proof.
  intros [Hne Htrim]. unfold finalWords.
  destruct text as [|c text]; [contradiction|].
  assert (Hc : Text.is_space c = false).
  { pose proof (trimEnd_clean _ (trimStart_clean (c :: text))) as Hclean.
    fold (Text.trim (c :: text)) in Hclean. rewrite Htrim in Hclean. exact Hclean. }
  simpl. rewrite Hc. apply split_white_word. discriminate.
Qed.

Lemma push_words_spec (clock : nat -> Z) (c : Z) (texts : list jsstring) : forall r,
  Forall (fun w => w <> [] /\ Forall (fun ch => Text.is_space ch = false) w) texts ->
  numbered c r ->
  numbered c (push_words clock texts r) /\
  run_session (push_words clock texts r) = run_session r /\
  run_newInterimText (push_words clock texts r) = run_newInterimText r /\
  exists more,
    run_newWords (push_words clock texts r) = run_newWords r ++ more /\
    List.length more = List.length texts.
Proof.
  induction texts as [|text texts IH]; intros r Htexts Hr.
  - cbn. repeat split; try apply Hr. exists []. rewrite app_nil_r. split; reflexivity.
  - inversion Htexts as [|? ? [Hne Hplain] Hrest]; subst.
    cbn [push_words fold_left].
    set (r1 := {| run_session := run_session r; run_wordIdCounter := _;
                  run_newWords := _; run_newInterimText := _ |}).
    destruct Hr as [Hids [Hcounter Hwords]].
    assert (Hr1 : numbered c r1).
    { unfold numbered, r1. cbn [run_newWords run_wordIdCounter].
      rewrite length_app. cbn [List.length].
      rewrite Nat.add_1_r, seq_S, !map_app, Hids. cbn [map wordId Nat.add].
      split; [rewrite Hcounter; reflexivity|]. split; [lia|].
      apply Forall_app. split; [exact Hwords|].
      constructor; [|constructor]. repeat split; assumption. }
    destruct (IH r1 Hrest Hr1) as [Hn [Hs [Hi [more [Hmore Hlen]]]]].
    change (fold_left _ texts r1) with (push_words clock texts r1).
    split; [exact Hn|]. split; [exact Hs|]. split; [exact Hi|].
    rewrite Hmore. unfold r1. cbn [run_newWords]. rewrite <- app_assoc.
    eexists. split; [reflexivity|]. cbn [List.length app]. rewrite Hlen. reflexivity.
Qed.

(** One pass: the session moves as in the segment model; the words stay
    numbered; and words are added exactly when a segment is. *)
Lemma result_pass_spec (clock : nat -> Z) (c : Z) (r : ResultRun) (result : SpeechResult) :
  numbered c r ->
  let r' := result_pass clock r result in
  numbered c r' /\
  run_session r' =
    (if isFinal result then handleFinal (transcript result) (run_session r)
     else handleInterim (transcript result) (run_session r)) /\
  ((finalSegments (run_session r') = finalSegments (run_session r) /\
    run_newWords r' = run_newWords r) \/
   (exists added more,
      finalSegments (run_session r') = finalSegments (run_session r) ++ [added] /\
      run_newWords r' = run_newWords r ++ more /\ more <> [])).
Proof.
  intros Hr r'. subst r'. unfold result_pass, handleFinal, handleInterim.
  destruct (isFinal result).
  2: { cbn. split; [exact Hr|]. split; [reflexivity|]. left. split; reflexivity. }
  cbn [set_latestInterim lastFinalText finalSegments isRecording latestInterim run_session
       run_wordIdCounter run_newWords run_newInterimText].
  destruct (areSimilarTexts _ _);
    [cbn; split; [exact Hr|]; split; [reflexivity|]; left; split; reflexivity|].
  destruct (0 <? List.length (Text.trim (transcript result)))%nat;
    [|cbn; split; [exact Hr|]; split; [reflexivity|]; left; split; reflexivity].
  pose proof (pushed_text_clean (transcript result)
                (last_segment (finalSegments (run_session r)))) as Hclean.
  destruct (getOverlapWithLastSegment _ _) as [hasOverlap trimmedText].
  cbv zeta in Hclean.
  destruct (0 <? List.length _)%nat eqn:Hlen;
    [|cbn; split; [exact Hr|]; split; [reflexivity|]; left; split; reflexivity].
  assert (Hsegment : clean_segment (if hasOverlap then trimmedText
                                    else Text.trim (transcript result)))
    by (first [exact (Hclean Hlen)|exact (Hclean eq_refl)]).
  set (textToAdd := if hasOverlap then trimmedText else Text.trim (transcript result)) in *.
  set (r1 := {| run_session := _; run_wordIdCounter := _; run_newWords := _;
                run_newInterimText := _ |}).
  destruct (push_words_spec clock c (finalWords textToAdd) r1 (finalWords_plain textToAdd))
    as [Hn [Hs [_ [more [Hmore Hlength]]]]]; [exact Hr|].
  split; [exact Hn|]. rewrite Hs. unfold r1.
  cbn [run_session set_finalSegments set_lastFinalText finalSegments isRecording
       lastFinalText latestInterim].
  split; [reflexivity|]. right.
  exists textToAdd, more.
  split; [reflexivity|]. split; [exact Hmore|].
  intros ->. pose proof (finalWords_of_clean textToAdd Hsegment) as Hwords.
  destruct (finalWords textToAdd); [contradiction|]. discriminate.
Qed.

Lemma result_fold_spec (clock : nat -> Z) (c : Z) (results : list SpeechResult) :
  forall r, numbered c r ->
  let r' := fold_left (result_pass clock) results r in
  numbered c r' /\
  run_session r' =
    fold_left (fun s result => if isFinal result then handleFinal (transcript result) s
                               else handleInterim (transcript result) s)
      results (run_session r) /\
  exists added more,
    finalSegments (run_session r') = finalSegments (run_session r) ++ added /\
    run_newWords r' = run_newWords r ++ more /\
    (added = [] <-> more = []).
Proof.
  induction results as [|result results IH]; intros r Hr; cbn [fold_left].
  - split; [exact Hr|]. split; [reflexivity|].
    exists [], []. rewrite !app_nil_r. repeat split; reflexivity.
  - destruct (result_pass_spec clock c r result Hr) as [Hn [Hs Hgrow]].
    cbv zeta in Hn, Hs, Hgrow.
    destruct (IH (result_pass clock r result) Hn) as [Hn' [Hs' [added' [more' [Ha [Hm Hiff]]]]]].
    cbv zeta in Hn', Hs', Ha, Hm.
    split; [exact Hn'|]. split; [rewrite Hs', Hs; reflexivity|].
    destruct Hgrow as [[Hsame_s Hsame_w]|[added [more [Hadd_s [Hadd_w Hmore]]]]].
    + exists added', more'. rewrite Ha, Hm, Hsame_s, Hsame_w. auto.
    + exists (added :: added'), (more ++ more').
      rewrite Ha, Hm, Hadd_s, Hadd_w, <- !app_assoc.
      split; [reflexivity|]. split; [reflexivity|].
      split; [discriminate|].
      intros E. apply app_eq_nil in E. destruct E as [E _]. contradiction.
Qed.

(** X22.  The word entries of one result event.  [handleResult] leaves the
    segment buffer as the segment model says; the words it creates carry
    consecutive ids from the counter on, which ends just past the last id;
    every word is a non-empty text without white space, flagged neither ghost
    nor filler; and words are created exactly when a segment is stored, so
    that a shown transcript that matched the buffer before the event matches
    it after.  A hook that is not recording does nothing. *)
Theorem handleResult_words_numbered (clock : nat -> Z) (resultIndex : nat)
    (results : list SpeechResult) (s : Session) (wordIdCounter : Z) (t : Transcripts) :
  match handleResult_words clock resultIndex results s wordIdCounter with
  | None => isRecording s = false
  | Some r =>
      isRecording s = true /\
      run_session r = handleResult resultIndex results s /\
      map wordId (run_newWords r)
        = map (fun k => wordIdCounter + Z.of_nat k) (seq 0 (List.length (run_newWords r))) /\
      run_wordIdCounter r = wordIdCounter + Z.of_nat (List.length (run_newWords r)) /\
      Forall plain_word (run_newWords r) /\
      (run_newWords r = [] <-> finalSegments (run_session r) = finalSegments s) /\
      words (show_result r t) = words t ++ run_newWords r /\
      interimTranscript (show_result r t) = run_newInterimText r /\
      (finalTranscript t = fullTranscript s ->
       finalTranscript (show_result r t) = fullTranscript (run_session r))
  end.
Proof.
  unfold handleResult_words, handleResult.
  destruct (isRecording s) eqn:Hrec; [|reflexivity]. cbn [negb].
  set (r0 := {| run_session := s; run_wordIdCounter := wordIdCounter;
                run_newWords := []; run_newInterimText := [] |}).
  assert (H0 : numbered wordIdCounter r0).
  { unfold numbered, r0. cbn. split; [reflexivity|]. split; [lia|constructor]. }
  destruct (result_fold_spec clock wordIdCounter (skipn resultIndex results) r0 H0)
    as [[Hids [Hcounter Hplain]] [Hs [added [more [Ha [Hm Hiff]]]]]].
  cbv zeta in Hids, Hcounter, Hplain, Hs, Ha, Hm.
  set (r := fold_left (result_pass clock) (skipn resultIndex results) r0) in *.
  unfold r0 in Hs, Ha, Hm. cbn [run_session run_newWords app] in Hs, Ha, Hm.
  assert (Hgrow : run_newWords r = [] <-> finalSegments (run_session r) = finalSegments s).
  { rewrite Hm, Ha. rewrite <- Hiff. split; [intros ->; apply app_nil_r|].
    intros E. rewrite <- (app_nil_r (finalSegments s)) in E at 2.
    apply app_inv_head in E. exact E. }
  split; [reflexivity|]. split; [exact Hs|]. split; [exact Hids|]. split; [exact Hcounter|].
  split; [exact Hplain|]. split; [exact Hgrow|].
  unfold show_result.
  destruct (run_newWords r) as [|w ws] eqn:Hwords; cbn [List.length Nat.ltb Nat.leb].
  - cbn. split; [symmetry; apply app_nil_r|]. split; [reflexivity|].
    intros Hsync. rewrite Hsync. unfold fullTranscript. f_equal. symmetry.
    apply Hgrow. reflexivity.
  - cbn. split; [reflexivity|]. split; reflexivity.
Qed.
